(** * python-epaxos: the peer interface and the ZeroMQ replica server and client

    A shallow embedding of
      - [dsm/epaxos/network/peer.py]        (module [Peer]),
      - [dsm/epaxos/network/zeromq/impl.py] (modules [Zmq], [Server], [Client]),
    and the properties of the specification that concern them.

    Conventions.
      - A Python exception is a value of [exn]; a call that may raise returns
        a [Res].  An object that is mutated keeps its mutations when a later
        statement raises, so stateful code is a function from the state to
        the calls made on the outside world, the new state and a [Res]
        (the monad [Zmq.M]).
      - Python [float] and [datetime] values are modelled by the rational
        number they denote (seconds); rounding of [-] and [*] is not modelled.
      - [Dict[int, ReplicaAddress]] is the list of its items in insertion
        order ([Dict]), which is the order Python iterates a dict in; a
        Python [set] of ints is a [gset Z], [bytes] a [list Byte.byte].
      - What zmq does with an endpoint is not decided by the program: which
        endpoints [connect] and [bind] accept is part of the world ([Env]),
        as the clock and the arrival of messages are. *)

From Stdlib Require Import ZArith QArith List String Lia Lqa.
From stdpp Require Import gmap strings list.

Local Open Scope string_scope.
Local Open Scope list_scope.

(** ** Exceptions *)

(** The error kinds of section 7 of the specification. *)
Inductive proto_err := StaleBallot | UnknownSlot | CommandDecodeFailure.

Inductive exn :=
| ZMQError
| AssertionError
| KeyError
| IndexError
| ValueError
| ZeroDivisionError
| AttributeError
| NotImplementedError
| ProtocolError (e : proto_err).

Inductive Res (A : Type) :=
| Ok (a : A)
| Raise (e : exn).
Arguments Ok {A} a.
Arguments Raise {A} e.

(** A call made on the result of a call that returned. *)
Definition and_then {A B} (r : Res A) (f : A -> Res B) : Res B :=
  match r with
  | Ok a => f a
  | Raise e => Raise e
  end.

(** * peer.py *)
Module Peer.

(** A method declaration: its name and its parameters (name, annotation),
    [self] included. *)
Record method := Method { m_name : string; m_params : list (string * string) }.

Record class := Class {
  c_name : string;
  c_bases : list string;
  c_methods : list method
}.

Definition self := ("self", "").
Definition peer := ("peer", "int").
Definition client_peer := ("client_peer", "int").
Definition slot := ("slot", "Slot").
Definition ballot := ("ballot", "Ballot").
Definition command := ("command", "AbstractCommand").
Definition seq := ("seq", "int").
Definition deps := ("deps", "List[Slot]").
Definition state := ("state", "State").

Definition AcceptorInterface : class :=
  Class "AcceptorInterface" []
    [ Method "pre_accept_request" [self; peer; slot; ballot; command; seq; deps];
      Method "accept_request" [self; peer; slot; ballot; command; seq; deps];
      Method "commit_request" [self; peer; slot; ballot; seq; command; deps];
      Method "prepare_request" [self; peer; slot; ballot] ].

Definition LeaderInterface : class :=
  Class "LeaderInterface" []
    [ Method "client_request" [self; client_peer; command];
      Method "pre_accept_response_ack" [self; peer; slot; ballot; seq; deps];
      Method "pre_accept_response_nack" [self; peer; slot];
      Method "prepare_response_ack"
        [self; peer; slot; ballot; command; seq; deps; state];
      Method "prepare_response_nack" [self; peer; slot] ].

Definition ClientInterface : class :=
  Class "ClientInterface" []
    [ Method "client_response" [self; client_peer; command] ].

Definition Channel : class :=
  Class "Channel" ["AcceptorInterface"; "ClientInterface"; "LeaderInterface"]
    [ Method "__init__" [self] ].

(** The method resolution order of [Channel]: the class, then its bases from
    left to right (the bases have no bases of their own but [object]). *)
Definition Channel_mro : list class :=
  [Channel; AcceptorInterface; ClientInterface; LeaderInterface].

Definition declares (name : string) (ms : list method) : bool :=
  existsb (fun m => String.eqb (m_name m) name) ms.

(** Attribute lookup along an MRO: the first class that defines a name wins. *)
Fixpoint resolve (mro : list class) (seen : list method) : list method :=
  match mro with
  | [] => seen
  | c :: rest =>
      resolve rest
        (seen ++ List.filter (fun m => negb (declares (m_name m) seen))
                             (c_methods c))
  end.

(** The methods an instance of [Channel] has. *)
Definition Channel_methods : list method := resolve Channel_mro [].

(** [getattr(obj, name)] on a resolved method table. *)
Definition lookup_method (ms : list method) (name : string) : option method :=
  List.find (fun m => String.eqb (m_name m) name) ms.

(** The peer message kinds of the table in section 6 of the specification. *)
Inductive Kind :=
| ClientRequest | ClientResponse
| PreAcceptRequest | PreAcceptAck | PreAcceptNack
| AcceptRequest | AcceptAck | AcceptNack
| CommitRequest
| PrepareRequest | PrepareAck | PrepareNack.

Definition all_kinds : list Kind :=
  [ ClientRequest; ClientResponse; PreAcceptRequest; PreAcceptAck;
    PreAcceptNack; AcceptRequest; AcceptAck; AcceptNack; CommitRequest;
    PrepareRequest; PrepareAck; PrepareNack ].

(** The fields of each kind, as the table of section 6 lists them
    ([slot[, ballot]] read as: the ack carries the ballot, the nack does not,
    as for PreAccept). *)
Definition spec_fields (k : Kind) : list string :=
  match k with
  | ClientRequest => ["client_peer_id"; "command"]
  | ClientResponse => ["client_peer_id"; "command"]
  | PreAcceptRequest => ["slot"; "ballot"; "command"; "seq"; "deps"]
  | PreAcceptAck => ["slot"; "ballot"; "seq"; "deps"]
  | PreAcceptNack => ["slot"]
  | AcceptRequest => ["slot"; "ballot"; "command"; "seq"; "deps"]
  | AcceptAck => ["slot"; "ballot"]
  | AcceptNack => ["slot"]
  | CommitRequest => ["slot"; "ballot"; "seq"; "command"; "deps"]
  | PrepareRequest => ["slot"; "ballot"]
  | PrepareAck => ["slot"; "ballot"; "command"; "seq"; "deps"; "state"]
  | PrepareNack => ["slot"]
  end.

(** The name of the method that handles a kind, after the naming scheme of
    the interfaces: [<phase>_request], [<phase>_response_ack],
    [<phase>_response_nack]. *)
Definition handler_name (k : Kind) : string :=
  match k with
  | ClientRequest => "client_request"
  | ClientResponse => "client_response"
  | PreAcceptRequest => "pre_accept_request"
  | PreAcceptAck => "pre_accept_response_ack"
  | PreAcceptNack => "pre_accept_response_nack"
  | AcceptRequest => "accept_request"
  | AcceptAck => "accept_response_ack"
  | AcceptNack => "accept_response_nack"
  | CommitRequest => "commit_request"
  | PrepareRequest => "prepare_request"
  | PrepareAck => "prepare_response_ack"
  | PrepareNack => "prepare_response_nack"
  end.

Definition handlers (ms : list method) (k : Kind) : list method :=
  List.filter (fun m => String.eqb (m_name m) (handler_name k)) ms.

(** The message fields a handler takes: its parameters without [self] and
    without the sending [peer]; [client_peer] is the table's
    [client_peer_id]. *)
Definition field_of_param (p : string * string) : string :=
  if String.eqb (fst p) "client_peer" then "client_peer_id" else fst p.

Definition handler_fields (m : method) : list string :=
  match m_params m with
  | ("self", _) :: ("peer", _) :: ps => List.map field_of_param ps
  | ("self", _) :: ps => List.map field_of_param ps
  | ps => List.map field_of_param ps
  end.

(** The kinds a method is the handler of. *)
Definition kinds_of (m : method) : list Kind :=
  List.filter (fun k => String.eqb (m_name m) (handler_name k)) all_kinds.

(** Kind [k] has exactly one handler, and it takes [k]'s fields in order. *)
Definition well_handled (ms : list method) (k : Kind) : bool :=
  match handlers ms k with
  | [m] => if decide (handler_fields m = spec_fields k) then true else false
  | _ => false
  end.

End Peer.

(** * The transport and the effects of impl.py *)
Module Zmq.

(** [bytes], and a multipart message: the list of its frames. *)
Definition Packet := list Byte.byte.
Definition Multipart := list Packet.

(** What the code does to the outside world, in program order. *)
Inductive Event :=
| EMinimumWait                                  (* replica.check_timeouts_minimum_wait() *)
| EPoll (timeout_ms : Q)                        (* poller.poll(timeout) *)
| ENow                                          (* datetime.now() *)
| ETick                                         (* replica.tick() *)
| ECheckTimeouts                                (* replica.check_timeouts() *)
| ERecv (noblock : bool) (r : option Multipart) (* socket.recv_multipart(flags) *)
| EReceivePacket (p : Packet)                   (* channel_receive.receive_packet(p) *)
| EExecutePending                               (* replica.execute_pending() *)
| EPrint (ticks : Z)                            (* print(...) *)
| EBind (addr : string)                         (* socket.bind(addr) *)
| EConnect (addr : string)                      (* socket.connect(addr) *)
| EDisconnect (addr : string)                   (* socket.disconnect(addr) *)
| EClientRequest (chan : nat) (replica_id : option Z) (command : Z)
                                                (* channel.client_request(replica_id, command) *)
| ELogException (e : exn)                       (* logger.exception(...) *)
| EDumpStats.                                   (* pr.dump_stats(...) *)

(** The part of the world the program does not control: what successive
    calls of [datetime.now()] return, which messages reach the socket
    while the n-th [poll] waits, and which endpoints zmq accepts in
    [socket.connect] and in [socket.bind] (the others make the call raise
    [zmq.ZMQError]). *)
Record Env := {
  clock : nat -> Q;
  arrivals : nat -> list Multipart;
  accepts : string -> bool;
  binds : string -> bool
}.

(** A socket, with the counters of the calls made so far on the clock and
    the poller. *)
Record Socket := {
  inbound : list Multipart;   (* received, not yet read *)
  endpoints : list string;    (* connected to *)
  n_now : nat;
  n_poll : nat
}.

Definition fresh_socket : Socket :=
  {| inbound := []; endpoints := []; n_now := 0; n_poll := 0 |}.

(** Stateful, fallible, event-emitting computations over a state [S]. *)
Definition M (S A : Type) : Type := S -> list Event * S * Res A.

Definition ret {S A} (a : A) : M S A := fun s => ([], s, Ok a).

Definition bind {S A B} (m : M S A) (f : A -> M S B) : M S B :=
  fun s =>
    match m s with
    | (ev, s1, Ok a) =>
        match f a s1 with
        | (ev2, s2, r) => (ev ++ ev2, s2, r)
        end
    | (ev, s1, Raise e) => (ev, s1, Raise e)
    end.

Definition raise {S A} (e : exn) : M S A := fun s => ([], s, Raise e).
Definition emit {S} (e : Event) : M S unit := fun s => ([e], s, Ok tt).
Definition get {S} : M S S := fun s => ([], s, Ok s).
Definition put {S} (s : S) : M S unit := fun _ => ([], s, Ok tt).

(** [for x in l: body(x)] *)
Fixpoint for_each {S A} (body : A -> M S unit) (l : list A) : M S unit :=
  match l with
  | [] => ret tt
  | x :: l' => bind (body x) (fun _ => for_each body l')
  end.

(** Python's [max(a, b)] and [min(a, b)]: the first argument is kept unless
    the second is strictly greater (smaller). *)
Definition Qltb (x y : Q) : bool :=
  (Qnum x * Zpos (Qden y) <? Qnum y * Zpos (Qden x))%Z.
Definition py_max (a b : Q) : Q := if Qltb a b then b else a.
Definition py_min (a b : Q) : Q := if Qltb b a then b else a.

(** Truth value of a number: nonzero. *)
Definition truthy (x : Q) : bool := negb (Qnum x =? 0)%Z.

(** [seq[-1]] *)
Definition last_item {A} (l : list A) : Res A :=
  match last l with
  | Some x => Ok x
  | None => Raise IndexError
  end.

(** Reading a trace: the packets handed to [receive_packet], the messages
    read from the socket, the number of polls and of ticks, and the calls
    at which the program may be suspended (a poll, a read without
    [NOBLOCK]). *)
Definition dispatched (ev : list Event) : list Packet :=
  omap (fun e => match e with EReceivePacket p => Some p | _ => None end) ev.

Definition received (ev : list Event) : list Multipart :=
  omap (fun e => match e with ERecv _ (Some m) => Some m | _ => None end) ev.

Definition recvd (m : Multipart) : Event := ERecv true (Some m).

Definition is_poll (e : Event) : bool :=
  match e with EPoll _ => true | _ => false end.

Definition is_tick (e : Event) : bool :=
  match e with ETick => true | _ => false end.

Definition is_check_timeouts (e : Event) : bool :=
  match e with ECheckTimeouts => true | _ => false end.

Definition is_execute (e : Event) : bool :=
  match e with EExecutePending => true | _ => false end.

Definition is_client_request (e : Event) : bool :=
  match e with EClientRequest _ _ _ => true | _ => false end.

Definition is_disconnect (e : Event) : bool :=
  match e with EDisconnect _ => true | _ => false end.

Definition may_suspend (e : Event) : bool :=
  match e with
  | EPoll _ => true
  | ERecv false _ => true
  | _ => false
  end.

Definition count (f : Event -> bool) (ev : list Event) : nat :=
  length (List.filter f ev).

(** What [replica_server] does once [main] has ended. *)
Definition is_log (e : Event) : bool :=
  match e with ELogException _ | EDumpStats => true | _ => false end.

Definition is_print (e : Event) : bool :=
  match e with EPrint _ => true | _ => false end.

(** An event that is neither a poll nor a read that may wait. *)
Definition quiet (e : Event) : Prop :=
  may_suspend e = false /\ is_poll e = false.

(** A non-blocking read, a dispatch or a run of the executor. *)
Definition receiving (e : Event) : Prop :=
  match e with
  | ERecv true _ | EReceivePacket _ | EExecutePending => True
  | _ => False
  end.

Section Transport.
Context {S : Type} (env : Env).
Context (sock : S -> Socket) (set_sock : Socket -> S -> S).

(** [datetime.now()] *)
Definition now : M S Q := fun s =>
  let k := sock s in
  ([ENow],
   set_sock {| inbound := inbound k; endpoints := endpoints k;
               n_now := Datatypes.S (n_now k); n_poll := n_poll k |} s,
   Ok (clock env (n_now k))).

(** [dict(poller.poll(timeout))], for a poller with the one socket
    registered for [POLLIN]: what arrived during the wait is queued, and the
    socket is in the result when its queue is not empty.  The result is
    whether the socket is in the dictionary. *)
Definition poll (timeout_ms : Q) : M S bool := fun s =>
  let k := sock s in
  let q := inbound k ++ arrivals env (n_poll k) in
  ([EPoll timeout_ms],
   set_sock {| inbound := q; endpoints := endpoints k;
               n_now := n_now k; n_poll := Datatypes.S (n_poll k) |} s,
   Ok (match q with [] => false | _ => true end)).

(** [socket.recv_multipart(flags)] once the poll has returned: the head of
    the queue; on an empty queue [zmq.NOBLOCK] makes it raise [ZMQError]
    (EAGAIN).  (Without the flag it would wait on an empty queue; the one
    caller without the flag reads only after the poll reported the socket.) *)
Definition recv_multipart (noblock : bool) : M S Multipart := fun s =>
  let k := sock s in
  match inbound k with
  | m :: q =>
      ([ERecv noblock (Some m)],
       set_sock {| inbound := q; endpoints := endpoints k;
                   n_now := n_now k; n_poll := n_poll k |} s,
       Ok m)
  | [] => ([ERecv noblock None], s, Raise ZMQError)
  end.

(** [socket.connect(addr)]: one more connection, to [addr]; [ZMQError]
    when zmq does not accept the endpoint, and the socket is then as it
    was. *)
Definition sock_connect (addr : string) : M S unit := fun s =>
  let k := sock s in
  if accepts env addr then
    ([EConnect addr],
     set_sock {| inbound := inbound k; endpoints := endpoints k ++ [addr];
                 n_now := n_now k; n_poll := n_poll k |} s,
     Ok tt)
  else ([EConnect addr], s, Raise ZMQError).

(** The connections left once every connection to [a] is ended. *)
Definition drop_endpoint (a : string) (l : list string) : list string :=
  List.filter (fun x => negb (String.eqb x a)) l.

(** [socket.disconnect(addr)]: every connection to [addr] is ended;
    [ZMQError] (ENOENT) when the socket is not connected to [addr]. *)
Definition sock_disconnect (addr : string) : M S unit := fun s =>
  let k := sock s in
  if existsb (String.eqb addr) (endpoints k) then
    ([EDisconnect addr],
     set_sock {| inbound := inbound k;
                 endpoints := drop_endpoint addr (endpoints k);
                 n_now := n_now k; n_poll := n_poll k |} s,
     Ok tt)
  else ([EDisconnect addr], s, Raise ZMQError).

End Transport.

Declare Scope py_scope.
Delimit Scope py_scope with py.
Notation "x <- m ;; k" := (bind m (fun x => k))
  (at level 100, m at next level, right associativity) : py_scope.
Notation "m ;;; k" := (bind m (fun _ => k))
  (at level 100, right associativity) : py_scope.

End Zmq.

(** * impl.py *)

Record ReplicaAddress := { replica_addr : string }.

(** [Dict[int, ReplicaAddress]]: the items, in insertion order.  (A dict
    holds a key once; nothing below depends on it.) *)
Definition Dict := list (Z * ReplicaAddress).

(** [d[k]], [None] standing for the [KeyError]. *)
Definition dict_get (d : Dict) (k : Z) : option ReplicaAddress :=
  match List.find (fun kv => (fst kv =? k)%Z) d with
  | Some kv => Some (snd kv)
  | None => None
  end.

#[global] Instance dict_lookup : Lookup Z ReplicaAddress Dict :=
  fun k d => dict_get d k.

(** [list(d.keys())] *)
Definition keys (d : Dict) : list Z := List.map fst d.

(** ** ReplicaServer *)
Module Server.
Import Zmq.
Local Open Scope py_scope.

(** The arguments of the call [ReplicaState(...)] in
    [ReplicaServer.__init__], by position, after the first one (the send
    channel, an object made from the server itself).  The class
    [ReplicaState] is in dsm/epaxos/replica/state.py. *)
Record ReplicaState_call := {
  a_epoch : Z;
  a_replica_id : Z;
  a_peers_1 : gset Z;
  a_peers_2 : gset Z;
  a_flag : bool;
  a_number : Z
}.

(** What [impl.py] uses of the replica (classes [Replica], [ReplicaState],
    [ZMQReplicaReceiveChannel]): the attributes it reads and the methods it
    calls, over the replica's whole state [R]. *)
Record Replica (R : Type) := {
  new_replica : ReplicaState_call -> R;
  seconds_per_tick : R -> Q;                  (* state.seconds_per_tick *)
  ticks : R -> Z;                             (* state.ticks *)
  jiffies : R -> Z;                           (* state.jiffies *)
  replica_id : R -> Z;                        (* state.replica_id *)
  check_timeouts_minimum_wait : R -> option Q;
  tick : R -> Res R;
  check_timeouts : R -> Res R;
  receive_packet : Packet -> R -> Res R;
  execute_pending : R -> Res R
}.
Arguments new_replica {R}.
Arguments seconds_per_tick {R}.
Arguments ticks {R}.
Arguments jiffies {R}.
Arguments replica_id {R}.
Arguments check_timeouts_minimum_wait {R}.
Arguments tick {R}.
Arguments check_timeouts {R}.
Arguments receive_packet {R}.
Arguments execute_pending {R}.

(** The object: [self.peer_addr], [self.socket] and [self.replica] (with
    [self.state]); [state_call] remembers what [ReplicaState] was built
    from. *)
Record ReplicaServer (R : Type) := {
  peer_addr : Dict;
  socket : Socket;
  state_call : ReplicaState_call;
  replica : R
}.
Arguments peer_addr {R}.
Arguments socket {R}.
Arguments state_call {R}.
Arguments replica {R}.

(** The locals of [main] that live across iterations. *)
Record Locals := {
  last_tick_time : Q;
  poll_delta : Q;
  last_tick : Z
}.

(** [ReplicaState(self.channel_send, epoch, replica_id,
                  set(peer_addr.keys()), set(peer_addr.keys()), True, 5)] *)
Definition ReplicaState_of (epoch replica_id : Z)
    (peer_addr : Dict) : ReplicaState_call :=
  {| a_epoch := epoch;
     a_replica_id := replica_id;
     a_peers_1 := list_to_set (keys peer_addr);
     a_peers_2 := list_to_set (keys peer_addr);
     a_flag := true;
     a_number := 5 |}.

Section WithReplica.
Context {R : Type} (ops : Replica R) (env : Env).

Abbreviation S := (ReplicaServer R).

Definition set_socket (k : Socket) (s : S) : S :=
  {| peer_addr := peer_addr s; socket := k;
     state_call := state_call s; replica := replica s |}.

Definition set_replica (r : R) (s : S) : S :=
  {| peer_addr := peer_addr s; socket := socket s;
     state_call := state_call s; replica := r |}.


(** Reading an attribute of the replica, and calling one of its methods. *)
Definition read {A} (f : R -> A) : M S A := fun s => ([], s, Ok (f (replica s))).

Definition call (e : Event) (f : R -> Res R) : M S unit := fun s =>
  match f (replica s) with
  | Ok r => ([e], set_replica r s, Ok tt)
  | Raise x => ([e], s, Raise x)
  end.

(** [ReplicaServer.connect]: the items of [peer_addr] in the dict's
    order; a [connect] that raises ends the loop. *)
Definition connect : M S unit :=
  s <- get ;;
  for_each
    (fun pa : Z * ReplicaAddress =>
       me <- read (replica_id ops) ;;
       if (fst pa =? me)%Z then ret tt
       else sock_connect env socket set_socket (replica_addr (snd pa)))
    (peer_addr s).

(** The inner loop of [main]:
    [while True: try: packets.append(recv_multipart(NOBLOCK)[-1])
                 except zmq.ZMQError: break],
    by recursion on the queue [recv_multipart] reads from.  Only the
    [ZMQError] is caught. *)
Fixpoint drain (q : list Multipart) (packets : list Packet)
    : list Event * list Multipart * Res (list Packet) :=
  match q with
  | [] => ([ERecv true None], [], Ok packets)
  | m :: q' =>
      match last_item m with
      | Ok p =>
          match drain q' (packets ++ [p]) with
          | (ev, q'', r) => (ERecv true (Some m) :: ev, q'', r)
          end
      | Raise e => ([ERecv true (Some m)], q', Raise e)
      end
  end.

Definition recv_all : M S (list Packet) := fun s =>
  let k := socket s in
  match drain (inbound k) [] with
  | (ev, q, r) =>
      (ev,
       set_socket {| inbound := q; endpoints := endpoints k;
                     n_now := n_now k; n_poll := n_poll k |} s,
       r)
  end.

(** The status line printed every [jiffies * 30] ticks; [%] by zero raises. *)
Definition report (l : Locals) : M S Z :=
  t <- read (ticks ops) ;;
  if (t =? last_tick l)%Z then ret (last_tick l)
  else
    j <- read (jiffies ops) ;;
    if (j * 30 =? 0)%Z then raise ZeroDivisionError
    else if (t mod (j * 30) =? 0)%Z then
      (_ <- now env socket set_socket ;; emit (EPrint t) ;;; ret t)
    else ret (last_tick l).

(** The wait handed to the poll, in seconds. *)
Definition poll_wait (min_wait : option Q) (spt delta : Q) : Q :=
  let min_wait_poll := py_max 0 (spt - delta) in
  match min_wait with
  | Some w => if truthy w then py_min w min_wait_poll else min_wait_poll
  | None => min_wait_poll
  end.

(** Lines 83-92: the wait, the poll, and the time elapsed since
    [last_tick_time] when the poll returns.  The result is whether the
    socket is in the poll's result, and that elapsed time. *)
Definition wait_block (l : Locals) : M S (bool * Q) :=
  emit EMinimumWait ;;;
  min_wait <- read (check_timeouts_minimum_wait ops) ;;
  spt <- read (seconds_per_tick ops) ;;
  let min_wait := poll_wait min_wait spt (poll_delta l) in
  readable <- poll env socket set_socket (min_wait * 1000) ;;
  t <- now env socket set_socket ;;
  ret (readable, (t - last_tick_time l)%Q).

(** Lines 94-97; the result is the new [last_tick_time]. *)
Definition tick_block (l : Locals) (delta : Q) : M S Q :=
  spt <- read (seconds_per_tick ops) ;;
  if Qltb spt delta then
    call ETick (tick ops) ;;;
    call ECheckTimeouts (check_timeouts ops) ;;;
    now env socket set_socket
  else ret (last_tick_time l).

(** [for packet in packets: self.channel_receive.receive_packet(packet)] *)
Definition dispatch (packets : list Packet) : M S unit :=
  for_each (fun p => call (EReceivePacket p) (receive_packet ops p)) packets.

(** Lines 101-116. *)
Definition receive_block (readable : bool) : M S unit :=
  if readable then
    packets <- recv_all ;;
    dispatch packets ;;;
    if (0 <? length packets)%nat then call EExecutePending (execute_pending ops)
    else ret tt
  else ret tt.

(** One iteration of the [while True] of [ReplicaServer.main]. *)
Definition main_iter (l : Locals) : M S Locals :=
  rd <- wait_block l ;;
  ltt <- tick_block l (snd rd) ;;
  receive_block (fst rd) ;;;
  lt <- report l ;;
  ret {| last_tick_time := ltt; poll_delta := snd rd; last_tick := lt |}.

(** The traces of lines 101-116 for a queue [q]. *)
Inductive receive_trace (q : list Multipart) : list Event -> Res unit -> Prop :=
| rt_no_frame ms m rest :
    q = ms ++ m :: rest -> last m = None ->
    receive_trace q (List.map recvd (ms ++ [m])) (Raise IndexError)
| rt_handler_raises ps pre p post e :
    List.map Some ps = List.map last q -> ps = pre ++ p :: post ->
    receive_trace q
      (List.map recvd q ++ [ERecv true None] ++
       List.map EReceivePacket (pre ++ [p]))
      (Raise e)
| rt_empty :
    q = [] -> receive_trace q [ERecv true None] (Ok tt)
| rt_batch ps r :
    List.map Some ps = List.map last q -> ps <> [] ->
    receive_trace q
      (List.map recvd q ++ [ERecv true None] ++
       List.map EReceivePacket ps ++ [EExecutePending])
      r.

(** The traces of lines 94-97. *)
Inductive tick_trace (r0 : R) : list Event -> Prop :=
| tt_tick_raises e :
    tick ops r0 = Raise e -> tick_trace r0 [ETick]
| tt_check_raises r1 e :
    tick ops r0 = Ok r1 -> check_timeouts ops r1 = Raise e ->
    tick_trace r0 [ETick; ECheckTimeouts]
| tt_done r1 r2 :
    tick ops r0 = Ok r1 -> check_timeouts ops r1 = Ok r2 ->
    tick_trace r0 [ETick; ECheckTimeouts; ENow].

(** What an iteration started in [s] with locals [l] will see: the queue
    once the poll has returned, the time elapsed since [last_tick_time] at
    that moment, and the wait it hands to the poll. *)
Definition queue_after_poll (s : S) : list Multipart :=
  inbound (socket s) ++ arrivals env (n_poll (socket s)).

Definition elapsed (l : Locals) (s : S) : Q :=
  (clock env (n_now (socket s)) - last_tick_time l)%Q.

Definition wait_of (l : Locals) (s : S) : Q :=
  poll_wait (check_timeouts_minimum_wait ops (replica s))
            (seconds_per_tick ops (replica s)) (poll_delta l).

(** Whether that iteration will find a tick due (line 94). *)
Definition tick_due (l : Locals) (s : S) : bool :=
  Qltb (seconds_per_tick ops (replica s)) (elapsed l s).

(** *** The steps of an iteration as the specification names them

    The next three definitions follow the words of the specification and
    of the claims, not the source: "ticking the logical clock" and
    "servicing expired timeouts" when a tick is due, messages "processed in
    arrival order", and the Executor that "runs whenever new commits
    appear".  They give what each step makes of the replica's state when the
    replica's methods are applied one after the other; the theorems compare
    what [main_iter] does with them. *)
Definition spec_tick (due : bool) (r : R) : Res R :=
  if due then and_then (tick ops r) (check_timeouts ops) else Ok r.

Definition spec_receive (ps : list Packet) (r : R) : Res R :=
  fold_left (fun acc p => and_then acc (receive_packet ops p)) ps (Ok r).

Definition spec_execute (ps : list Packet) (r : R) : Res R :=
  match ps with
  | [] => Ok r
  | _ => execute_pending ops r
  end.

(** [main]'s prologue. *)
Definition main_start : M S Locals :=
  t <- now env socket set_socket ;;
  k <- read (ticks ops) ;;
  ret {| last_tick_time := t; poll_delta := 0; last_tick := k |}.

(** The [while True]: [fuel] bounds the iterations looked at.  The loop has
    no normal exit: the result is the exception that ended it, or [None]
    when it is still running after [fuel] iterations. *)
Fixpoint main_loop (fuel : nat) (l : Locals) (s : S)
    : list Event * S * option exn :=
  match fuel with
  | O => ([], s, None)
  | Datatypes.S fuel' =>
      match main_iter l s with
      | (ev, s1, Ok l1) =>
          match main_loop fuel' l1 s1 with
          | (ev2, s2, r) => (ev ++ ev2, s2, r)
          end
      | (ev, s1, Raise e) => (ev, s1, Some e)
      end
  end.




End WithReplica.

End Server.

(** ** ReplicaClient *)
Module Client.
Import Zmq.
Local Open Scope py_scope.

(** The object.  [channel] holds the identity of the
    [ZMQClientSendChannel] installed, [next_obj] the identity the next
    object made will get.  A command is identified by its [ident]. *)
Record ReplicaClient := {
  peer_id : Z;
  peer_addr : Dict;
  replica_id : option Z;
  channel : option nat;
  socket : Socket;
  next_obj : nat
}.

(** [ReplicaClient.__init__(context, peer_id, peer_addr)] *)
Definition ReplicaClient_init (pid : Z) (addrs : Dict)
    : ReplicaClient :=
  {| peer_id := pid; peer_addr := addrs; replica_id := None;
     channel := None; socket := fresh_socket; next_obj := 0 |}.

Definition set_socket (k : Socket) (c : ReplicaClient) : ReplicaClient :=
  {| peer_id := peer_id c; peer_addr := peer_addr c;
     replica_id := replica_id c; channel := channel c;
     socket := k; next_obj := next_obj c |}.

(** [self.replica_id = r] *)
Definition set_replica_id (r : Z) : M ReplicaClient unit := fun c =>
  ([], {| peer_id := peer_id c; peer_addr := peer_addr c;
          replica_id := Some r; channel := channel c;
          socket := socket c; next_obj := next_obj c |}, Ok tt).

(** [self.channel = ZMQClientSendChannel(self)] *)
Definition new_channel : M ReplicaClient unit := fun c =>
  ([], {| peer_id := peer_id c; peer_addr := peer_addr c;
          replica_id := replica_id c; channel := Some (next_obj c);
          socket := socket c; next_obj := Datatypes.S (next_obj c) |}, Ok tt).

(** [self.peer_addr[r].replica_addr] *)
Definition addr_of (r : Z) : M ReplicaClient string :=
  c <- get ;;
  match peer_addr c !! r with
  | Some a => ret (replica_addr a)
  | None => raise KeyError
  end.

(** [random.choice(list(self.peer_addr.keys()))]; [rnd] is the draw. *)
Definition random_choice (rnd : nat) : M ReplicaClient Z :=
  c <- get ;;
  let ks := keys (peer_addr c) in
  match ks with
  | [] => raise IndexError
  | k :: _ => ret (List.nth (rnd mod length ks) ks k)
  end.

(** Truth value of [self.replica_id]: [None] and [0] are false. *)
Definition truthy_id (r : option Z) : bool :=
  match r with
  | None => false
  | Some z => negb (z =? 0)%Z
  end.

(** [ReplicaClient.connect(replica_id=None)] *)
Definition connect (env : Env) (rid : option Z) (rnd : nat)
    : M ReplicaClient unit :=
  r <- match rid with
       | None => random_choice rnd
       | Some r => ret r
       end ;;
  c <- get ;;
  (if truthy_id (replica_id c) then
     match replica_id c with
     | Some old => a <- addr_of old ;; sock_disconnect socket set_socket a
     | None => ret tt
     end
   else ret tt) ;;;
  set_replica_id r ;;;
  new_channel ;;;
  a <- addr_of r ;;
  sock_connect env socket set_socket a.

(** [replica_id] and [channel] are set together. *)
Definition linked (c : ReplicaClient) : Prop :=
  replica_id c = None <-> channel c = None.

(** A client that is connected to nothing, or to the one replica, of a
    nonzero id, that [replica_id] names. *)
Definition tidy (c : ReplicaClient) : Prop :=
  (replica_id c = None /\ endpoints (socket c) = []) \/
  (exists r a, replica_id c = Some r /\ r <> 0%Z /\
               peer_addr c !! r = Some a /\
               endpoints (socket c) = [replica_addr a]).

(** [for r in rs: client.connect(r)] *)
Definition connect_each (env : Env) (rs : list Z) : M ReplicaClient unit :=
  for_each (fun r => connect env (Some r) 0) rs.

Section WithReply.
(** [deserialize] (dsm/epaxos/network/zeromq/mapping.py) and the type of
    what it returns. *)
Context {T : Type} (deserialize : Packet -> Res T) (env : Env).

(** [self.channel.client_request(self.replica_id, command)] *)
Definition client_request (command : Z) : M ReplicaClient unit :=
  c <- get ;;
  match channel c with
  | None => raise AttributeError
  | Some ch => emit (EClientRequest ch (replica_id c) command)
  end.

(** [payload, = frames] *)
Definition unpack_one {S} (frames : Multipart) : M S Packet :=
  match frames with
  | [p] => ret p
  | _ => raise ValueError
  end.

Definition lift {S A} (r : Res A) : M S A := fun s => ([], s, r).

(** One turn of the [while True] of [request]: [Some] is the value
    returned, [None] means the loop goes on. *)
Definition request_turn (command : Z) (start : Q)
    : M ReplicaClient (option (Q * T)) :=
  readable <- poll env socket set_socket 1000 ;;
  if readable : bool then
    frames <- recv_multipart socket set_socket false ;;
    payload <- unpack_one frames ;;
    rtn <- lift (deserialize payload) ;;
    stop <- now env socket set_socket ;;
    ret (Some ((stop - start)%Q, rtn))
  else
    client_request command ;;;
    ret None.

(** [k] polls that time out, each followed by a retransmission. *)
Definition retries (ch : nat) (r : option Z) (command : Z) (k : nat)
    : list Event :=
  List.concat (List.repeat [EPoll 1000; EClientRequest ch r command] k).

(** The loop; [None] when it is still running after [fuel] turns. *)
Fixpoint request_loop (fuel : nat) (command : Z) (start : Q)
    (c : ReplicaClient)
    : list Event * ReplicaClient * option (Res (Q * T)) :=
  match fuel with
  | O => ([], c, None)
  | Datatypes.S fuel' =>
      match request_turn command start c with
      | (ev, c1, Ok (Some v)) => (ev, c1, Some (Ok v))
      | (ev, c1, Ok None) =>
          match request_loop fuel' command start c1 with
          | (ev2, c2, r) => (ev ++ ev2, c2, r)
          end
      | (ev, c1, Raise e) => (ev, c1, Some (Raise e))
      end
  end.

(** What precedes the loop: the assertion, the first send, the start time. *)
Definition request_start (command : Z) : M ReplicaClient Q :=
  c <- get ;;
  match replica_id c with
  | None => raise AssertionError
  | Some _ =>
      client_request command ;;;
      now env socket set_socket
  end.

(** [ReplicaClient.request(command)] *)
Definition request (fuel : nat) (command : Z) (c : ReplicaClient)
    : list Event * ReplicaClient * option (Res (Q * T)) :=
  match request_start command c with
  | (ev, c1, Ok start) =>
      match request_loop fuel command start c1 with
      | (ev2, c2, r) => (ev ++ ev2, c2, r)
      end
  | (ev, c1, Raise e) => (ev, c1, Some (Raise e))
  end.

(** [for i in range(n): lat, _ = rc.request(AbstractCommand(...))] with the
    commands of the list, in order; [fuel] bounds the turns of each
    [request].  [None] when a [request] is still running. *)
Fixpoint request_each (fuel : nat) (commands : list Z) (c : ReplicaClient)
    : list Event * ReplicaClient * option (Res unit) :=
  match commands with
  | [] => ([], c, Some (Ok tt))
  | command :: rest =>
      match request fuel command c with
      | (ev, c1, Some (Ok _)) =>
          match request_each fuel rest c1 with
          | (ev2, c2, r) => (ev ++ ev2, c2, r)
          end
      | (ev, c1, Some (Raise e)) => (ev, c1, Some (Raise e))
      | (ev, c1, None) => (ev, c1, None)
      end
  end.

(** [range(20000)] *)
Definition rounds : nat := Z.to_nat 20000.

(** [replica_client(peer_id, replicas)]: a client is made and connected to
    a replica drawn at random ([rnd]), then sends 20000 commands one after
    the other, command [i] being [AbstractCommand(draw i)]; the bare
    [except] logs whatever ends this early.  The result is [true] when the
    function has returned, [false] when a [request] is still running after
    [fuel] turns.  The pause of half a second and the progress lines of the
    logger are left out. *)
Definition replica_client (fuel : nat) (pid : Z)
    (replicas : Dict) (rnd : nat) (draw : nat -> Z)
    : list Event * bool :=
  match connect env None rnd (ReplicaClient_init pid replicas) with
  | (ev1, rc, Raise e) => (ev1 ++ [ELogException e], true)
  | (ev1, rc, Ok _) =>
      match request_each fuel (List.map draw (List.seq 0 rounds)) rc with
      | (ev2, _, Some (Raise e)) => (ev1 ++ ev2 ++ [ELogException e], true)
      | (ev2, _, Some (Ok _)) => (ev1 ++ ev2, true)
      | (ev2, _, None) => (ev1 ++ ev2, false)
      end
  end.

End WithReply.

End Client.

(** * A small replica and a small world, to run the code on *)
Module Example.
Import Zmq.

(** A replica that counts its ticks and its checks of the timeouts,
    remembers the packets it was handed and how often its executor ran.  Handing it an empty packet fails as a
    command that cannot be decoded. *)
Record Toy := {
  toy_ticks : Z;
  toy_checked : nat;
  toy_seen : list Packet;
  toy_executed : nat;
  toy_jiffies : Z
}.

Definition toy : Server.Replica Toy :=
  {| Server.new_replica := fun c =>
       {| toy_ticks := 0; toy_checked := 0; toy_seen := [];
          toy_executed := 0; toy_jiffies := Server.a_number c |};
     Server.seconds_per_tick := fun r => 1 # 5;
     Server.ticks := toy_ticks;
     Server.jiffies := toy_jiffies;
     Server.replica_id := fun _ => 1%Z;
     Server.check_timeouts_minimum_wait := fun r =>
       if (toy_ticks r =? 0)%Z then None else Some (1 # 10);
     Server.tick := fun r =>
       Ok {| toy_ticks := toy_ticks r + 1; toy_checked := toy_checked r;
             toy_seen := toy_seen r;
             toy_executed := toy_executed r; toy_jiffies := toy_jiffies r |};
     Server.check_timeouts := fun r =>
       Ok {| toy_ticks := toy_ticks r;
             toy_checked := Datatypes.S (toy_checked r);
             toy_seen := toy_seen r;
             toy_executed := toy_executed r; toy_jiffies := toy_jiffies r |};
     Server.receive_packet := fun p r =>
       match p with
       | [] => Raise (ProtocolError CommandDecodeFailure)
       | _ =>
           Ok {| toy_ticks := toy_ticks r; toy_checked := toy_checked r;
                 toy_seen := toy_seen r ++ [p];
                 toy_executed := toy_executed r; toy_jiffies := toy_jiffies r |}
       end;
     Server.execute_pending := fun r =>
       Ok {| toy_ticks := toy_ticks r; toy_checked := toy_checked r;
             toy_seen := toy_seen r;
             toy_executed := Datatypes.S (toy_executed r);
             toy_jiffies := toy_jiffies r |} |}.

Definition pkt_a : Packet := [Byte.x61].
Definition pkt_b : Packet := [Byte.x62].
Definition id_2 : Packet := [Byte.x32].
Definition id_3 : Packet := [Byte.x33].

Definition replicas : Dict :=
  [ (1%Z, {| replica_addr := "tcp://0.0.0.0:60001" |});
    (2%Z, {| replica_addr := "tcp://0.0.0.0:60002" |});
    (3%Z, {| replica_addr := "tcp://0.0.0.0:60003" |}) ].

(** The same replicas, and one whose address is not an endpoint. *)
Definition replicas_and_stray : Dict :=
  replicas ++ [ (4%Z, {| replica_addr := "nonsense" |}) ].

(** The endpoints accepted in the examples: those of the tcp transport. *)
Definition tcp_only (a : string) : bool := String.prefix "tcp://" a.

(** The clock advances by 150 ms per reading; two messages reach the socket
    during the first poll, none later. *)
Definition env_two : Env :=
  {| clock := fun n => (Z.of_nat n * 15 # 100)%Q;
     arrivals := fun n =>
       match n with
       | O => [[id_2; pkt_a]; [id_3; pkt_b]]
       | _ => []
       end;
     accepts := tcp_only; binds := tcp_only |}.


(** As [env_two], but the second message carries an empty packet. *)
Definition env_bad_second : Env :=
  {| clock := fun n => (Z.of_nat n * 15 # 100)%Q;
     arrivals := fun n =>
       match n with
       | O => [[id_2; pkt_a]; [id_3; []]]
       | _ => []
       end;
     accepts := tcp_only; binds := tcp_only |}.

(** Nothing ever arrives. *)
Definition env_silent : Env :=
  {| clock := fun n => (Z.of_nat n * 15 # 100)%Q;
     arrivals := fun _ => [];
     accepts := tcp_only; binds := tcp_only |}.

(** A one-frame reply arrives during the third poll. *)
Definition env_reply : Env :=
  {| clock := fun n => (Z.of_nat n * 15 # 100)%Q;
     arrivals := fun n =>
       match n with
       | 2%nat => [[pkt_a]]
       | _ => []
       end;
     accepts := tcp_only; binds := tcp_only |}.

Definition toy_server : Server.ReplicaServer Toy :=
  {| Server.peer_addr := replicas;
     Server.socket := fresh_socket;
     Server.state_call := Server.ReplicaState_of 0 1 replicas;
     Server.replica := Server.new_replica toy (Server.ReplicaState_of 0 1 replicas) |}.

Definition start_locals : Server.Locals :=
  {| Server.last_tick_time := 0; Server.poll_delta := 0; Server.last_tick := 0 |}.

(** Locals of an iteration that starts a second after the last tick. *)
Definition late_locals : Server.Locals :=
  {| Server.last_tick_time := -1; Server.poll_delta := 0; Server.last_tick := 0 |}.

(** Locals of an iteration for which the status line is due. *)
Definition unprinted_locals : Server.Locals :=
  {| Server.last_tick_time := 0; Server.poll_delta := 0;
     Server.last_tick := -1 |}.

(** A reply and a second reply to the same request arrive together. *)
Definition env_twice : Env :=
  {| clock := fun n => (Z.of_nat n * 15 # 100)%Q;
     arrivals := fun n =>
       match n with
       | O => [[pkt_a]; [pkt_b]]
       | _ => []
       end;
     accepts := tcp_only; binds := tcp_only |}.

(** A reply of two frames. *)
Definition env_two_frames : Env :=
  {| clock := fun n => (Z.of_nat n * 15 # 100)%Q;
     arrivals := fun n =>
       match n with
       | O => [[pkt_a; pkt_b]]
       | _ => []
       end;
     accepts := tcp_only; binds := tcp_only |}.

(** [deserialize] for the examples: the packet itself; the empty packet does
    not decode. *)
Definition toy_deserialize (p : Packet) : Res Packet :=
  match p with
  | [] => Raise (ProtocolError CommandDecodeFailure)
  | _ => Ok p
  end.

Definition toy_client : Client.ReplicaClient :=
  Client.ReplicaClient_init 103 replicas.

(** A client given the stray entry as well. *)
Definition stray_client : Client.ReplicaClient :=
  Client.ReplicaClient_init 103 replicas_and_stray.

(** A server whose [peer_addr] has the stray entry. *)
Definition stray_server : Server.ReplicaServer Toy :=
  {| Server.peer_addr := replicas_and_stray;
     Server.socket := fresh_socket;
     Server.state_call := Server.ReplicaState_of 0 1 replicas_and_stray;
     Server.replica :=
       Server.new_replica toy (Server.ReplicaState_of 0 1 replicas_and_stray) |}.

(** The client once [connect(2)] has returned. *)
Definition connected_client : Client.ReplicaClient :=
  snd (fst (Client.connect env_silent (Some 2%Z) 0 toy_client)).

(** A client of a cluster whose first replica has the id 0. *)
Definition replicas_from_zero : Dict :=
  [ (0%Z, {| replica_addr := "tcp://0.0.0.0:60000" |});
    (1%Z, {| replica_addr := "tcp://0.0.0.0:60001" |}) ].

Definition zero_client : Client.ReplicaClient :=
  Client.ReplicaClient_init 103 replicas_from_zero.

End Example.

(** * Properties *)

(** ** peer.py *)
Module PeerFacts.
Import Peer.

Lemma Channel_method_names :
  List.map m_name Channel_methods =
  [ "__init__"; "pre_accept_request"; "accept_request"; "commit_request";
    "prepare_request"; "client_response"; "client_request";
    "pre_accept_response_ack"; "pre_accept_response_nack";
    "prepare_response_ack"; "prepare_response_nack" ].
Proof. reflexivity. Qed.

(** Every kind of the table but the two replies to Accept has exactly one
    handler in [Channel], with the kind's fields in the table's order. *)
Lemma Channel_well_handled (k : Kind) :
  k <> AcceptAck -> k <> AcceptNack -> well_handled Channel_methods k = true.
Proof. destruct k; intros H1 H2; try reflexivity; congruence. Qed.

Lemma Channel_request_orders :
  (exists m, handlers Channel_methods CommitRequest = [m] /\
     handler_fields m = ["slot"; "ballot"; "seq"; "command"; "deps"]) /\
  (exists m, handlers Channel_methods PreAcceptRequest = [m] /\
     handler_fields m = ["slot"; "ballot"; "command"; "seq"; "deps"]) /\
  (exists m, handlers Channel_methods AcceptRequest = [m] /\
     handler_fields m = ["slot"; "ballot"; "command"; "seq"; "deps"]).
Proof. repeat split; eexists; split; reflexivity. Qed.

(** C1 (the code at the kinds AcceptAck and AcceptNack).  [Channel] and its
    three bases declare no method for a reply to [accept_request]: the
    handlers of AcceptAck and of AcceptNack are both the empty list, and
    every method [Channel] has, [__init__] apart, is the handler of one of
    the ten other kinds; PreAccept and Prepare each have their
    [_response_ack] and [_response_nack], and [accept_request] is there. *)
Theorem Channel_lacks_accept_response_handlers :
  handlers Channel_methods AcceptAck = [] /\
  handlers Channel_methods AcceptNack = [] /\
  List.map kinds_of Channel_methods =
    [ []; [PreAcceptRequest]; [AcceptRequest]; [CommitRequest];
      [PrepareRequest]; [ClientResponse]; [ClientRequest]; [PreAcceptAck];
      [PreAcceptNack]; [PrepareAck]; [PrepareNack] ] /\
  well_handled Channel_methods AcceptAck = false /\
  well_handled Channel_methods AcceptNack = false /\
  List.length (handlers Channel_methods PreAcceptAck) = 1%nat /\
  List.length (handlers Channel_methods PreAcceptNack) = 1%nat /\
  List.length (handlers Channel_methods PrepareAck) = 1%nat /\
  List.length (handlers Channel_methods PrepareNack) = 1%nat /\
  List.length (handlers Channel_methods AcceptRequest) = 1%nat.
Proof. repeat split; reflexivity. Qed.

End PeerFacts.

(** ** Numbers and the monad *)
Module Basics.
Import Zmq.

Lemma Qltb_lt (x y : Q) : Qltb x y = true <-> (x < y)%Q.
Proof. unfold Qltb, Qlt. apply Z.ltb_lt. Qed.

Lemma Qltb_ge (x y : Q) : Qltb x y = false <-> (y <= x)%Q.
Proof. unfold Qltb, Qle. apply Z.ltb_ge. Qed.

Lemma truthy_nonzero (x : Q) : truthy x = true <-> ~ (x == 0)%Q.
Proof.
  unfold truthy, Qeq. simpl. rewrite Z.mul_1_r, negb_true_iff, Z.eqb_neq.
  reflexivity.
Qed.

(** [py_max] is a maximum and [py_min] a minimum, and each returns one of
    its arguments. *)
Lemma py_max_spec (a b : Q) :
  (a <= py_max a b)%Q /\ (b <= py_max a b)%Q /\
  (py_max a b = a \/ py_max a b = b).
Proof.
  unfold py_max. destruct (Qltb a b) eqn:E.
  - apply Qltb_lt in E. repeat split; [apply Qlt_le_weak, E | apply Qle_refl | now right].
  - apply Qltb_ge in E. repeat split; [apply Qle_refl | exact E | now left].
Qed.

Lemma py_min_spec (a b : Q) :
  (py_min a b <= a)%Q /\ (py_min a b <= b)%Q /\
  (py_min a b = a \/ py_min a b = b).
Proof.
  unfold py_min. destruct (Qltb b a) eqn:E.
  - apply Qltb_lt in E. repeat split; [apply Qlt_le_weak, E | apply Qle_refl | now right].
  - apply Qltb_ge in E. repeat split; [apply Qle_refl | exact E | now left].
Qed.

Lemma bind_ok {S A B} (m : M S A) (f : A -> M S B) s ev s1 a :
  m s = (ev, s1, Ok a) ->
  bind m f s =
  match f a s1 with (ev2, s2, r) => (ev ++ ev2, s2, r) end.
Proof. intros H. unfold bind. now rewrite H. Qed.

Lemma bind_raise {S A B} (m : M S A) (f : A -> M S B) s ev s1 e :
  m s = (ev, s1, Raise e) -> bind m f s = (ev, s1, Raise e).
Proof. intros H. unfold bind. now rewrite H. Qed.

End Basics.

(** ** ReplicaServer *)
Module ServerFacts.
Import Zmq Server Basics.

Lemma dispatched_app (a b : list Event) :
  dispatched (a ++ b) = dispatched a ++ dispatched b.
Proof. apply omap_app. Qed.

Lemma received_app (a b : list Event) :
  received (a ++ b) = received a ++ received b.
Proof. apply omap_app. Qed.

Lemma count_app f (a b : list Event) :
  count f (a ++ b) = (count f a + count f b)%nat.
Proof. unfold count. now rewrite List.filter_app, length_app. Qed.

Lemma dispatched_recvd ms : dispatched (List.map recvd ms) = [].
Proof. induction ms; simpl; auto. Qed.

Lemma received_recvd ms : received (List.map recvd ms) = ms.
Proof. induction ms; simpl; [|rewrite IHms]; auto. Qed.

Lemma dispatched_packets ps : dispatched (List.map EReceivePacket ps) = ps.
Proof. induction ps; simpl; [|rewrite IHps]; auto. Qed.

Lemma received_packets ps : received (List.map EReceivePacket ps) = [].
Proof. induction ps; simpl; auto. Qed.

Lemma count_recvd f ms :
  (forall m, f (recvd m) = false) -> count f (List.map recvd ms) = 0%nat.
Proof.
  intros H. unfold count. induction ms; simpl; auto. now rewrite H.
Qed.

Lemma count_packets f ps :
  (forall p, f (EReceivePacket p) = false) ->
  count f (List.map EReceivePacket ps) = 0%nat.
Proof.
  intros H. unfold count. induction ps; simpl; auto. now rewrite H.
Qed.

(** The receive loop reads the queue from its head: it stops with an
    [IndexError] at a message without frames, and otherwise empties the
    queue and returns the last frame of each message, in queue order. *)
Lemma drain_spec (q : list Multipart) (acc : list Packet) ev q' r :
  drain q acc = (ev, q', r) ->
  (exists ps, r = Ok (acc ++ ps) /\ q' = [] /\
              List.map Some ps = List.map last q /\
              ev = List.map recvd q ++ [ERecv true None]) \/
  (exists ms m, r = Raise IndexError /\ q = ms ++ m :: q' /\ last m = None /\
                ev = List.map recvd (ms ++ [m])).
Proof.
  revert acc ev q' r. induction q as [|m q IH]; intros acc ev q' r H; simpl in H.
  - inversion H; subst. left. exists []. rewrite app_nil_r. auto.
  - unfold last_item in H. destruct (last m) as [p|] eqn:Hm.
    + destruct (drain q (acc ++ [p])) as [[ev1 q1] r1] eqn:Hd.
      inversion H; subst. apply IH in Hd as [(ps & -> & -> & Hps & ->) | (ms & m' & -> & -> & Hl & ->)].
      * left. exists (p :: ps). rewrite <- app_assoc. simpl.
        rewrite Hps, Hm. auto.
      * right. exists (m :: ms), m'. auto.
    + inversion H; subst. right. exists [], m. auto.
Qed.

Section WithReplica.
Context {R : Type} (ops : Replica R) (env : Env).

Abbreviation S := (ReplicaServer R).

(** The bookkeeping of the status line neither polls, ticks, dispatches nor
    executes. *)
Lemma report_spec (l : Locals) (s : S) ev s' r :
  report ops env l s = (ev, s', r) ->
  replica s' = replica s /\ inbound (socket s') = inbound (socket s) /\
  n_poll (socket s') = n_poll (socket s) /\
  (ev = [] \/ exists t, ev = [ENow; EPrint t]).
Proof.
  unfold report, read, bind, ret, raise, emit, now. simpl.
  destruct (ticks ops (replica s) =? last_tick l)%Z.
  { intros H; inversion H; subst; auto. }
  destruct (jiffies ops (replica s) * 30 =? 0)%Z.
  { intros H; inversion H; subst; auto. }
  destruct (ticks ops (replica s) mod (jiffies ops (replica s) * 30) =? 0)%Z.
  - intros H; inversion H; subst; simpl. eauto 6.
  - intros H; inversion H; subst; auto.
Qed.

(** Dispatching a batch hands the packets to [receive_packet] from the
    first on, and stops at the first one whose handling raises. *)
Lemma dispatch_spec (ps : list Packet) (s : S) ev s' r :
  dispatch ops ps s = (ev, s', r) ->
  socket s' = socket s /\
  ((r = Ok tt /\ ev = List.map EReceivePacket ps) \/
   (exists e pre p post, r = Raise e /\ ps = pre ++ p :: post /\
      ev = List.map EReceivePacket (pre ++ [p]))).
Proof.
  revert s ev s' r. induction ps as [|p ps IH]; intros s ev s' r H.
  - inversion H; subst. auto.
  - unfold dispatch in H. simpl in H. unfold bind at 1 in H.
    unfold call at 1 in H.
    destruct (receive_packet ops p (replica s)) as [r1|e] eqn:Hp.
    + fold (dispatch ops ps) in H.
      destruct (dispatch ops ps (set_replica r1 s)) as [[ev1 s1] r2] eqn:Hd.
      inversion H; subst. apply IH in Hd as [Hs Hd]. split; [exact Hs|].
      destruct Hd as [[-> ->] | (e & pre & p' & post & -> & -> & ->)].
      * now left.
      * right. exists e, (p :: pre), p', post. auto.
    + inversion H; subst. split; [reflexivity|].
      right. exists e, [], p, ps. auto.
Qed.

Lemma recv_all_spec (s : S) ev s' r :
  recv_all s = (ev, s', r) ->
  replica s' = replica s /\ n_poll (socket s') = n_poll (socket s) /\
  n_now (socket s') = n_now (socket s) /\
  ((exists ps, r = Ok ps /\ inbound (socket s') = [] /\
      List.map Some ps = List.map last (inbound (socket s)) /\
      ev = List.map recvd (inbound (socket s)) ++ [ERecv true None]) \/
   (exists ms m rest, r = Raise IndexError /\
      inbound (socket s) = ms ++ m :: rest /\ last m = None /\
      ev = List.map recvd (ms ++ [m]))).
Proof.
  unfold recv_all. destruct (drain (inbound (socket s)) []) as [[ev1 q1] r1] eqn:Hd.
  intros H; inversion H; subst; simpl. repeat split.
  apply drain_spec in Hd as [(ps & -> & -> & Hps & ->) | (ms & m & -> & Hq & Hl & ->)].
  - left. exists ps. auto.
  - right. exists ms, m, q1. auto.
Qed.

Lemma receive_block_spec (b : bool) (s : S) ev s' r :
  receive_block ops b s = (ev, s', r) ->
  n_poll (socket s') = n_poll (socket s) /\
  n_now (socket s') = n_now (socket s) /\
  if b then receive_trace (inbound (socket s)) ev r
  else ev = [] /\ s' = s /\ r = Ok tt.
Proof.
  destruct b; simpl.
  2:{ intros H; inversion H; subst; auto. }
  unfold bind at 1. destruct (recv_all s) as [[ev1 s1] r1] eqn:Hr.
  apply recv_all_spec in Hr as (Hrep & Hnp & Hnn & Hr).
  destruct Hr as [(ps & -> & Hin & Hps & ->) | (ms & m & rest & -> & Hq & Hl & ->)].
  2:{ intros H; inversion H; subst. repeat split; auto.
      eapply rt_no_frame; eauto. }
  unfold bind at 1. destruct (dispatch ops ps s1) as [[ev2 s2] r2] eqn:Hd.
  apply dispatch_spec in Hd as [Hs Hd].
  destruct Hd as [[-> ->] | (e & pre & p & post & -> & -> & ->)].
  2:{ intros H; inversion H; subst. rewrite Hs. repeat split; auto.
      rewrite <- app_assoc. eapply rt_handler_raises; eauto. }
  destruct ps as [|p ps]; simpl.
  - intros H; inversion H; subst. rewrite Hs. repeat split; auto.
    destruct (inbound (socket s)); [|discriminate]. simpl.
    now apply rt_empty.
  - unfold call.
    assert (Hb : receive_trace (inbound (socket s))
               (List.map recvd (inbound (socket s)) ++ [ERecv true None] ++
                List.map EReceivePacket (p :: ps) ++ [EExecutePending]) r).
    { apply rt_batch; [exact Hps | discriminate]. }
    destruct (execute_pending ops (replica s2)); intros H; inversion H; subst;
      simpl; rewrite ?Hs; repeat split; auto;
      rewrite <- ?app_assoc; simpl; exact Hb.
Qed.

Lemma tick_block_spec (l : Locals) (delta : Q) (s : S) ev s' r :
  tick_block ops env l delta s = (ev, s', r) ->
  inbound (socket s') = inbound (socket s) /\
  n_poll (socket s') = n_poll (socket s) /\
  if Qltb (seconds_per_tick ops (replica s)) delta then
    tick_trace ops (replica s) ev /\
    (forall t, r = Ok t -> ev = [ETick; ECheckTimeouts; ENow])
  else ev = [] /\ s' = s /\ r = Ok (last_tick_time l).
Proof.
  unfold tick_block, bind at 1, read. simpl.
  destruct (Qltb (seconds_per_tick ops (replica s)) delta).
  2:{ intros H; inversion H; subst; auto. }
  unfold bind at 1, call at 1.
  destruct (tick ops (replica s)) as [r1|e] eqn:Ht.
  2:{ intros H; inversion H; subst. repeat split; auto.
      - eapply tt_tick_raises; eauto.
      - discriminate. }
  unfold bind at 1, call at 1. simpl.
  destruct (check_timeouts ops r1) as [r2|e] eqn:Hc.
  2:{ intros H; inversion H; subst. repeat split; auto.
      - eapply tt_check_raises; eauto.
      - discriminate. }
  unfold now. intros H; inversion H; subst; simpl. repeat split; auto.
  eapply tt_done; eauto.
Qed.

Lemma wait_block_run (l : Locals) (s : S) :
  wait_block ops env l s =
  ([EMinimumWait; EPoll (wait_of ops l s * 1000); ENow],
   set_socket
     {| inbound := queue_after_poll env s;
        endpoints := endpoints (socket s);
        n_now := Datatypes.S (n_now (socket s));
        n_poll := Datatypes.S (n_poll (socket s)) |} s,
   Ok (match queue_after_poll env s with [] => false | _ => true end,
       elapsed env l s)).
Proof. reflexivity. Qed.

(** The trace of an iteration, whatever its outcome: the wait, the poll and
    the clock reading, then what lines 94-97 did, then what lines 101-116
    did, then the status line. *)
Lemma main_iter_spec (l : Locals) (s : S) ev s' r :
  main_iter ops env l s = (ev, s', r) ->
  exists evt evr evp rr,
    ev = [EMinimumWait; EPoll (wait_of ops l s * 1000); ENow]
           ++ evt ++ evr ++ evp /\
    (if Qltb (seconds_per_tick ops (replica s)) (elapsed env l s)
     then tick_trace ops (replica s) evt else evt = []) /\
    (evr = [] \/
     (queue_after_poll env s <> [] /\
      receive_trace (queue_after_poll env s) evr rr)) /\
    (evp = [] \/ exists t, evp = [ENow; EPrint t]) /\
    n_poll (socket s') = Datatypes.S (n_poll (socket s)) /\
    (forall l', r = Ok l' ->
       poll_delta l' = elapsed env l s /\
       (Qltb (seconds_per_tick ops (replica s)) (elapsed env l s) = true ->
        evt = [ETick; ECheckTimeouts; ENow]) /\
       (queue_after_poll env s = [] -> evr = []) /\
       (queue_after_poll env s <> [] ->
        receive_trace (queue_after_poll env s) evr (Ok tt))).
Proof.
  unfold main_iter. intros H.
  rewrite (bind_ok _ _ _ _ _ _ (wait_block_run l s)) in H. cbn [fst snd] in H.
  match type of H with context [bind _ _ ?x] => set (s1 := x) in * end.
  assert (Hrep1 : replica s1 = replica s) by reflexivity.
  assert (Hin1 : inbound (socket s1) = queue_after_poll env s) by reflexivity.
  assert (Hnp1 : n_poll (socket s1) = Datatypes.S (n_poll (socket s))) by reflexivity.
  clearbody s1.
  unfold bind at 1 in H.
  destruct (tick_block ops env l (elapsed env l s) s1) as [[evt s2] rt] eqn:Ht.
  apply tick_block_spec in Ht as (Hin2 & Hnp2 & Ht). rewrite Hrep1 in Ht.
  destruct rt as [ltt|e].
  2:{ inversion H; subst. exists evt, [], [], (Ok tt).
      rewrite !app_nil_r. repeat split; auto; try discriminate;
        try congruence. destruct (Qltb _ _); tauto. }
  unfold bind at 1 in H.
  destruct (receive_block ops _ s2) as [[evr s3] rr] eqn:Hr.
  apply receive_block_spec in Hr as (Hnp3 & _ & Hr).
  rewrite Hin2, Hin1 in Hr.
  assert (Hevt : if Qltb (seconds_per_tick ops (replica s)) (elapsed env l s)
                 then tick_trace ops (replica s) evt else evt = []).
  { destruct (Qltb _ _); tauto. }
  assert (Hevt' : Qltb (seconds_per_tick ops (replica s)) (elapsed env l s) = true ->
                  evt = [ETick; ECheckTimeouts; ENow]).
  { intros E. rewrite E in Ht. destruct Ht as [_ Ht]. eauto. }
  assert (Hevr : evr = [] \/
     (queue_after_poll env s <> [] /\
      receive_trace (queue_after_poll env s) evr rr)).
  { destruct (queue_after_poll env s); [left; tauto | right; split; [discriminate | exact Hr]]. }
  destruct rr as [[]|e].
  2:{ inversion H; subst. exists evt, evr, [], (Raise e).
      rewrite !app_nil_r. repeat split; auto; try discriminate. congruence. }
  unfold bind at 1 in H.
  destruct (report ops env l s3) as [[evp s4] rp] eqn:Hp.
  apply report_spec in Hp as (_ & _ & Hnp4 & Hp).
  exists evt, evr, evp, (Ok tt).
  assert (Hnp : n_poll (socket s4) = Datatypes.S (n_poll (socket s))) by congruence.
  destruct rp as [lt|e]; inversion H; subst; rewrite ?app_nil_r;
    repeat split; auto; try discriminate;
    try (intros; destruct (queue_after_poll env s); tauto);
    try (intros; destruct (queue_after_poll env s); [congruence | exact Hr]);
    try (intros; match goal with Hl : Ok _ = Ok _ |- _ =>
                   inversion Hl; subst; reflexivity end).
Qed.

Lemma Forall_quiet_recvd ms : Forall quiet (List.map recvd ms).
Proof. induction ms; simpl; constructor; auto. split; reflexivity. Qed.

Lemma Forall_quiet_packets ps : Forall quiet (List.map EReceivePacket ps).
Proof. induction ps; simpl; constructor; auto. split; reflexivity. Qed.

Lemma tick_trace_quiet r0 evt : tick_trace ops r0 evt -> Forall quiet evt.
Proof. intros H; inversion H; subst; repeat constructor. Qed.

Lemma receive_trace_quiet q evr rr : receive_trace q evr rr -> Forall quiet evr.
Proof.
  intros H; inversion H; subst;
    rewrite ?Forall_app; repeat split;
    auto using Forall_quiet_recvd, Forall_quiet_packets;
    repeat constructor.
Qed.

Lemma count_quiet f (ev : list Event) :
  (forall e, quiet e -> f e = false) -> Forall quiet ev -> count f ev = 0%nat.
Proof.
  intros Hf H. unfold count. induction H as [|e ev He _ IH]; simpl; auto.
  now rewrite (Hf e He).
Qed.

Lemma count_none f (P : Event -> Prop) (ev : list Event) :
  (forall e, P e -> f e = false) -> Forall P ev -> count f ev = 0%nat.
Proof.
  intros Hf H. unfold count. induction H as [|e ev He _ IH]; simpl; auto.
  now rewrite (Hf e He).
Qed.

Lemma receive_trace_receiving q evr rr :
  receive_trace q evr rr -> Forall receiving evr.
Proof.
  assert (H1 : forall ms, Forall receiving (List.map recvd ms))
    by (induction ms; simpl; constructor; simpl; auto).
  assert (H2 : forall ps, Forall receiving (List.map EReceivePacket ps))
    by (induction ps; simpl; constructor; simpl; auto).
  intros H; inversion H; subst; rewrite ?Forall_app; repeat split; auto;
    repeat constructor.
Qed.

Lemma call_ticks (e : Event) (f : R -> Res R) (s : S) ev s' r :
  (forall r0 r1, f r0 = Ok r1 -> ticks ops r1 = ticks ops r0) ->
  call e f s = (ev, s', r) ->
  ticks ops (replica s') = ticks ops (replica s).
Proof.
  intros Hf. unfold call. destruct (f (replica s)) eqn:E;
    intros H; inversion H; subst; simpl; eauto.
Qed.

Lemma dispatch_ticks (ps : list Packet) (s : S) ev s' r :
  (forall p r0 r1, receive_packet ops p r0 = Ok r1 ->
                   ticks ops r1 = ticks ops r0) ->
  dispatch ops ps s = (ev, s', r) ->
  ticks ops (replica s') = ticks ops (replica s).
Proof.
  intros Hf. revert s ev s' r. induction ps as [|p ps IH]; intros s ev s' r H.
  - inversion H; subst. reflexivity.
  - unfold dispatch in H. simpl in H. unfold bind at 1 in H.
    destruct (call (EReceivePacket p) (receive_packet ops p) s)
      as [[ev1 s1] r1] eqn:Hc.
    apply call_ticks in Hc; [|apply Hf]. fold (dispatch ops ps) in H.
    destruct r1 as [[]|e].
    + destruct (dispatch ops ps s1) as [[ev2 s2] r2] eqn:Hd.
      inversion H; subst. apply IH in Hd. congruence.
    + inversion H; subst. exact Hc.
Qed.

Lemma receive_block_ticks (b : bool) (s : S) ev s' r :
  (forall p r0 r1, receive_packet ops p r0 = Ok r1 ->
                   ticks ops r1 = ticks ops r0) ->
  (forall r0 r1, execute_pending ops r0 = Ok r1 ->
                 ticks ops r1 = ticks ops r0) ->
  receive_block ops b s = (ev, s', r) ->
  ticks ops (replica s') = ticks ops (replica s).
Proof.
  intros Hp He. destruct b; simpl.
  2:{ intros H; inversion H; subst; reflexivity. }
  unfold bind at 1. destruct (recv_all s) as [[ev1 s1] r1] eqn:Hr.
  apply recv_all_spec in Hr as (Hrep & _).
  destruct r1 as [ps|e].
  2:{ intros H; inversion H; subst. now rewrite Hrep. }
  unfold bind at 1. destruct (dispatch ops ps s1) as [[ev2 s2] r2] eqn:Hd.
  apply dispatch_ticks in Hd; [|exact Hp].
  destruct r2 as [[]|e].
  2:{ intros H; inversion H; subst. congruence. }
  destruct (0 <? length ps)%nat.
  - destruct (call EExecutePending (execute_pending ops) s2)
      as [[ev3 s3] r3] eqn:Hc.
    apply call_ticks in Hc; [|exact He].
    intros H; inversion H; subst. congruence.
  - intros H; inversion H; subst. congruence.
Qed.

(** An iteration that does not tick leaves [state.ticks] as it was, as long
    as handling a packet and running the executor do. *)
Lemma main_iter_ticks (l : Locals) (s : S) ev s' r :
  (forall p r0 r1, receive_packet ops p r0 = Ok r1 ->
                   ticks ops r1 = ticks ops r0) ->
  (forall r0 r1, execute_pending ops r0 = Ok r1 ->
                 ticks ops r1 = ticks ops r0) ->
  Qltb (seconds_per_tick ops (replica s)) (elapsed env l s) = false ->
  main_iter ops env l s = (ev, s', r) ->
  ticks ops (replica s') = ticks ops (replica s).
Proof.
  intros Hp He Hq. unfold main_iter. intros H.
  rewrite (bind_ok _ _ _ _ _ _ (wait_block_run l s)) in H. cbn [fst snd] in H.
  match type of H with context [bind _ _ ?x] => set (s1 := x) in * end.
  assert (Hrep1 : replica s1 = replica s) by reflexivity.
  clearbody s1.
  unfold bind at 1 in H.
  destruct (tick_block ops env l (elapsed env l s) s1) as [[evt s2] rt] eqn:Ht.
  apply tick_block_spec in Ht as (_ & _ & Ht). rewrite Hrep1, Hq in Ht.
  destruct Ht as (-> & -> & ->).
  unfold bind at 1 in H.
  destruct (receive_block ops _ s1) as [[evr s3] rr] eqn:Hr.
  apply receive_block_ticks in Hr; auto.
  destruct rr as [[]|e].
  2:{ inversion H; subst. congruence. }
  unfold bind at 1 in H.
  destruct (report ops env l s3) as [[evp s4] rp] eqn:Hrp.
  apply report_spec in Hrp as (Hrep4 & _).
  destruct rp; inversion H; subst; congruence.
Qed.

Lemma tick_trace_silent r0 evt :
  tick_trace ops r0 evt ->
  dispatched evt = [] /\ received evt = [] /\ count is_execute evt = 0%nat.
Proof. intros H; inversion H; subst; repeat split. Qed.

Lemma receive_trace_nonempty q evr rr : receive_trace q evr rr -> evr <> [].
Proof.
  intros H; inversion H; subst; try discriminate;
    try (destruct q; discriminate).
  rewrite List.map_app. destruct (List.map recvd ms); discriminate.
Qed.

Lemma receive_trace_order q evr rr :
  receive_trace q evr rr ->
  received evr `prefix_of` q /\
  List.map Some (dispatched evr) `prefix_of` List.map last (received evr) /\
  (exists a b, evr = a ++ b /\ dispatched a = [] /\ received b = []) /\
  (rr = Ok tt ->
   received evr = q /\ List.map Some (dispatched evr) = List.map last q).
Proof.
  intros H; inversion H; subst.
  - rewrite received_recvd, dispatched_recvd.
    split; [|split; [|split]].
    + exists rest. now rewrite <- app_assoc.
    + apply prefix_nil.
    + exists (List.map recvd (ms ++ [m])), []. rewrite app_nil_r.
      now rewrite dispatched_recvd.
    + discriminate.
  - rewrite !received_app, !dispatched_app, received_recvd, dispatched_recvd,
      received_packets, dispatched_packets. simpl. rewrite app_nil_r.
    split; [|split; [|split]].
    + reflexivity.
    + rewrite <- H0, !List.map_app. simpl. exists (List.map Some post).
      now rewrite <- app_assoc.
    + exists (List.map recvd q ++ [ERecv true None]),
             (List.map EReceivePacket (pre ++ [p])).
      rewrite dispatched_app, dispatched_recvd, received_packets.
      rewrite <- app_assoc. auto.
    + discriminate.
  - simpl. split; [|split; [|split]].
    + apply prefix_nil.
    + apply prefix_nil.
    + exists [ERecv true None], []. auto.
    + auto.
  - rewrite !received_app, !dispatched_app, received_recvd, dispatched_recvd,
      received_packets, dispatched_packets. simpl. rewrite !app_nil_r.
    split; [|split; [|split]].
    + reflexivity.
    + rewrite H0. reflexivity.
    + exists (List.map recvd q ++ [ERecv true None]),
             (List.map EReceivePacket ps ++ [EExecutePending]).
      rewrite dispatched_app, dispatched_recvd, received_app, received_packets.
      rewrite <- app_assoc. auto.
    + auto.
Qed.

(** An iteration in which nothing raises is followed by the next one. *)
Lemma main_loop_continues (l : Locals) (s : S) ev s1 l1 fuel :
  main_iter ops env l s = (ev, s1, Ok l1) ->
  main_loop ops env (Datatypes.S fuel) l s =
  (ev ++ fst (fst (main_loop ops env fuel l1 s1)),
   snd (fst (main_loop ops env fuel l1 s1)),
   snd (main_loop ops env fuel l1 s1)).
Proof.
  intros H. simpl. rewrite H.
  destruct (main_loop ops env fuel l1 s1) as [[ev2 s2] r2]. reflexivity.
Qed.

(** *** What an iteration makes of the replica *)

Lemma spec_receive_raise (ps : list Packet) (e : exn) :
  fold_left (fun acc p => and_then acc (receive_packet ops p)) ps (Raise e)
  = Raise e.
Proof. induction ps as [|p ps IH]; simpl; auto. Qed.

Lemma spec_receive_cons (p : Packet) (ps : list Packet) (r : R) :
  spec_receive ops (p :: ps) r =
  and_then (receive_packet ops p r) (spec_receive ops ps).
Proof.
  unfold spec_receive. simpl.
  destruct (receive_packet ops p r); simpl; [reflexivity|].
  apply spec_receive_raise.
Qed.


(** The loop over the batch applies [receive_packet] to the packets in the
    order of the batch, each call on the state the one before left; at the
    first call that raises it stops. *)
Lemma dispatch_run (ps : list Packet) :
  forall (s : S) ev s' r,
    dispatch ops ps s = (ev, s', r) ->
    socket s' = socket s /\
    match r with
    | Ok _ =>
        ev = List.map EReceivePacket ps /\
        spec_receive ops ps (replica s) = Ok (replica s')
    | Raise e =>
        spec_receive ops ps (replica s) = Raise e /\
        exists pre p post rp,
          ps = pre ++ p :: post /\
          ev = List.map EReceivePacket (pre ++ [p]) /\
          spec_receive ops pre (replica s) = Ok rp /\
          receive_packet ops p rp = Raise e
    end.
Proof.
  induction ps as [|p ps IH]; intros s ev s' r H.
  - inversion H; subst. split; [reflexivity|]. split; reflexivity.
  - unfold dispatch in H. simpl in H. unfold bind at 1 in H.
    unfold call at 1 in H. rewrite spec_receive_cons.
    destruct (receive_packet ops p (replica s)) as [r1|e] eqn:Hp.
    + fold (dispatch ops ps) in H.
      destruct (dispatch ops ps (set_replica r1 s)) as [[ev1 s1] r2] eqn:Hd.
      inversion H; subst ev s' r. clear H.
      apply IH in Hd as [Hs Hd]. split; [exact Hs|].
      cbn [and_then]. cbn [replica set_replica] in Hd.
      destruct r2 as [[]|e].
      * destruct Hd as [-> Hd]. split; [reflexivity | exact Hd].
      * destruct Hd as (Hr & pre & p' & post & rp & -> & -> & Hpre & Hp').
        split; [exact Hr|].
        exists (p :: pre), p', post, rp. repeat split; auto.
        rewrite spec_receive_cons, Hp. exact Hpre.
    + inversion H; subst ev s' r. clear H. split; [reflexivity|].
      split; [reflexivity|].
      exists [], p, ps, (replica s). repeat split; auto.
Qed.

(** Lines 94-97: when a tick is due, [tick()] and then [check_timeouts()]
    are applied to the replica and the clock is read; otherwise nothing
    is. *)
Lemma tick_block_run (l : Locals) (delta : Q) (s : S) ev s' r :
  tick_block ops env l delta s = (ev, s', r) ->
  let due := Qltb (seconds_per_tick ops (replica s)) delta in
  inbound (socket s') = inbound (socket s) /\
  n_poll (socket s') = n_poll (socket s) /\
  match spec_tick ops due (replica s) with
  | Ok r1 =>
      replica s' = r1 /\
      r = Ok (if due then clock env (n_now (socket s))
              else last_tick_time l) /\
      ev = (if due then [ETick; ECheckTimeouts; ENow] else []) /\
      n_now (socket s') =
        (if due then Datatypes.S (n_now (socket s)) else n_now (socket s))
  | Raise e =>
      r = Raise e /\
      match tick ops (replica s) with
      | Ok _ => ev = [ETick; ECheckTimeouts]
      | Raise _ => ev = [ETick]
      end
  end.
Proof.
  unfold tick_block, bind at 1, read, spec_tick. simpl.
  destruct (Qltb (seconds_per_tick ops (replica s)) delta).
  2:{ intros H; inversion H; subst; auto 10. }
  unfold bind at 1, call at 1.
  destruct (tick ops (replica s)) as [r1|e] eqn:Ht; cbn [and_then].
  2:{ intros H; inversion H; subst. auto. }
  unfold bind at 1, call at 1. simpl.
  destruct (check_timeouts ops r1) as [r2|e] eqn:Hc.
  2:{ intros H; inversion H; subst. auto. }
  unfold now. intros H; inversion H; subst; simpl. auto 10.
Qed.

(** Lines 101-116, started with the queue as the poll left it. *)
Lemma receive_block_run (s : S) ev s' r :
  let q := inbound (socket s) in
  receive_block ops (match q with [] => false | _ => true end) s
    = (ev, s', r) ->
  n_poll (socket s') = n_poll (socket s) /\
  n_now (socket s') = n_now (socket s) /\
  ((exists ms m rest,
      q = ms ++ m :: rest /\ last m = None /\
      r = Raise IndexError /\ ev = List.map recvd (ms ++ [m])) \/
   (exists ps,
      List.map Some ps = List.map last q /\
      let evq := match q with
                 | [] => []
                 | _ => List.map recvd q ++ [ERecv true None]
                 end in
      match spec_receive ops ps (replica s) with
      | Raise e =>
          r = Raise e /\
          exists pre p post rp,
            ps = pre ++ p :: post /\
            spec_receive ops pre (replica s) = Ok rp /\
            receive_packet ops p rp = Raise e /\
            ev = evq ++ List.map EReceivePacket (pre ++ [p])
      | Ok r2 =>
          match spec_execute ops ps r2 with
          | Raise e =>
              r = Raise e /\
              ev = evq ++ List.map EReceivePacket ps ++ [EExecutePending]
          | Ok r3 =>
              r = Ok tt /\ replica s' = r3 /\
              ev = evq ++ List.map EReceivePacket ps
                     ++ match ps with [] => [] | _ => [EExecutePending] end
          end
      end)).
Proof.
  intros q. destruct q as [|m0 q0] eqn:Eq; subst q.
  - cbn [receive_block ret]. intros H; inversion H; subst.
    split; [reflexivity|]. split; [reflexivity|]. right. exists [].
    split; [reflexivity|]. cbn. auto.
  - cbn [receive_block]. unfold bind at 1.
    destruct (recv_all s) as [[ev1 s1] r1] eqn:Hr.
    unfold recv_all in Hr.
    destruct (drain (inbound (socket s)) []) as [[evd qd] rd] eqn:Hd.
    inversion Hr; subst ev1 s1 r1. clear Hr.
    apply drain_spec in Hd
      as [(ps & -> & -> & Hps & ->) | (ms & m & -> & Hq & Hl & ->)].
    2:{ intros H; inversion H; subst. cbn. split; [reflexivity|].
        split; [reflexivity|]. left. exists ms, m, qd.
        rewrite <- Eq. repeat split; auto. }
    cbn [app]. unfold bind at 1.
    match goal with |- context [dispatch ops ps ?x] => set (s1 := x) end.
    destruct (dispatch ops ps s1) as [[ev2 s2] r2] eqn:Hdi.
    apply dispatch_run in Hdi as [Hs Hdi].
    change (replica s1) with (replica s) in Hdi.
    rewrite Eq in Hps.
    destruct r2 as [[]|e].
    2:{ destruct Hdi as (Hr & pre & p & post & rp & -> & -> & Hpre & Hp).
        intros H; inversion H; subst ev s' r. rewrite Hs. cbn.
        split; [reflexivity|]. split; [reflexivity|]. right.
        exists (pre ++ p :: post). split; [exact Hps|]. cbv zeta.
        rewrite Hr. split; [reflexivity|].
        exists pre, p, post, rp. rewrite Eq.
        split; [reflexivity|]. split; [exact Hpre|]. split; [exact Hp|].
        cbn [List.map app]. now rewrite <- !app_assoc. }
    destruct Hdi as [-> Hdi].
    destruct ps as [|p ps]; [discriminate Hps|].
    cbn [length Nat.ltb Nat.leb]. unfold call.
    destruct (execute_pending ops (replica s2)) as [r3|e] eqn:Hx;
      intros H; inversion H; subst ev s' r; cbn [socket set_replica];
      rewrite ?Hs; cbn [socket set_socket s1 n_poll n_now];
      (split; [reflexivity|]); (split; [reflexivity|]); right;
      exists (p :: ps); (split; [exact Hps|]); cbv zeta;
      rewrite Hdi; cbn [spec_execute]; rewrite Hx, Eq;
      repeat split; cbn [List.map app]; now rewrite <- !app_assoc.
Qed.

(** What the status line leaves of an iteration: [ZeroDivisionError], or
    the new [last_tick]. *)
Lemma report_run (l : Locals) (s : S) ev s' r :
  report ops env l s = (ev, s', r) ->
  replica s' = replica s /\ n_poll (socket s') = n_poll (socket s) /\
  ((r = Raise ZeroDivisionError /\ ev = []) \/
   (exists lt, r = Ok lt /\ (ev = [] \/ exists t, ev = [ENow; EPrint t]))).
Proof.
  intros H. pose proof (report_spec l s ev s' r H) as (H1 & _ & H2 & H3).
  split; [exact H1|]. split; [exact H2|].
  destruct r as [lt|e]; [right; eauto|]. left.
  revert H. unfold report, read, bind, ret, raise, emit, now. simpl.
  destruct (ticks ops (replica s) =? last_tick l)%Z.
  { intros H; inversion H. }
  destruct (jiffies ops (replica s) * 30 =? 0)%Z.
  { intros H; inversion H; subst; auto. }
  destruct (ticks ops (replica s) mod (jiffies ops (replica s) * 30) =? 0)%Z;
    intros H; inversion H.
Qed.

(** An iteration of [main], outcome by outcome: what it did to the world
    and what it made of the replica, against the steps of the
    specification. *)
Lemma main_iter_run (l : Locals) (s : S) ev s' r :
  main_iter ops env l s = (ev, s', r) ->
  let q := queue_after_poll env s in
  let due := tick_due ops env l s in
  let hd := [EMinimumWait; EPoll (wait_of ops l s * 1000); ENow] in
  let evt := if due then [ETick; ECheckTimeouts; ENow] else [] in
  let evq := match q with
             | [] => []
             | _ => List.map recvd q ++ [ERecv true None]
             end in
  n_poll (socket s') = Datatypes.S (n_poll (socket s)) /\
  match spec_tick ops due (replica s) with
  | Raise e =>
      r = Raise e /\
      ev = hd ++ match tick ops (replica s) with
                 | Ok _ => [ETick; ECheckTimeouts]
                 | Raise _ => [ETick]
                 end
  | Ok r1 =>
      (exists ms m rest,
         q = ms ++ m :: rest /\ last m = None /\
         r = Raise IndexError /\
         ev = hd ++ evt ++ List.map recvd (ms ++ [m])) \/
      (exists ps,
         List.map Some ps = List.map last q /\
         match spec_receive ops ps r1 with
         | Raise e =>
             r = Raise e /\
             exists pre p post rp,
               ps = pre ++ p :: post /\
               spec_receive ops pre r1 = Ok rp /\
               receive_packet ops p rp = Raise e /\
               ev = hd ++ evt ++ evq ++ List.map EReceivePacket (pre ++ [p])
         | Ok r2 =>
             match spec_execute ops ps r2 with
             | Raise e =>
                 r = Raise e /\
                 ev = hd ++ evt ++ evq ++ List.map EReceivePacket ps
                        ++ [EExecutePending]
             | Ok r3 =>
                 replica s' = r3 /\
                 exists evp,
                   ev = hd ++ evt ++ evq ++ List.map EReceivePacket ps
                          ++ match ps with [] => [] | _ => [EExecutePending] end
                          ++ evp /\
                   ((r = Raise ZeroDivisionError /\ evp = []) \/
                    (exists l',
                       r = Ok l' /\
                       (evp = [] \/ exists t, evp = [ENow; EPrint t]) /\
                       poll_delta l' = elapsed env l s /\
                       last_tick_time l' =
                         if due then clock env (Datatypes.S (n_now (socket s)))
                         else last_tick_time l))
             end
         end)
  end.
Proof.
  intros H q due hd evt evq. unfold main_iter in H.
  rewrite (bind_ok _ _ _ _ _ _ (wait_block_run l s)) in H. cbn [fst snd] in H.
  match type of H with context [bind _ _ ?x] => set (s1 := x) in * end.
  assert (Hrep1 : replica s1 = replica s) by reflexivity.
  assert (Hin1 : inbound (socket s1) = q) by reflexivity.
  assert (Hnp1 : n_poll (socket s1) = Datatypes.S (n_poll (socket s)))
    by reflexivity.
  assert (Hnn1 : n_now (socket s1) = Datatypes.S (n_now (socket s)))
    by reflexivity.
  clearbody s1. fold q in H.
  unfold bind at 1 in H.
  destruct (tick_block ops env l (elapsed env l s) s1) as [[ev2 s2] rt] eqn:Ht.
  apply tick_block_run in Ht. cbv zeta in Ht.
  rewrite Hrep1, Hnn1 in Ht. fold (tick_due ops env l s) in Ht. fold due in Ht.
  destruct Ht as (Hin2 & Hnp2 & Ht).
  destruct (spec_tick ops due (replica s)) as [r1|e] eqn:Hst.
  2:{ destruct Ht as [-> Hev]. inversion H; subst ev s' r.
      split; [congruence|]. split; [reflexivity|].
      destruct (tick ops (replica s)); subst ev2; reflexivity. }
  destruct Ht as (Hrep2 & -> & Hev2 & Hnn2). fold evt in Hev2. subst ev2.
  unfold bind at 1 in H.
  rewrite <- Hin1, <- Hin2 in H.
  destruct (receive_block ops _ s2) as [[ev3 s3] rr] eqn:Hr.
  apply receive_block_run in Hr as (Hnp3 & Hnn3 & Hr).
  rewrite Hin2, Hin1, Hrep2 in Hr. fold evq in Hr.
  destruct Hr as [(ms & m & rest & Hq & Hl & -> & ->) | (ps & Hps & Hr)].
  { inversion H; subst ev s' r. split; [congruence|]. left.
    exists ms, m, rest. auto. }
  cbv zeta in Hr.
  destruct (spec_receive ops ps r1) as [r2|e] eqn:Hsr.
  2:{ destruct Hr as (-> & pre & p & post & rp & Hps' & Hpre & Hp & ->).
      inversion H; subst ev s' r. split; [congruence|]. right.
      exists ps. split; [exact Hps|]. rewrite Hsr.
      split; [reflexivity|]. exists pre, p, post, rp. auto. }
  destruct (spec_execute ops ps r2) as [r3|e] eqn:Hsx.
  2:{ destruct Hr as (-> & ->). inversion H; subst ev s' r.
      split; [congruence|]. right. exists ps. split; [exact Hps|].
      rewrite Hsr, Hsx. auto. }
  destruct Hr as (-> & Hrep3 & ->).
  unfold bind at 1 in H.
  destruct (report ops env l s3) as [[evp s4] rp] eqn:Hp.
  apply report_run in Hp as (Hrep4 & Hnp4 & Hp).
  assert (Hnp : n_poll (socket s4) = Datatypes.S (n_poll (socket s)))
    by congruence.
  destruct Hp as [(-> & ->) | (lt & -> & Hevp)].
  - inversion H; subst ev s' r. split; [exact Hnp|]. right.
    exists ps. split; [exact Hps|]. rewrite Hsr, Hsx.
    split; [congruence|]. exists []. split; [|left; auto].
    now rewrite <- !app_assoc.
  - inversion H; subst ev s' r. split; [exact Hnp|]. right.
    exists ps. split; [exact Hps|]. rewrite Hsr, Hsx.
    split; [congruence|]. exists evp. split.
    { rewrite app_nil_r. now rewrite <- !app_assoc. }
    right. eexists. split; [reflexivity|]. cbn. auto.
Qed.

(** Counting in the trace of an iteration. *)
Lemma count_cons f (e : Event) (ev : list Event) :
  count f (e :: ev) = ((if f e then 1 else 0) + count f ev)%nat.
Proof. unfold count. simpl. destruct (f e); reflexivity. Qed.

Lemma count_queue f (q : list Multipart) :
  (forall b m, f (ERecv b m) = false) ->
  count f match q with
          | [] => []
          | _ => List.map recvd q ++ [ERecv true None]
          end = 0%nat.
Proof.
  intros Hf. destruct q as [|m q]; [reflexivity|].
  rewrite count_app, count_recvd by (intros; apply Hf).
  rewrite count_cons, Hf. reflexivity.
Qed.

Lemma count_report f (evp : list Event) :
  f ENow = false -> (forall t, f (EPrint t) = false) ->
  evp = [] \/ (exists t, evp = [ENow; EPrint t]) -> count f evp = 0%nat.
Proof.
  intros H1 H2 [-> | [t ->]]; [reflexivity|].
  rewrite !count_cons, H1, H2. reflexivity.
Qed.


(** Once the tick part of an iteration has returned [r1]: what follows
    holds no tick and no check of the timeouts, and an iteration that
    returns has handled the batch and run the executor from [r1] on. *)
Lemma main_iter_after_tick (l : Locals) (s : S) ev s' r :
  main_iter ops env l s = (ev, s', r) ->
  let due := tick_due ops env l s in
  forall r1,
  spec_tick ops due (replica s) = Ok r1 ->
  (exists rest,
     ev = [EMinimumWait; EPoll (wait_of ops l s * 1000); ENow]
            ++ (if due then [ETick; ECheckTimeouts; ENow] else []) ++ rest /\
     count is_tick rest = 0%nat /\ count is_check_timeouts rest = 0%nat) /\
  (forall l', r = Ok l' ->
     last_tick_time l' =
       (if due then clock env (Datatypes.S (n_now (socket s)))
        else last_tick_time l) /\
     exists ps r2,
       List.map Some ps = List.map last (queue_after_poll env s) /\
       spec_receive ops ps r1 = Ok r2 /\
       spec_execute ops ps r2 = Ok (replica s')).
Proof.
  intros H due r1 Hst.
  pose proof (main_iter_run _ _ _ _ _ H) as (_ & Hrun). cbv zeta in Hrun.
  fold due in Hrun. rewrite Hst in Hrun.
  destruct Hrun as [(ms & m & rest & _ & _ & -> & ->) | (ps & Hps & Hc)].
  - split; [|discriminate]. eexists. split; [reflexivity|].
    split; apply count_recvd; reflexivity.
  - destruct (spec_receive ops ps r1) as [r2|e] eqn:Hsr.
    2:{ destruct Hc as (-> & pre & p & post & rp & _ & _ & _ & ->).
        split; [|discriminate]. eexists. split; [reflexivity|].
        rewrite !count_app, !count_queue, !count_packets by reflexivity.
        auto. }
    destruct (spec_execute ops ps r2) as [r3|e] eqn:Hsx.
    2:{ destruct Hc as (-> & ->).
        split; [|discriminate]. eexists. split; [reflexivity|].
        rewrite !count_app, !count_queue, !count_packets by reflexivity.
        auto. }
    destruct Hc as (Hrep & evp & -> & Hc).
    split.
    + eexists. split; [reflexivity|].
      assert (Hx : forall f, f EExecutePending = false ->
                count f match ps with [] => [] | _ => [EExecutePending] end
                = 0%nat).
      { intros f Hf. destruct ps; [reflexivity|].
        rewrite count_cons, Hf. reflexivity. }
      assert (Hp : evp = [] \/ exists t, evp = [ENow; EPrint t]).
      { destruct Hc as [(_ & ->) | (l' & _ & Hp & _)]; auto. }
      rewrite !count_app, !count_queue, !count_packets, !Hx,
        !(count_report _ evp) by (auto; reflexivity).
      auto.
    + intros l' ->.
      destruct Hc as [(Hc & _) | (l2 & Hl & _ & _ & Hltt)]; [discriminate|].
      inversion Hl; subst l2. split; [exact Hltt|].
      exists ps, r2. subst r3. auto.
Qed.

(** C4.  In an iteration of [main], let [elapsed] be the wall-clock time
    between [last_tick_time] and the reading of the clock taken when the
    poll returns.  If [elapsed > seconds_per_tick], [tick()] is called
    exactly once, right after that reading, on the replica as the iteration
    found it; when it returns, [check_timeouts()] is called once on what it
    left; and when that returns, the clock is read again, this reading is
    the new [last_tick_time], and the rest of the iteration works on the
    replica so ticked and checked.  Otherwise neither method is called,
    [last_tick_time] stays, the rest of the iteration works on the replica
    as it was, and the tick counter is what it was (given that handling a
    packet and running the executor do not touch it). *)
Theorem main_iter_ticks_when_elapsed (l : Locals) (s : S) ev s' r :
  main_iter ops env l s = (ev, s', r) ->
  let spt := seconds_per_tick ops (replica s) in
  let q := queue_after_poll env s in
  let hd := [EMinimumWait; EPoll (wait_of ops l s * 1000); ENow] in
  ((spt < elapsed env l s)%Q ->
     count is_tick ev = 1%nat /\
     match tick ops (replica s) with
     | Raise e => r = Raise e /\ ev = hd ++ [ETick]
     | Ok ra =>
         count is_check_timeouts ev = 1%nat /\
         match check_timeouts ops ra with
         | Raise e => r = Raise e /\ ev = hd ++ [ETick; ECheckTimeouts]
         | Ok r1 =>
             (exists rest,
                ev = hd ++ [ETick; ECheckTimeouts; ENow] ++ rest) /\
             forall l', r = Ok l' ->
               last_tick_time l' = clock env (Datatypes.S (n_now (socket s))) /\
               exists ps r2,
                 List.map Some ps = List.map last q /\
                 spec_receive ops ps r1 = Ok r2 /\
                 spec_execute ops ps r2 = Ok (replica s')
         end
     end) /\
  (~ (spt < elapsed env l s)%Q ->
     count is_tick ev = 0%nat /\ count is_check_timeouts ev = 0%nat /\
     (forall l', r = Ok l' ->
        last_tick_time l' = last_tick_time l /\
        exists ps r2,
          List.map Some ps = List.map last q /\
          spec_receive ops ps (replica s) = Ok r2 /\
          spec_execute ops ps r2 = Ok (replica s')) /\
     ((forall p r0 r1, receive_packet ops p r0 = Ok r1 ->
                       ticks ops r1 = ticks ops r0) ->
      (forall r0 r1, execute_pending ops r0 = Ok r1 ->
                     ticks ops r1 = ticks ops r0) ->
      ticks ops (replica s') = ticks ops (replica s))).
Proof.
  intros H spt q hd.
  pose proof (main_iter_run _ _ _ _ _ H) as (_ & Hrun). cbv zeta in Hrun.
  pose proof (main_iter_after_tick _ _ _ _ _ H) as Hafter. cbv zeta in Hafter.
  unfold tick_due in Hrun, Hafter. fold spt in Hrun, Hafter.
  fold hd in Hrun, Hafter. fold q in Hafter.
  split.
  - intros Hlt. apply Qltb_lt in Hlt. rewrite Hlt in Hrun, Hafter.
    unfold spec_tick in Hrun, Hafter.
    destruct (tick ops (replica s)) as [ra|e] eqn:Htk;
      cbn [and_then] in Hrun, Hafter.
    2:{ destruct Hrun as (-> & ->). split; [reflexivity | auto]. }
    destruct (check_timeouts ops ra) as [r1|e] eqn:Hck.
    2:{ destruct Hrun as (-> & ->). split; [reflexivity|].
        split; [reflexivity | auto]. }
    destruct (Hafter r1 eq_refl) as ((rest & Hev & Hc1 & Hc2) & Hok).
    subst ev. rewrite !count_app, Hc1, Hc2.
    split; [reflexivity|]. split; [reflexivity|]. split; [eauto|].
    exact Hok.
  - intros Hge. destruct (Qltb spt (elapsed env l s)) eqn:E.
    { apply Qltb_lt in E. contradiction. }
    cbn [spec_tick] in Hafter.
    destruct (Hafter _ eq_refl) as ((rest & Hev & Hc1 & Hc2) & Hok).
    subst ev. rewrite !count_app, Hc1, Hc2.
    split; [reflexivity|]. split; [reflexivity|]. split; [exact Hok|].
    intros Hf1 Hf2. eapply main_iter_ticks; eauto.
Qed.

(** C5 (as the code has it).  An iteration of [main] begins by asking the
    timeout store for its minimum wait and then polls; the wait handed to
    the poll is, in milliseconds, the minimum of the reported wait and
    [max(0, seconds_per_tick - poll_delta)], and the latter alone when
    nothing (or a zero wait) is reported.  [poll_delta] is 0 in the first
    iteration and afterwards the time between [last_tick_time] and the
    return of the previous iteration's poll: it is measured before that
    iteration ticks, so after an iteration that ticked it still exceeds
    [seconds_per_tick], although [last_tick_time] has moved to the reading
    taken after the tick, and the remaining interval is then 0 (as long as
    [seconds_per_tick] is what it was).  Nothing after the poll can suspend
    the loop:
    there is no second poll, and every read of the socket has [NOBLOCK]
    set. *)
Theorem main_iter_waits_only_at_poll (l : Locals) (s : S) ev s' r :
  main_iter ops env l s = (ev, s', r) ->
  let spt := seconds_per_tick ops (replica s) in
  let interval := py_max 0 (spt - poll_delta l) in
  (exists rest,
     ev = EMinimumWait :: EPoll (wait_of ops l s * 1000) :: rest /\
     Forall (fun e => may_suspend e = false) rest /\
     count is_poll ev = 1%nat /\
     forall b m, In (ERecv b m) ev -> b = true) /\
  (check_timeouts_minimum_wait ops (replica s) = None ->
   wait_of ops l s = interval) /\
  (forall w, check_timeouts_minimum_wait ops (replica s) = Some w ->
     (~ (w == 0)%Q -> wait_of ops l s = py_min w interval) /\
     ((w == 0)%Q -> wait_of ops l s = interval)) /\
  ((0 <= interval)%Q /\ (spt - poll_delta l <= interval)%Q /\
   (interval = 0%Q \/ interval = (spt - poll_delta l)%Q)) /\
  (forall w, (py_min w interval <= w)%Q /\ (py_min w interval <= interval)%Q /\
             (py_min w interval = w \/ py_min w interval = interval)) /\
  (forall l', r = Ok l' ->
     poll_delta l' = elapsed env l s /\
     (tick_due ops env l s = true ->
      (spt < poll_delta l')%Q /\
      last_tick_time l' = clock env (Datatypes.S (n_now (socket s))) /\
      (seconds_per_tick ops (replica s') = spt ->
       py_max 0 (seconds_per_tick ops (replica s') - poll_delta l') = 0%Q)) /\
     (tick_due ops env l s = false ->
      last_tick_time l' = last_tick_time l)) /\
  (forall s0, exists s1 l0,
     main_start ops env s0 = ([ENow], s1, Ok l0) /\
     poll_delta l0 = 0%Q /\
     last_tick_time l0 = clock env (n_now (socket s0))).
Proof.
  intros H spt interval.
  pose proof (main_iter_after_tick _ _ _ _ _ H) as Hafter.
  cbv zeta in Hafter.
  pose proof (main_iter_run _ _ _ _ _ H) as (_ & Hrun). cbv zeta in Hrun.
  apply main_iter_spec in H as (evt & evr & evp & rr & -> & Ht & Hr & Hp & _ & Hok).
  assert (Hq : Forall quiet (ENow :: evt ++ evr ++ evp)).
  { constructor; [split; reflexivity|]. rewrite !Forall_app. repeat split.
    - destruct (Qltb _ _); [eapply tick_trace_quiet; eauto | subst; constructor].
    - destruct Hr as [-> | [_ Hr]]; [constructor | eapply receive_trace_quiet; eauto].
    - destruct Hp as [-> | [t ->]]; repeat constructor. }
  split; [|split; [|split; [|split; [|split; [|split]]]]].
  - exists (ENow :: evt ++ evr ++ evp). repeat split.
    + eapply Forall_impl; [exact Hq|]. intros e He. apply He.
    + change (Datatypes.S (count is_poll (ENow :: evt ++ evr ++ evp)) = 1%nat).
      f_equal. apply count_quiet; [|exact Hq]. intros e He. apply He.
    + intros b m [Hin|[Hin|Hin]]; try discriminate.
      rewrite List.Forall_forall in Hq. apply Hq in Hin as [Hs _].
      destruct b; [reflexivity | discriminate].
  - unfold wait_of, poll_wait. intros ->. reflexivity.
  - intros w Hw. unfold wait_of, poll_wait. rewrite Hw. split.
    + intros Hz. apply truthy_nonzero in Hz. now rewrite Hz.
    + intros Hz. destruct (truthy w) eqn:E; [|reflexivity].
      apply truthy_nonzero in E. contradiction.
  - apply py_max_spec.
  - intros w. apply py_min_spec.
  - intros l' Hl. destruct (Hok l' Hl) as (Hpd & _).
    split; [exact Hpd|]. split.
    + intros Hdue.
      assert (Hlt : (spt < poll_delta l')%Q).
      { rewrite Hpd. unfold tick_due in Hdue. apply Qltb_lt in Hdue.
        exact Hdue. }
      split; [exact Hlt|]. split.
      2:{ intros ->. unfold py_max.
          destruct (Qltb 0 (spt - poll_delta l')) eqn:E; [|reflexivity].
          apply Qltb_lt in E. lra. }
      * rewrite Hdue in Hafter.
        destruct (spec_tick ops true (replica s)) as [r1|e] eqn:Hst.
        -- destruct (Hafter r1 eq_refl) as (_ & Hl'). apply (Hl' l' Hl).
        -- rewrite Hdue, Hst in Hrun. destruct Hrun as [Hc _].
           rewrite Hc in Hl. discriminate Hl.
    + intros Hdue. rewrite Hdue in Hafter. cbn [spec_tick] in Hafter.
      destruct (Hafter _ eq_refl) as (_ & Hl'). apply (Hl' l' Hl).
  - intros s0. do 2 eexists. split; [reflexivity|]. split; reflexivity.
Qed.

(** *** The batch of an iteration *)

Lemma frames_unique (q : list Multipart) (ps ps' : list Packet) :
  List.map Some ps = List.map last q ->
  List.map Some ps' = List.map last q -> ps = ps'.
Proof.
  intros H H'. rewrite <- H' in H. clear H'. revert ps' H.
  induction ps as [|p ps IH]; intros [|p' ps'] H; try discriminate; auto.
  simpl in H. inversion H; subst. f_equal. now apply IH.
Qed.

Lemma frames_total (q : list Multipart) (ps : list Packet) ms m rest :
  List.map Some ps = List.map last q -> q = ms ++ m :: rest ->
  last m <> None.
Proof.
  intros H -> Hl. rewrite List.map_app in H. simpl in H.
  assert (Hin : In (last m) (List.map Some ps)).
  { rewrite H. apply in_or_app. right. now left. }
  rewrite Hl in Hin. apply in_map_iff in Hin as (x & Hx & _). discriminate.
Qed.

Lemma received_queue (q : list Multipart) :
  received match q with
           | [] => []
           | _ => List.map recvd q ++ [ERecv true None]
           end = q.
Proof.
  destruct q as [|m q]; [reflexivity|].
  rewrite received_app, received_recvd. simpl. now rewrite app_nil_r.
Qed.

Lemma dispatched_queue (q : list Multipart) :
  dispatched match q with
             | [] => []
             | _ => List.map recvd q ++ [ERecv true None]
             end = [].
Proof.
  destruct q as [|m q]; [reflexivity|].
  now rewrite dispatched_app, dispatched_recvd.
Qed.

(** An iteration whose tick part returned [r1] and whose messages all have
    a frame, [ps] being their last frames in the order of the queue. *)
Lemma main_iter_batch (l : Locals) (s : S) ev s' r :
  main_iter ops env l s = (ev, s', r) ->
  let q := queue_after_poll env s in
  let due := tick_due ops env l s in
  forall ps r1,
  List.map Some ps = List.map last q ->
  spec_tick ops due (replica s) = Ok r1 ->
  exists tail,
    ev = [EMinimumWait; EPoll (wait_of ops l s * 1000); ENow]
           ++ (if due then [ETick; ECheckTimeouts; ENow] else [])
           ++ match q with
              | [] => []
              | _ => List.map recvd q ++ [ERecv true None]
              end
           ++ tail /\
    match spec_receive ops ps r1 with
    | Raise e =>
        r = Raise e /\
        exists pre p post rp,
          ps = pre ++ p :: post /\
          spec_receive ops pre r1 = Ok rp /\
          receive_packet ops p rp = Raise e /\
          tail = List.map EReceivePacket (pre ++ [p])
    | Ok r2 =>
        match spec_execute ops ps r2 with
        | Raise e =>
            r = Raise e /\
            tail = List.map EReceivePacket ps ++ [EExecutePending]
        | Ok r3 =>
            replica s' = r3 /\
            exists evp,
              tail = List.map EReceivePacket ps
                       ++ match ps with [] => [] | _ => [EExecutePending] end
                       ++ evp /\
              (evp = [] \/ exists t, evp = [ENow; EPrint t]) /\
              (r = Raise ZeroDivisionError \/ exists l', r = Ok l')
        end
    end.
Proof.
  intros H q due ps r1 Hps Hst.
  pose proof (main_iter_run _ _ _ _ _ H) as (_ & Hrun). cbv zeta in Hrun.
  fold due q in Hrun. rewrite Hst in Hrun.
  destruct Hrun as [(ms & m & rest & Hq & Hl & _) | (ps' & Hps' & Hc)].
  { exfalso. eapply frames_total; eauto. }
  assert (ps' = ps) by (eapply frames_unique; eauto). subst ps'.
  destruct (spec_receive ops ps r1) as [r2|e] eqn:Hsr.
  2:{ destruct Hc as (-> & pre & p & post & rp & Hp1 & Hp2 & Hp3 & ->).
      eexists. split; [reflexivity|]. split; [reflexivity|].
      exists pre, p, post, rp. auto. }
  destruct (spec_execute ops ps r2) as [r3|e] eqn:Hsx.
  2:{ destruct Hc as (-> & ->). eexists. split; [reflexivity|]. auto. }
  destruct Hc as (Hrep & evp & -> & Hc).
  eexists. split; [reflexivity|]. split; [exact Hrep|].
  exists evp. split; [reflexivity|].
  destruct Hc as [(-> & ->) | (l' & -> & Hp & _)]; eauto.
Qed.

(** C6.  In an iteration of [main] the messages are read from the head of
    the socket's queue, in the order they arrived; the whole batch is read
    before anything is dispatched; and the packets are handed to
    [receive_packet] in the order they were read, the i-th dispatch being the
    last frame of the i-th message read, each call working on the replica
    as the call before left it.  When every message has a frame, the whole
    queue is read; when every handler returns, every packet is dispatched
    and the replica the executor gets is the one the packets made, applied
    in arrival order; when a handler raises, the packets before it have been
    handled in arrival order and the ones after it are not handled.  So the
    messages of any one peer are processed in the order they arrived. *)
Theorem main_iter_dispatches_in_arrival_order (l : Locals) (s : S) ev s' r :
  main_iter ops env l s = (ev, s', r) ->
  let q := queue_after_poll env s in
  received ev `prefix_of` q /\
  List.map Some (dispatched ev) `prefix_of` List.map last (received ev) /\
  (exists a b, ev = a ++ b /\ dispatched a = [] /\ received b = []) /\
  (forall l', r = Ok l' ->
     received ev = q /\ List.map Some (dispatched ev) = List.map last q) /\
  (forall ps r1,
     List.map Some ps = List.map last q ->
     spec_tick ops (tick_due ops env l s) (replica s) = Ok r1 ->
     received ev = q /\
     match spec_receive ops ps r1 with
     | Ok r2 =>
         dispatched ev = ps /\
         (forall l', r = Ok l' -> spec_execute ops ps r2 = Ok (replica s'))
     | Raise e =>
         r = Raise e /\
         exists pre p post rp,
           ps = pre ++ p :: post /\ dispatched ev = pre ++ [p] /\
           spec_receive ops pre r1 = Ok rp /\
           receive_packet ops p rp = Raise e
     end).
Proof.
  intros H q.
  pose proof (main_iter_batch _ _ _ _ _ H) as Hbatch. cbv zeta in Hbatch.
  fold q in Hbatch.
  apply main_iter_spec in H as (evt & evr & evp & rr & -> & Ht & Hr & Hp & _ & Hok).
  assert (Hts : dispatched evt = [] /\ received evt = []).
  { destruct (Qltb _ _); [apply tick_trace_silent in Ht; tauto | subst; auto]. }
  destruct Hts as [Htd Htr].
  assert (Hps : dispatched evp = [] /\ received evp = []).
  { destruct Hp as [-> | [t ->]]; auto. }
  destruct Hps as [Hpd Hpr].
  assert (Hfull : forall l', r = Ok l' ->
            received evr = q /\
            List.map Some (dispatched evr) = List.map last q).
  { intros l' Hl. destruct (Hok l' Hl) as (_ & _ & Hq & Hq').
    fold q in Hq, Hq'. destruct q as [|m q0] eqn:E.
    - rewrite Hq by reflexivity. auto.
    - apply receive_trace_order in Hq'; [|discriminate].
      apply Hq'. reflexivity. }
  assert (Hpart : received evr `prefix_of` q /\
            List.map Some (dispatched evr) `prefix_of` List.map last (received evr) /\
            exists a b, evr = a ++ b /\ dispatched a = [] /\ received b = []).
  { destruct Hr as [-> | [Hne Hr]].
    - split; [apply prefix_nil | split; [apply prefix_nil | exists [], []; auto]].
    - apply receive_trace_order in Hr. tauto. }
  destruct Hpart as (H1 & H2 & a & b & -> & Ha & Hb).
  split; [|split; [|split; [|split]]].
  - rewrite !received_app, Htr, Hpr. simpl. rewrite !app_nil_r.
    rewrite <- received_app. exact H1.
  - rewrite !received_app, !dispatched_app, Htd, Htr, Hpd, Hpr. simpl.
    rewrite !app_nil_r. rewrite <- received_app, <- dispatched_app. exact H2.
  - exists ([EMinimumWait; EPoll (wait_of ops l s * 1000); ENow] ++ evt ++ a),
           (b ++ evp).
    rewrite !dispatched_app, Htd, Ha, received_app, Hb, Hpr.
    rewrite <- !app_assoc. auto.
  - intros l' Hl. destruct (Hfull l' Hl) as [F1 F2].
    rewrite !received_app, !dispatched_app, Htd, Htr, Hpd, Hpr. simpl.
    rewrite !app_nil_r. rewrite <- received_app, <- dispatched_app. auto.
  - intros ps r1 Hfr Hst.
    destruct (Hbatch ps r1 Hfr Hst) as (tail & Hev & Hc). rewrite Hev.
    assert (Hd0 : forall t,
      dispatched ([EMinimumWait; EPoll (wait_of ops l s * 1000); ENow]
         ++ (if tick_due ops env l s then [ETick; ECheckTimeouts; ENow] else [])
         ++ match q with
            | [] => []
            | _ => List.map recvd q ++ [ERecv true None]
            end ++ t) = dispatched t /\
      received ([EMinimumWait; EPoll (wait_of ops l s * 1000); ENow]
         ++ (if tick_due ops env l s then [ETick; ECheckTimeouts; ENow] else [])
         ++ match q with
            | [] => []
            | _ => List.map recvd q ++ [ERecv true None]
            end ++ t) = q ++ received t).
    { intros t. rewrite !dispatched_app, !received_app, dispatched_queue,
        received_queue. destruct (tick_due ops env l s); auto. }
    destruct (Hd0 tail) as [-> ->].
    destruct (spec_receive ops ps r1) as [r2|e] eqn:Hsr.
    2:{ destruct Hc as (-> & pre & p & post & rp & Hp1 & Hp2 & Hp3 & ->).
        rewrite received_packets, dispatched_packets, app_nil_r.
        split; [reflexivity|]. split; [reflexivity|].
        exists pre, p, post, rp. auto. }
    destruct (spec_execute ops ps r2) as [r3|e] eqn:Hsx.
    2:{ destruct Hc as (-> & ->).
        rewrite received_app, dispatched_app, received_packets,
          dispatched_packets. simpl. rewrite !app_nil_r.
        split; [reflexivity|]. split; [reflexivity|]. discriminate. }
    destruct Hc as (Hrep & evp' & -> & Hp' & _).
    assert (Hx : dispatched match ps with [] => [] | _ => [EExecutePending] end = []
                 /\ received match ps with [] => [] | _ => [EExecutePending] end = [])
      by (destruct ps; auto).
    assert (Hp2 : dispatched evp' = [] /\ received evp' = []).
    { destruct Hp' as [-> | [t ->]]; auto. }
    rewrite !received_app, !dispatched_app, received_packets,
      dispatched_packets, (proj1 Hx), (proj2 Hx), (proj1 Hp2), (proj2 Hp2).
    simpl. rewrite !app_nil_r.
    split; [reflexivity|]. split; [reflexivity|]. intros _ _. congruence.
Qed.

(** C3 (as the code has it).  An iteration of [main] does, in this order:
    ask for the minimum wait and poll; tick the clock and service the
    expired timeouts when a tick is due; drain the socket and dispatch the
    batch; run the executor.  When the handling of every packet of the
    batch returns and the batch is not empty, [execute_pending] is called
    exactly once, after the last packet of the batch and nowhere else, on
    the replica as the batch left it, and what it returns is the replica
    the iteration leaves; with an empty batch it is not called.  When the
    handling of a packet raises, the iteration ends with that exception:
    the packets after it are not dispatched and [execute_pending] is not
    called. *)
Theorem main_iter_executes_after_batch (l : Locals) (s : S) ev s' r :
  main_iter ops env l s = (ev, s', r) ->
  let q := queue_after_poll env s in
  let due := tick_due ops env l s in
  forall ps r1,
  List.map Some ps = List.map last q ->
  spec_tick ops due (replica s) = Ok r1 ->
  match spec_receive ops ps r1 with
  | Raise e =>
      r = Raise e /\ count is_execute ev = 0%nat /\
      exists pre p post,
        ps = pre ++ p :: post /\ dispatched ev = pre ++ [p] /\
        last ev = Some (EReceivePacket p)
  | Ok r2 =>
      dispatched ev = ps /\
      match ps with
      | [] => q = [] /\ count is_execute ev = 0%nat /\ replica s' = r1
      | _ :: _ =>
          count is_execute ev = 1%nat /\
          (exists pre post,
             ev = pre ++ List.map EReceivePacket ps
                      ++ EExecutePending :: post /\
             dispatched pre = [] /\ count is_execute pre = 0%nat /\
             dispatched post = [] /\ count is_execute post = 0%nat) /\
          match execute_pending ops r2 with
          | Ok r3 => replica s' = r3
          | Raise e => r = Raise e
          end
      end /\
      (forall l', r = Ok l' ->
         exists evp,
           (evp = [] \/ exists t, evp = [ENow; EPrint t]) /\
           ev = [EMinimumWait; EPoll (wait_of ops l s * 1000); ENow]
                ++ (if due then [ETick; ECheckTimeouts; ENow] else [])
                ++ match q with
                   | [] => []
                   | _ => List.map recvd q ++ [ERecv true None]
                          ++ List.map EReceivePacket ps
                          ++ [EExecutePending]
                   end
                ++ evp)
  end.
Proof.
  intros H q due ps r1 Hfr Hst.
  destruct (main_iter_batch _ _ _ _ _ H ps r1 Hfr Hst) as (tail & Hev & Hc).
  fold q due in Hev.
  set (hd := [EMinimumWait; EPoll (wait_of ops l s * 1000); ENow]) in *.
  set (evt := if due then [ETick; ECheckTimeouts; ENow] else []) in *.
  set (evq := match q with
              | [] => []
              | _ => List.map recvd q ++ [ERecv true None]
              end) in *.
  assert (Hhead : dispatched (hd ++ evt ++ evq) = [] /\
                  count is_execute (hd ++ evt ++ evq) = 0%nat).
  { unfold evt, evq. rewrite !dispatched_app, dispatched_queue, !count_app,
      count_queue by reflexivity.
    destruct due; auto. }
  destruct Hhead as [Hhd Hhx].
  assert (Hsplit : ev = (hd ++ evt ++ evq) ++ tail)
    by (rewrite Hev, <- !app_assoc; reflexivity).
  destruct (spec_receive ops ps r1) as [r2|e] eqn:Hsr.
  2:{ destruct Hc as (-> & pre & p & post & rp & Hp1 & _ & _ & ->).
      split; [reflexivity|]. rewrite Hsplit, count_app, dispatched_app, Hhd, Hhx.
      rewrite count_packets by reflexivity. split; [reflexivity|].
      exists pre, p, post. rewrite dispatched_packets.
      split; [exact Hp1|]. split; [reflexivity|].
      rewrite List.map_app, !app_assoc. apply last_snoc. }
  assert (Hq : ps = [] -> q = []).
  { intros ->. fold q in Hfr. destruct q; [reflexivity | discriminate]. }
  destruct (spec_execute ops ps r2) as [r3|e] eqn:Hsx.
  2:{ destruct Hc as (-> & ->).
      destruct ps as [|p ps]; [discriminate Hsx|]. cbn [spec_execute] in Hsx.
      rewrite Hsplit, dispatched_app, Hhd, dispatched_app, dispatched_packets.
      split; [simpl; now rewrite app_nil_r|].
      split; [|discriminate].
      split.
      { rewrite (count_app _ (hd ++ evt ++ evq)), Hhx, count_app,
          count_packets by reflexivity. reflexivity. }
      split.
      { exists (hd ++ evt ++ evq), []. repeat split; auto. }
      now rewrite Hsx. }
  destruct Hc as (Hrep & evp & -> & Hp & _).
  assert (Hpd : dispatched evp = [] /\ count is_execute evp = 0%nat).
  { destruct Hp as [-> | [t ->]]; auto. }
  destruct Hpd as [Hpd Hpx].
  destruct ps as [|p ps].
  - cbn [spec_execute] in Hsx. unfold spec_receive in Hsr. cbn in Hsr.
    rewrite Hsplit, dispatched_app, Hhd, count_app, Hhx. cbn [List.map app].
    rewrite Hpd, Hpx.
    split; [reflexivity|]. split; [repeat split; auto; congruence|].
    intros l' _. exists evp. split; [exact Hp|].
    unfold evq. rewrite (Hq eq_refl). cbn [List.map app].
    now rewrite <- !app_assoc.
  - cbn [spec_execute] in Hsx.
    rewrite Hsplit, dispatched_app, Hhd, !dispatched_app, dispatched_packets,
      Hpd.
    split; [simpl; now rewrite app_nil_r|].
    split.
    { split.
      { rewrite (count_app _ (hd ++ evt ++ evq)), Hhx, !count_app, Hpx,
          count_packets by reflexivity. reflexivity. }
      split.
      { exists (hd ++ evt ++ evq), evp.
        repeat split; auto; now rewrite <- !app_assoc. }
      now rewrite Hsx. }
    intros l' _. exists evp. split; [exact Hp|].
    unfold evq. fold q in Hfr. destruct q as [|m q0]; [discriminate Hfr|].
    now rewrite <- !app_assoc.
Qed.

(** *** What ends the loop *)






End WithReplica.

(** *** The theorems at work on the small replica *)

Import Example.

Lemma main_iter_waits_only_at_poll_witness :
  exists ev s' r,
    main_iter toy env_two start_locals toy_server = (ev, s', r) /\
    count is_poll ev = 1%nat /\
    wait_of toy start_locals toy_server = py_max 0 ((1 # 5) - 0).
Proof.
  destruct (main_iter toy env_two start_locals toy_server)
    as [[ev s'] r] eqn:H.
  exists ev, s', r. split; [reflexivity|].
  destruct (main_iter_waits_only_at_poll toy env_two start_locals toy_server
              ev s' r H) as ((rest & _ & _ & Hc & _) & Hw & _).
  split; [exact Hc | apply Hw; reflexivity].
Defined.

(** C5, the claim as stated fails: in the iteration that follows a tick,
    the poll is given no time at all, although the timeout store reports a
    wait of 1/10 s and a tick lasts 1/5 s.  Whatever moment [t] between the
    tick and the next reading of the clock the time since the last tick is
    taken at, the minimum of the reported wait and of the remaining tick
    interval is positive. *)
Lemma main_polls_at_once_after_tick :
  exists ev s' l',
    main_iter toy env_silent late_locals toy_server = (ev, s', Ok l') /\
    count is_tick ev = 1%nat /\
    check_timeouts_minimum_wait toy (replica s') = Some (1 # 10) /\
    seconds_per_tick toy (replica s') = 1 # 5 /\
    (exists rest,
       fst (fst (main_iter toy env_silent l' s')) =
         EMinimumWait :: EPoll 0 :: rest) /\
    forall t : Q,
      (last_tick_time l' <= t)%Q ->
      (t <= clock env_silent (n_now (socket s')))%Q ->
      (0 < py_min (1 # 10) (py_max 0 ((1 # 5) - (t - last_tick_time l'))))%Q.
Proof.
  eexists _, _, _. split; [vm_compute; reflexivity|].
  split; [reflexivity|]. split; [reflexivity|]. split; [reflexivity|].
  split; [eexists; vm_compute; reflexivity|].
  intros t H1 H2. cbn in H1, H2. cbn [last_tick_time].
  change (t <= 30 # 100)%Q in H2.
  match goal with
  | |- (0 < py_min ?a (py_max 0 ?x))%Q =>
      destruct (py_max_spec 0 x) as (_ & Hm & _);
      destruct (py_min_spec a (py_max 0 x)) as (_ & _ & [E|E]); rewrite E
  end; lra.
Qed.

Lemma main_iter_ticks_when_elapsed_witness :
  exists ev s' l',
    main_iter toy env_two late_locals toy_server = (ev, s', Ok l') /\
    count is_tick ev = 1%nat /\
    last_tick_time l' = clock env_two 1 /\
    toy_ticks (replica s') = 1%Z /\ toy_checked (replica s') = 1%nat.
Proof.
  destruct (main_iter toy env_two late_locals toy_server) as [[ev s'] r] eqn:H.
  assert (Hr : exists l', r = Ok l').
  { pose proof H as H'. vm_compute in H'. inversion H'. eauto. }
  destruct Hr as [l' ->]. exists ev, s', l'. split; [reflexivity|].
  destruct (main_iter_ticks_when_elapsed toy env_two late_locals toy_server
              ev s' (Ok l') H) as (Hyes & _).
  destruct Hyes as (Hc & Hrest); [vm_compute; reflexivity|].
  split; [exact Hc|]. cbn in Hrest. destruct Hrest as (_ & _ & Hl).
  destruct (Hl l' eq_refl) as (Hltt & ps & r2 & Hfr & Hrec & Hex).
  split; [exact Hltt|].
  assert (Hps : ps = [pkt_a; pkt_b]).
  { destruct ps as [|p1 [|p2 [|p3 ps]]]; try discriminate Hfr.
    now injection Hfr as -> ->. }
  subst ps. cbn in Hrec. injection Hrec as <-. cbn in Hex.
  injection Hex as <-. split; reflexivity.
Defined.

Lemma main_iter_dispatches_in_arrival_order_witness :
  exists ev s' l',
    main_iter toy env_two start_locals toy_server = (ev, s', Ok l') /\
    received ev = [[id_2; pkt_a]; [id_3; pkt_b]] /\
    dispatched ev = [pkt_a; pkt_b] /\
    toy_seen (replica s') = [pkt_a; pkt_b].
Proof.
  destruct (main_iter toy env_two start_locals toy_server)
    as [[ev s'] r] eqn:H.
  assert (Hr : exists l', r = Ok l').
  { pose proof H as H'. vm_compute in H'. inversion H'. eauto. }
  destruct Hr as [l' ->]. exists ev, s', l'. split; [reflexivity|].
  destruct (main_iter_dispatches_in_arrival_order toy env_two start_locals
              toy_server ev s' (Ok l') H) as (_ & _ & _ & _ & Hst).
  destruct (Hst [pkt_a; pkt_b] (replica toy_server) eq_refl eq_refl)
    as (Hrec & Hd).
  split; [exact Hrec|]. cbn in Hd. destruct Hd as [Hd Hx].
  split; [exact Hd|]. specialize (Hx l' eq_refl).
  injection Hx as Hx. rewrite <- Hx. reflexivity.
Defined.

Lemma main_iter_executes_after_batch_witness :
  exists ev s' l',
    main_iter toy env_two start_locals toy_server = (ev, s', Ok l') /\
    count is_execute ev = 1%nat /\
    toy_executed (replica s') = 1%nat /\
    toy_seen (replica s') = [pkt_a; pkt_b].
Proof.
  destruct (main_iter toy env_two start_locals toy_server)
    as [[ev s'] r] eqn:H.
  assert (Hr : exists l', r = Ok l').
  { pose proof H as H'. vm_compute in H'. inversion H'. eauto. }
  destruct Hr as [l' ->]. exists ev, s', l'. split; [reflexivity|].
  pose proof (main_iter_executes_after_batch toy env_two start_locals
                toy_server ev s' (Ok l') H [pkt_a; pkt_b]
                (replica toy_server) eq_refl eq_refl) as Hx.
  cbn in Hx. destruct Hx as (_ & (Hc & _ & Hrep) & _).
  split; [exact Hc|]. rewrite Hrep. split; reflexivity.
Defined.

(** C3, the claim as stated fails: two messages are there when the poll
    returns; the first packet is handled, the handling of the second raises,
    and the iteration ends without a call of [execute_pending], although it
    has processed a packet. *)
Lemma executor_skipped_when_handler_raises :
  exists ev s',
    main_iter toy env_bad_second start_locals toy_server =
      (ev, s', Raise (ProtocolError CommandDecodeFailure)) /\
    dispatched ev = [pkt_a; []] /\
    toy_seen (replica s') = [pkt_a] /\
    count is_execute ev = 0%nat /\
    toy_executed (replica s') = 0%nat.
Proof.
  eexists _, _. split; [vm_compute; reflexivity|].
  repeat split; reflexivity.
Qed.





End ServerFacts.

(** ** ReplicaClient *)
Module ClientFacts.
Import Zmq Client Basics.

(** What a call of [connect] with an explicit id does, case by case. *)
Lemma connect_explicit (env : Env) (r : Z) (rnd : nat) (c : ReplicaClient)
    ev c' res :
  connect env (Some r) rnd c = (ev, c', res) ->
  let installed c1 :=
    replica_id c1 = Some r /\ channel c1 = Some (next_obj c) /\
    next_obj c1 = Datatypes.S (next_obj c) /\ peer_addr c1 = peer_addr c in
  let finish (k : list string) (pre : list Event) :=
    match peer_addr c !! r with
    | Some a =>
        ev = pre ++ [EConnect (replica_addr a)] /\
        if accepts env (replica_addr a)
        then res = Ok tt /\ endpoints (socket c') = k ++ [replica_addr a]
        else res = Raise ZMQError /\ endpoints (socket c') = k
    | None => ev = pre /\ res = Raise KeyError /\ endpoints (socket c') = k
    end in
  if truthy_id (replica_id c) then
    exists old, replica_id c = Some old /\ old <> 0%Z /\
      match peer_addr c !! old with
      | None => ev = [] /\ c' = c /\ res = Raise KeyError
      | Some a =>
          if existsb (String.eqb (replica_addr a)) (endpoints (socket c)) then
            installed c' /\
            finish (drop_endpoint (replica_addr a) (endpoints (socket c)))
                   [EDisconnect (replica_addr a)]
          else ev = [EDisconnect (replica_addr a)] /\ c' = c /\
               res = Raise ZMQError
      end
  else installed c' /\ finish (endpoints (socket c)) [].
Proof.
  cbv [connect bind ret get addr_of set_replica_id new_channel sock_connect
       sock_disconnect raise set_socket].
  cbn [peer_addr replica_id socket channel next_obj endpoints inbound
       n_now n_poll].
  destruct (replica_id c) as [old|] eqn:Eid; cbn [truthy_id].
  - destruct (old =? 0)%Z eqn:E0; cbn [negb].
    + destruct (peer_addr c !! r) as [a|] eqn:Er;
        [destruct (accepts env (replica_addr a))|];
        intros H; inversion H; subst; cbn; repeat split; auto.
    + apply Z.eqb_neq in E0. intros H. exists old. split; [reflexivity|].
      split; [exact E0|].
      destruct (peer_addr c !! old) as [a|] eqn:Eo.
      2:{ inversion H; subst; auto. }
      destruct (existsb (String.eqb (replica_addr a)) (endpoints (socket c))).
      2:{ inversion H; subst; auto. }
      cbn [peer_addr replica_id socket channel next_obj endpoints inbound
           n_now n_poll] in H.
      destruct (peer_addr c !! r) as [a2|] eqn:Er;
        [destruct (accepts env (replica_addr a2))|];
        inversion H; subst; cbn; repeat split; auto.
  - destruct (peer_addr c !! r) as [a|] eqn:Er;
      [destruct (accepts env (replica_addr a))|];
      intros H; inversion H; subst; cbn; repeat split; auto.
Qed.

Lemma existsb_last (a : string) (k : list string) :
  existsb (String.eqb a) (k ++ [a]) = true.
Proof.
  rewrite existsb_app. simpl. rewrite String.eqb_refl.
  now rewrite orb_true_r.
Qed.

(** After a call [connect(r)] that returned, [r] is the replica connected
    to, its address is known, accepted by zmq and among the socket's
    endpoints, and a new channel is installed. *)
Lemma connect_explicit_ok (env : Env) (r : Z) (rnd : nat) (c : ReplicaClient)
    ev c' :
  connect env (Some r) rnd c = (ev, c', Ok tt) ->
  replica_id c' = Some r /\ channel c' = Some (next_obj c) /\
  next_obj c' = Datatypes.S (next_obj c) /\ peer_addr c' = peer_addr c /\
  exists a k, peer_addr c !! r = Some a /\
              accepts env (replica_addr a) = true /\
              endpoints (socket c') = k ++ [replica_addr a].
Proof.
  intros H. apply connect_explicit in H. cbv zeta in H.
  assert (Hfin : forall k pre,
            match peer_addr c !! r with
            | Some a =>
                ev = pre ++ [EConnect (replica_addr a)] /\
                if accepts env (replica_addr a)
                then Ok tt = Ok tt /\ endpoints (socket c') = k ++ [replica_addr a]
                else Ok tt = Raise ZMQError /\ endpoints (socket c') = k
            | None => ev = pre /\ Ok tt = Raise KeyError /\
                      endpoints (socket c') = k
            end ->
            exists a k, peer_addr c !! r = Some a /\
              accepts env (replica_addr a) = true /\
              endpoints (socket c') = k ++ [replica_addr a]).
  { intros k pre Hf. destruct (peer_addr c !! r) as [a|];
      [|destruct Hf as (_ & Hc & _); discriminate Hc].
    destruct Hf as (_ & Hf).
    destruct (accepts env (replica_addr a)) eqn:Ea;
      [|destruct Hf as (Hc & _); discriminate Hc].
    destruct Hf as (_ & Hf). eauto. }
  destruct (truthy_id (replica_id c)).
  - destruct H as (old & _ & _ & H).
    destruct (peer_addr c !! old) as [a|];
      [|destruct H as (_ & _ & Hc); discriminate Hc].
    destruct (existsb _ _); [|destruct H as (_ & _ & Hc); discriminate Hc].
    destruct H as ((H1 & H2 & H3 & H4) & H). eauto 10.
  - destruct H as ((H1 & H2 & H3 & H4) & H). eauto 10.
Qed.

(** C10.  A call [connect(r2)] that follows a call [connect(r1)]: when
    [r1] is not zero, it first disconnects the socket from [r1]'s address,
    once, and then connects to [r2]'s; when [r1] is zero (a false value for
    the test of [self.replica_id]) it disconnects from nothing and [r1]'s
    address stays among the endpoints.  In both cases [replica_id] becomes
    [r2] and a channel that did not exist before is installed, also when
    [r2] has no address and the call ends in a [KeyError], or when zmq
    refuses [r2]'s address and the call ends in a [ZMQError]. *)
Theorem connect_again (env : Env) (c0 : ReplicaClient) (r1 r2 : Z)
    (rnd1 rnd2 : nat) ev1 c1 ev2 c2 res :
  connect env (Some r1) rnd1 c0 = (ev1, c1, Ok tt) ->
  connect env (Some r2) rnd2 c1 = (ev2, c2, res) ->
  replica_id c2 = Some r2 /\
  channel c2 = Some (next_obj c1) /\ channel c2 <> channel c1 /\
  exists a1,
    peer_addr c0 !! r1 = Some a1 /\
    In (replica_addr a1) (endpoints (socket c1)) /\
    (r1 <> 0%Z ->
     exists rest,
       ev2 = EDisconnect (replica_addr a1) :: rest /\
       count is_disconnect rest = 0%nat /\
       match peer_addr c0 !! r2 with
       | Some a2 =>
           rest = [EConnect (replica_addr a2)] /\
           if accepts env (replica_addr a2)
           then res = Ok tt /\
                endpoints (socket c2) =
                  drop_endpoint (replica_addr a1) (endpoints (socket c1))
                    ++ [replica_addr a2]
           else res = Raise ZMQError /\
                endpoints (socket c2) =
                  drop_endpoint (replica_addr a1) (endpoints (socket c1))
       | None =>
           rest = [] /\ res = Raise KeyError /\
           endpoints (socket c2) =
             drop_endpoint (replica_addr a1) (endpoints (socket c1))
       end) /\
    (r1 = 0%Z ->
     count is_disconnect ev2 = 0%nat /\
     In (replica_addr a1) (endpoints (socket c2)) /\
     match peer_addr c0 !! r2 with
     | Some a2 =>
         ev2 = [EConnect (replica_addr a2)] /\
         if accepts env (replica_addr a2)
         then res = Ok tt /\
              endpoints (socket c2) = endpoints (socket c1) ++ [replica_addr a2]
         else res = Raise ZMQError /\
              endpoints (socket c2) = endpoints (socket c1)
     | None =>
         ev2 = [] /\ res = Raise KeyError /\
         endpoints (socket c2) = endpoints (socket c1)
     end).
Proof.
  intros H1 H2.
  apply connect_explicit_ok in H1
    as (Hid1 & Hch1 & Hn1 & Hpa1 & a1 & k & Ha1 & _ & Hep1).
  apply connect_explicit in H2. cbv zeta in H2.
  rewrite Hid1, Hpa1 in H2. cbn [truthy_id] in H2.
  assert (Hin1 : In (replica_addr a1) (endpoints (socket c1))).
  { rewrite Hep1. apply in_or_app. right. now left. }
  destruct (r1 =? 0)%Z eqn:E0; cbn [negb] in H2.
  - apply Z.eqb_eq in E0.
    destruct H2 as ((Hid2 & Hch2 & Hn2 & Hpa2) & H2).
    split; [exact Hid2|]. split; [exact Hch2|].
    split; [rewrite Hch2, Hch1, Hn1; intros Hc; inversion Hc; lia|].
    exists a1. split; [exact Ha1|]. split; [exact Hin1|].
    split; [intros Hc; contradiction|]. intros _.
    destruct (peer_addr c0 !! r2) as [a2|].
    + destruct H2 as (-> & H2).
      split; [reflexivity|].
      destruct (accepts env (replica_addr a2)); destruct H2 as (-> & Hep2);
        (split; [rewrite Hep2; try (apply in_or_app; left); exact Hin1|]);
        auto.
    + destruct H2 as (-> & -> & Hep2). repeat split; auto.
      now rewrite Hep2.
  - apply Z.eqb_neq in E0.
    destruct H2 as (old & Hold & _ & H2). inversion Hold; subst old.
    rewrite Ha1, Hep1, existsb_last in H2.
    destruct H2 as ((Hid2 & Hch2 & Hn2 & Hpa2) & H2).
    split; [exact Hid2|]. split; [exact Hch2|].
    split; [rewrite Hch2, Hch1, Hn1; intros Hc; inversion Hc; lia|].
    exists a1. split; [exact Ha1|]. split; [exact Hin1|].
    split; [|intros Hc; contradiction]. intros _.
    rewrite Hep1.
    destruct (peer_addr c0 !! r2) as [a2|].
    + destruct H2 as (-> & H2).
      exists [EConnect (replica_addr a2)]. repeat split; auto.
    + destruct H2 as (-> & -> & Hep2). exists []. repeat split; auto.
Qed.

(** [connect()] draws an id among the keys and goes on as [connect(id)]. *)
Lemma connect_random (env : Env) (rnd : nat) (c : ReplicaClient) ev c' res :
  connect env None rnd c = (ev, c', res) ->
  (res = Raise IndexError /\ c' = c /\ ev = [] /\ peer_addr c = []) \/
  exists r, In r (keys (peer_addr c)) /\
            connect env (Some r) rnd c = (ev, c', res).
Proof.
  unfold connect, random_choice. unfold bind at 1. unfold bind at 1.
  unfold get at 1.
  destruct (keys (peer_addr c)) as [|k ks] eqn:Ek.
  - intros H. injection H as He Hc Hr. left. repeat split; auto.
    unfold keys in Ek. destruct (peer_addr c); [reflexivity | discriminate].
  - intros H. right. exists (List.nth (rnd mod length (k :: ks)) (k :: ks) k).
    split; [apply nth_In, Nat.mod_upper_bound; discriminate|].
    unfold bind at 1. unfold ret at 1. unfold ret at 1 in H.
    cbv beta iota in H |- *.
    match goal with
    | |- context [bind get ?f c] => destruct (bind get f c) as [[ev2 s2] r0]
    end.
    simpl in *. exact H.
Qed.

Lemma connect_ok (env : Env) (rid : option Z) (rnd : nat) (c : ReplicaClient)
    ev c' :
  connect env rid rnd c = (ev, c', Ok tt) ->
  exists r ch, replica_id c' = Some r /\ channel c' = Some ch.
Proof.
  intros H. destruct rid as [r|].
  - apply connect_explicit_ok in H as (H1 & H2 & _). eauto.
  - apply connect_random in H as [(Hc & _) | (r & _ & H)]; [discriminate|].
    apply connect_explicit_ok in H as (H1 & H2 & _). eauto.
Qed.

Section WithReply.
Context {T : Type} (deserialize : Packet -> Res T) (env : Env).

(** A turn of the loop of [request] in which the poll times out. *)
Lemma request_turn_timeout (command : Z) (start : Q) (c : ReplicaClient) ch :
  channel c = Some ch ->
  inbound (socket c) = [] ->
  arrivals env (n_poll (socket c)) = [] ->
  request_turn deserialize env command start c =
  ([EPoll 1000; EClientRequest ch (replica_id c) command],
   set_socket {| inbound := []; endpoints := endpoints (socket c);
                 n_now := n_now (socket c);
                 n_poll := Datatypes.S (n_poll (socket c)) |} c,
   Ok None).
Proof.
  intros Hch Hin Harr.
  cbv [request_turn bind poll client_request get emit ret].
  rewrite Hin, Harr. cbn. rewrite Hch. reflexivity.
Qed.

(** A turn in which a one-frame message that decodes is there. *)
Lemma request_turn_reply (command : Z) (start : Q) (c : ReplicaClient)
    p rest rtn :
  inbound (socket c) = [] ->
  arrivals env (n_poll (socket c)) = [p] :: rest ->
  deserialize p = Ok rtn ->
  request_turn deserialize env command start c =
  ([EPoll 1000; ERecv false (Some [p]); ENow],
   set_socket {| inbound := rest; endpoints := endpoints (socket c);
                 n_now := Datatypes.S (n_now (socket c));
                 n_poll := Datatypes.S (n_poll (socket c)) |} c,
   Ok (Some ((clock env (n_now (socket c)) - start)%Q, rtn))).
Proof.
  intros Hin Harr Hd.
  cbv [request_turn bind poll recv_multipart unpack_one lift now ret].
  rewrite Hin, Harr. cbn. rewrite Hd. reflexivity.
Qed.

(** What a turn can raise: no channel, a reply of several frames, or what
    [deserialize] raises. *)
Lemma request_turn_raises (command : Z) (start : Q) (c : ReplicaClient)
    ev c' e :
  request_turn deserialize env command start c = (ev, c', Raise e) ->
  e = AttributeError \/ e = ValueError \/ exists p, deserialize p = Raise e.
Proof.
  cbv [request_turn bind poll recv_multipart unpack_one lift now ret
       client_request get emit raise].
  destruct (inbound (socket c) ++ arrivals env (n_poll (socket c)))
    as [|m q] eqn:Eq; cbn; rewrite ?Eq.
  - destruct (channel c); intros H; inversion H; auto.
  - destruct m as [|p [|p2 fs]]; cbn.
    + intros H; inversion H; auto.
    + destruct (deserialize p) eqn:Ed; cbn; intros H; inversion H; subst.
      right. right. eauto.
    + intros H; inversion H; auto.
Qed.

Lemma retries_S ch r command k :
  retries ch r command (Datatypes.S k) =
  [EPoll 1000; EClientRequest ch r command] ++ retries ch r command k.
Proof. reflexivity. Qed.

Lemma request_start_run (command : Z) (c : ReplicaClient) r ch :
  replica_id c = Some r ->
  channel c = Some ch ->
  request_start env command c =
  ([EClientRequest ch (Some r) command; ENow],
   set_socket {| inbound := inbound (socket c);
                 endpoints := endpoints (socket c);
                 n_now := Datatypes.S (n_now (socket c));
                 n_poll := n_poll (socket c) |} c,
   Ok (clock env (n_now (socket c)))).
Proof.
  intros Hr Hc.
  cbv [request_start bind get client_request emit now ret].
  rewrite Hr, Hc. cbn. rewrite Hr. reflexivity.
Qed.

(** As long as nothing arrives, every turn of the loop is a poll of
    1000 ms followed by the same [client_request] again. *)
Lemma request_loop_waiting (command : Z) (start : Q) ch r :
  forall k (c : ReplicaClient),
    channel c = Some ch -> replica_id c = Some r ->
    inbound (socket c) = [] ->
    (forall j, (j < k)%nat -> arrivals env (n_poll (socket c) + j) = []) ->
    exists c',
      request_loop deserialize env k command start c =
        (retries ch (Some r) command k, c', None) /\
      channel c' = Some ch /\ replica_id c' = Some r /\
      inbound (socket c') = [] /\
      n_poll (socket c') = (n_poll (socket c) + k)%nat /\
      n_now (socket c') = n_now (socket c).
Proof.
  induction k as [|k IH]; intros c Hch Hr Hin Hs.
  - exists c. simpl. rewrite Nat.add_0_r. auto 10.
  - assert (H0 : arrivals env (n_poll (socket c)) = []).
    { rewrite <- (Nat.add_0_r (n_poll (socket c))). apply Hs. lia. }
    cbn [request_loop].
    rewrite (request_turn_timeout command start c ch Hch Hin H0).
    match goal with |- context [request_loop _ _ _ _ _ ?x] => set (c1 := x) end.
    destruct (IH c1) as (c' & Hl & H1 & H2 & H3 & H4 & H5); auto.
    { intros j Hj. cbn. rewrite <- Nat.add_succ_r. apply Hs. lia. }
    exists c'. rewrite Hl, Hr, retries_S. cbn in H4, H5.
    repeat split; auto. rewrite H4. lia.
Qed.

(** Once a one-frame reply that decodes arrives, during the poll of turn
    [k], the loop returns it with the latency, after [k] retransmissions. *)
Lemma request_loop_answered (command : Z) (start : Q) ch r p rest rtn :
  forall k (c : ReplicaClient) fuel,
    channel c = Some ch -> replica_id c = Some r ->
    inbound (socket c) = [] ->
    (forall j, (j < k)%nat -> arrivals env (n_poll (socket c) + j) = []) ->
    arrivals env (n_poll (socket c) + k) = [p] :: rest ->
    deserialize p = Ok rtn ->
    (k < fuel)%nat ->
    exists c',
      request_loop deserialize env fuel command start c =
        (retries ch (Some r) command k
           ++ [EPoll 1000; ERecv false (Some [p]); ENow],
         c',
         Some (Ok ((clock env (n_now (socket c)) - start)%Q, rtn))).
Proof.
  induction k as [|k IH]; intros c fuel Hch Hr Hin Hs Ha Hd Hf;
    destruct fuel as [|fuel]; try lia.
  - rewrite Nat.add_0_r in Ha. cbn [request_loop].
    rewrite (request_turn_reply command start c p rest rtn Hin Ha Hd).
    eexists. reflexivity.
  - assert (H0 : arrivals env (n_poll (socket c)) = []).
    { rewrite <- (Nat.add_0_r (n_poll (socket c))). apply Hs. lia. }
    cbn [request_loop].
    rewrite (request_turn_timeout command start c ch Hch Hin H0).
    match goal with |- context [request_loop _ _ _ _ _ ?x] => set (c1 := x) end.
    destruct (IH c1 fuel) as (c' & Hl); auto; try lia.
    { intros j Hj. cbn. rewrite <- Nat.add_succ_r. apply Hs. lia. }
    { cbn. rewrite <- Nat.add_succ_r. exact Ha. }
    exists c'. rewrite Hl, Hr, retries_S, <- app_assoc. reflexivity.
Qed.

(** C9.  A call of [request] made once a replica is connected sends the
    request and then polls in windows of 1000 ms.  If the first message
    arrives during window [k] (a one-frame reply that decodes to [rtn]), the
    call has not returned after fewer than [k + 1] turns, and it returns
    within turn [k + 1]: the value is the time between the two readings of
    the clock together with [rtn], and between the first send and the
    reply the identical [client_request] was sent [k] more times, once after
    each window without a reply.  If nothing ever arrives, the call has not
    returned after any number of turns, and has sent the request once per
    turn. *)
Theorem request_returns_only_on_reply (command : Z) (c : ReplicaClient) r ch :
  replica_id c = Some r ->
  channel c = Some ch ->
  inbound (socket c) = [] ->
  let n0 := n_poll (socket c) in
  let t0 := n_now (socket c) in
  let first := [EClientRequest ch (Some r) command; ENow] in
  (forall k p rest rtn,
     (forall j, (j < k)%nat -> arrivals env (n0 + j) = []) ->
     arrivals env (n0 + k) = [p] :: rest ->
     deserialize p = Ok rtn ->
     (forall fuel, (fuel <= k)%nat ->
        exists c',
          request deserialize env fuel command c =
            (first ++ retries ch (Some r) command fuel, c', None)) /\
     (forall fuel, (k < fuel)%nat ->
        exists c',
          request deserialize env fuel command c =
            (first ++ retries ch (Some r) command k
               ++ [EPoll 1000; ERecv false (Some [p]); ENow],
             c',
             Some (Ok ((clock env (Datatypes.S t0) - clock env t0)%Q, rtn))))) /\
  ((forall j, arrivals env (n0 + j) = []) ->
   forall fuel, exists c',
     request deserialize env fuel command c =
       (first ++ retries ch (Some r) command fuel, c', None)).
Proof.
  intros Hr Hch Hin n0 t0 first. subst n0 t0.
  pose proof (request_start_run command c r ch Hr Hch) as Hst.
  match type of Hst with _ = (_, ?x, _) => set (c1 := x) in * end.
  assert (Hwait : forall fuel,
            (forall j, (j < fuel)%nat -> arrivals env (n_poll (socket c) + j) = []) ->
            exists c', request deserialize env fuel command c =
              (first ++ retries ch (Some r) command fuel, c', None)).
  { intros fuel Hs.
    destruct (request_loop_waiting command (clock env (n_now (socket c))) ch r fuel c1)
      as (c' & Hl & _); auto.
    exists c'. unfold request. rewrite Hst, Hl. reflexivity. }
  split.
  - intros k p rest rtn Hs Ha Hd. split.
    + intros fuel Hf. apply Hwait. intros j Hj. apply Hs. lia.
    + intros fuel Hf.
      destruct (request_loop_answered command (clock env (n_now (socket c))) ch r p rest rtn
                  k c1 fuel) as (c' & Hl); auto.
      exists c'. unfold request. rewrite Hst, Hl. reflexivity.
  - intros Hs fuel. apply Hwait. intros j _. apply Hs.
Qed.

Lemma request_loop_raises (command : Z) (start : Q) :
  forall fuel (c : ReplicaClient) ev c' e,
    request_loop deserialize env fuel command start c =
      (ev, c', Some (Raise e)) ->
    e = AttributeError \/ e = ValueError \/
    exists p, deserialize p = Raise e.
Proof.
  induction fuel as [|fuel IH]; intros c ev c' e H.
  - discriminate.
  - cbn [request_loop] in H.
    destruct (request_turn deserialize env command start c)
      as [[ev1 c1] [[v|]|e1]] eqn:Ht.
    + discriminate.
    + destruct (request_loop deserialize env fuel command start c1)
        as [[ev2 c2] r2] eqn:Hl.
      inversion H; subst. eapply IH; eauto.
    + inversion H; subst. eapply request_turn_raises; eauto.
Qed.

Lemma request_not_connected (fuel : nat) (command : Z) (c : ReplicaClient) :
  replica_id c = None ->
  request deserialize env fuel command c = ([], c, Some (Raise AssertionError)).
Proof.
  intros H. cbv [request request_start bind get raise]. now rewrite H.
Qed.

Lemma request_connected (fuel : nat) (command : Z) (c : ReplicaClient)
    r ev c' :
  replica_id c = Some r ->
  request deserialize env fuel command c = (ev, c', Some (Raise AssertionError)) ->
  ev <> [] /\ exists p, deserialize p = Raise AssertionError.
Proof.
  intros Hr H. unfold request in H.
  destruct (channel c) as [ch|] eqn:Hch.
  - rewrite (request_start_run command c r ch Hr Hch) in H.
    match type of H with context [request_loop _ _ _ _ _ ?x] => set (c1 := x) in * end.
    destruct (request_loop deserialize env fuel command
                (clock env (n_now (socket c))) c1) as [[ev2 c2] r2] eqn:Hl.
    inversion H; subst. split; [discriminate|].
    apply request_loop_raises in Hl as [Hl | [Hl | Hl]];
      [discriminate | discriminate | exact Hl].
  - cbv [request_start bind get client_request raise] in H.
    rewrite Hr, Hch in H. discriminate.
Qed.

(** C8.  [request] raises the [AssertionError] of its first line exactly
    when it is called on a client whose [replica_id] is [None]: the call
    then ends at once, before anything is sent.  On a client with a replica
    id no [AssertionError] comes out of [request] but one that [deserialize]
    itself would raise, and the assertion of the first line does not fire;
    after a [connect] that returned, [replica_id] is not [None]. *)
Theorem request_asserts_iff_not_connected (fuel : nat) (command : Z)
    (c : ReplicaClient) :
  (request deserialize env fuel command c =
     ([], c, Some (Raise AssertionError)) <-> replica_id c = None) /\
  (forall ev c',
     request deserialize env fuel command c =
       (ev, c', Some (Raise AssertionError)) ->
     replica_id c = None \/ exists p, deserialize p = Raise AssertionError) /\
  (forall rid rnd c0 ev0,
     connect env rid rnd c0 = (ev0, c, Ok tt) ->
     replica_id c <> None /\
     request deserialize env fuel command c <>
       ([], c, Some (Raise AssertionError))).
Proof.
  assert (Hiff : request deserialize env fuel command c =
                   ([], c, Some (Raise AssertionError)) ->
                 replica_id c = None).
  { intros H. destruct (replica_id c) as [r|] eqn:Hr; [|reflexivity].
    destruct (request_connected fuel command c r _ _ Hr H) as [Hne _].
    now contradiction Hne. }
  split; [split; [exact Hiff | apply request_not_connected]|].
  split.
  - intros ev c' H. destruct (replica_id c) as [r|] eqn:Hr; [|now left].
    right. eapply request_connected; eauto.
  - intros rid rnd c0 ev0 H.
    apply connect_ok in H as (r & ch & Hr & _).
    split; [congruence|]. intros Hc. apply Hiff in Hc. congruence.
Qed.

End WithReply.

(** *** The theorems at work on the small client *)

Import Example.

Lemma request_returns_only_on_reply_witness :
  replica_id connected_client = Some 2%Z /\
  channel connected_client = Some 0%nat /\
  inbound (socket connected_client) = [] /\
  (exists c',
     request toy_deserialize env_reply 3 7 connected_client =
       ([EClientRequest 0 (Some 2%Z) 7; ENow]
          ++ retries 0 (Some 2%Z) 7 2
          ++ [EPoll 1000; ERecv false (Some [pkt_a]); ENow],
        c',
        Some (Ok ((clock env_reply 1 - clock env_reply 0)%Q, pkt_a)))) /\
  (forall fuel, exists c',
     request toy_deserialize env_silent fuel 7 connected_client =
       ([EClientRequest 0 (Some 2%Z) 7; ENow]
          ++ retries 0 (Some 2%Z) 7 fuel, c', None)).
Proof.
  assert (H1 : replica_id connected_client = Some 2%Z) by reflexivity.
  assert (H2 : channel connected_client = Some 0%nat) by reflexivity.
  assert (H3 : inbound (socket connected_client) = []) by reflexivity.
  split; [exact H1|]. split; [exact H2|]. split; [exact H3|]. split.
  - destruct (request_returns_only_on_reply toy_deserialize env_reply 7
                connected_client 2 0 H1 H2 H3) as [Hreply _].
    destruct (Hreply 2%nat pkt_a [] pkt_a) as [_ Hret].
    + intros j Hj. destruct j as [|[|j]]; [reflexivity | reflexivity | lia].
    + reflexivity.
    + reflexivity.
    + apply (Hret 3%nat). lia.
  - destruct (request_returns_only_on_reply toy_deserialize env_silent 7
                connected_client 2 0 H1 H2 H3) as [_ Hnever].
    apply Hnever. intros j. reflexivity.
Defined.

Lemma connect_again_witness :
  exists ev1 c1 ev2 c2 res,
    connect env_silent (Some 2%Z) 0 toy_client = (ev1, c1, Ok tt) /\
    connect env_silent (Some 3%Z) 0 c1 = (ev2, c2, res) /\
    replica_id c2 = Some 3%Z /\ channel c2 <> channel c1 /\
    ev2 = [EDisconnect "tcp://0.0.0.0:60002"; EConnect "tcp://0.0.0.0:60003"].
Proof.
  destruct (connect env_silent (Some 2%Z) 0 toy_client)
    as [[ev1 c1] r1] eqn:E1.
  assert (Hr1 : r1 = Ok tt) by (vm_compute in E1; congruence).
  subst r1.
  destruct (connect env_silent (Some 3%Z) 0 c1) as [[ev2 c2] res] eqn:E2.
  exists ev1, c1, ev2, c2, res.
  split; [reflexivity|]. split; [exact E2|].
  destruct (connect_again env_silent toy_client 2 3 0 0 ev1 c1 ev2 c2 res
              E1 E2)
    as (Hid & _ & Hch & a1 & Ha1 & _ & Hnz & _).
  split; [exact Hid|]. split; [exact Hch|].
  destruct (Hnz ltac:(discriminate)) as (rest & -> & _ & Hrest).
  vm_compute in Ha1. injection Ha1 as <-.
  change (peer_addr toy_client !! 3%Z) with (replicas !! 3%Z) in Hrest.
  vm_compute in Hrest. destruct Hrest as (-> & _). reflexivity.
Defined.

(** A first replica with the id 0 is not disconnected from. *)
Lemma connect_after_zero :
  let c1 := snd (fst (connect env_silent (Some 0%Z) 0 zero_client)) in
  let run := connect env_silent (Some 1%Z) 0 c1 in
  fst (fst run) = [EConnect "tcp://0.0.0.0:60001"] /\
  endpoints (socket (snd (fst run))) =
    ["tcp://0.0.0.0:60000"; "tcp://0.0.0.0:60001"] /\
  replica_id (snd (fst run)) = Some 1%Z /\
  channel c1 = Some 0%nat /\ channel (snd (fst run)) = Some 1%nat.
Proof. vm_compute. repeat split; reflexivity. Qed.

Lemma request_before_connect :
  request toy_deserialize env_reply 3 7 toy_client =
    ([], toy_client, Some (Raise AssertionError)) /\
  replica_id toy_client = None.
Proof.
  split; [|reflexivity].
  apply (request_asserts_iff_not_connected toy_deserialize env_reply 3 7
           toy_client). reflexivity.
Defined.

End ClientFacts.

(** * Further properties of impl.py and peer.py *)

(** ** ReplicaServer: connecting, the loop as a whole, the bookkeeping *)
Module ServerMore.
Import Zmq Server Basics ServerFacts.

Section WithReplica.
Context {R : Type} (ops : Replica R) (env : Env).

Abbreviation S := (ReplicaServer R).

(** The loop of [ReplicaServer.connect] over a list of entries: the
    addresses of the entries of another id, in order, up to the first one
    that zmq refuses. *)
Lemma connect_entries (me : Z) (l : Dict) :
  forall (s : S) ev s' r,
    replica_id ops (replica s) = me ->
    for_each
      (fun pa : Z * ReplicaAddress =>
         bind (read (replica_id ops))
              (fun me' => if (fst pa =? me')%Z then ret tt
                          else sock_connect env socket set_socket
                                 (replica_addr (snd pa)))) l s
      = (ev, s', r) ->
    let others :=
      List.map (fun pa => replica_addr (snd pa))
        (List.filter (fun pa => negb (fst pa =? me)%Z) l) in
    replica s' = replica s /\ peer_addr s' = peer_addr s /\
    state_call s' = state_call s /\
    inbound (socket s') = inbound (socket s) /\
    n_now (socket s') = n_now (socket s) /\
    n_poll (socket s') = n_poll (socket s) /\
    ((r = Ok tt /\ forallb (accepts env) others = true /\
      ev = List.map EConnect others /\
      endpoints (socket s') = endpoints (socket s) ++ others) \/
     (exists pre a post,
        others = pre ++ a :: post /\
        forallb (accepts env) pre = true /\ accepts env a = false /\
        r = Raise ZMQError /\
        ev = List.map EConnect (pre ++ [a]) /\
        endpoints (socket s') = endpoints (socket s) ++ pre)).
Proof.
  induction l as [|pa l IH]; intros s ev s' r Hme H.
  - inversion H; subst. cbn. rewrite app_nil_r. repeat split; auto.
  - cbn [for_each] in H. unfold bind at 1 in H. unfold bind at 1 in H.
    unfold read at 1 in H. rewrite Hme in H. cbn [List.filter].
    destruct (fst pa =? me)%Z; cbn [negb].
    + unfold ret at 1 in H.
      destruct (for_each _ l s) as [[ev2 s2] r2] eqn:Hl.
      inversion H; subst ev s' r. clear H. cbn [app].
      exact (IH s ev2 s2 r2 Hme Hl).
    + unfold sock_connect at 1 in H. cbn [List.map forallb].
      destruct (accepts env (replica_addr (snd pa))) eqn:Ea.
      * match type of H with context [for_each _ l ?x] => set (s1 := x) in * end.
        destruct (for_each _ l s1) as [[ev2 s2] r2] eqn:Hl.
        inversion H; subst ev s' r. clear H.
        apply (IH s1 ev2 s2 r2 Hme) in Hl.
        destruct Hl as (H1 & H2 & H3 & H4 & H5 & H6 & Hl).
        cbn [replica peer_addr state_call socket set_socket s1 inbound n_now
             n_poll endpoints] in *.
        repeat (split; [assumption|]).
        destruct Hl as [(-> & Hall & -> & Hep) |
                        (pre & a & post & Ho & Hall & Hrej & -> & -> & Hep)].
        -- left. rewrite Hep, <- app_assoc. auto.
        -- right. exists (replica_addr (snd pa) :: pre), a, post.
           rewrite Ho, Hep, <- app_assoc. cbn [forallb]. rewrite Ea, Hall.
           auto 10.
      * inversion H; subst ev s' r. clear H.
        repeat (split; [reflexivity|]). right.
        eexists [], _, _. split; [reflexivity|]. rewrite app_nil_r. auto.
Qed.

Lemma others_length (me : Z) (l : Dict) :
  NoDup (keys l) ->
  length (List.filter (fun pa : Z * ReplicaAddress => negb (fst pa =? me)%Z) l)
  = match l !! me with
    | Some _ => pred (length l)
    | None => length l
    end.
Proof.
  unfold lookup, dict_lookup, dict_get, keys.
  induction l as [|[k a] l IH]; intros Hnd; [reflexivity|].
  cbn [List.map fst] in Hnd. apply NoDup_cons in Hnd as [Hk Hnd].
  cbn [List.filter List.find fst snd length].
  destruct (k =? me)%Z eqn:E; cbn [negb].
  - apply Z.eqb_eq in E. subst k. cbn [pred].
    rewrite IH by exact Hnd.
    destruct (List.find (fun kv : Z * ReplicaAddress => (fst kv =? me)%Z) l)
      as [[k' a']|] eqn:Ef; [|reflexivity].
    exfalso. apply find_some in Ef as [Hin Heq]. cbn in Heq.
    apply Z.eqb_eq in Heq. subst k'. apply Hk.
    apply list_elem_of_In. apply in_map_iff. exists (me, a'). auto.
  - cbn [length]. rewrite IH by exact Hnd.
    destruct (List.find _ l) as [kv|] eqn:Ef; [|reflexivity].
    apply find_some in Ef as [Hin _]. destruct l; [destruct Hin | reflexivity].
Qed.

(** X1.  [ReplicaServer.connect] goes through [peer_addr] in the order of
    the dict and connects to the address of each entry whose id is not the
    replica's own.  When zmq accepts all these addresses it returns, having
    connected to each of them, once per entry and in that order (to all
    entries but one when its own id is among the keys).  Otherwise it stops
    at the first address zmq refuses, with a [ZMQError]: it has connected to
    the addresses before that one and tries none after it.  It raises
    nothing else and touches nothing but the socket's endpoints. *)
Theorem connect_reaches_other_peers (s : S) ev s' r :
  connect ops env s = (ev, s', r) ->
  let me := replica_id ops (replica s) in
  let others :=
    List.map (fun pa => replica_addr (snd pa))
      (List.filter (fun pa => negb (fst pa =? me)%Z) (peer_addr s)) in
  replica s' = replica s /\ peer_addr s' = peer_addr s /\
  inbound (socket s') = inbound (socket s) /\
  (r = Ok tt <-> forallb (accepts env) others = true) /\
  (r = Ok tt ->
     ev = List.map EConnect others /\
     endpoints (socket s') = endpoints (socket s) ++ others) /\
  (r <> Ok tt ->
     r = Raise ZMQError /\
     exists pre a post,
       others = pre ++ a :: post /\
       forallb (accepts env) pre = true /\ accepts env a = false /\
       ev = List.map EConnect (pre ++ [a]) /\
       endpoints (socket s') = endpoints (socket s) ++ pre) /\
  (NoDup (keys (peer_addr s)) ->
   length others = match peer_addr s !! me with
                   | Some _ => pred (length (peer_addr s))
                   | None => length (peer_addr s)
                   end).
Proof.
  intros H me others. unfold connect, bind at 1, get at 1 in H.
  destruct (for_each _ (peer_addr s) s) as [[ev1 s1] r1] eqn:Hl.
  cbn [app] in H. inversion H; subst ev s' r. clear H.
  apply (connect_entries me) in Hl; [|reflexivity]. cbv zeta in Hl.
  fold others in Hl.
  destruct Hl as (H1 & H2 & _ & H4 & _ & _ & Hl).
  split; [exact H1|]. split; [exact H2|]. split; [exact H4|].
  assert (Hrej : forall pre a post,
            others = pre ++ a :: post -> accepts env a = false ->
            forallb (accepts env) others = false).
  { intros pre a post -> Ha. rewrite forallb_app. cbn [forallb].
    rewrite Ha. now rewrite andb_false_r. }
  destruct Hl as [(-> & Hall & -> & Hep) |
                  (pre & a & post & Ho & Hall & Ha & -> & -> & Hep)].
  - split; [tauto|]. split; [auto|]. split; [intros Hc; now contradiction Hc|].
    intros Hn. unfold others. rewrite length_map. now apply others_length.
  - rewrite (Hrej pre a post Ho Ha).
    split; [split; intros Hc; discriminate Hc|].
    split; [intros Hc; discriminate Hc|].
    split; [intros _; split; [reflexivity|]; exists pre, a, post; auto|].
    intros Hn. unfold others. rewrite length_map. now apply others_length.
Qed.

(** How often an iteration does something that only the poll, or nothing
    in the loop, does. *)
Lemma main_iter_counts (f : Event -> bool) (l : Locals) (s : S) ev s' r :
  (forall e, receiving e -> f e = false) ->
  f EMinimumWait = false -> f ENow = false -> f ETick = false ->
  f ECheckTimeouts = false -> (forall t, f (EPrint t) = false) ->
  main_iter ops env l s = (ev, s', r) ->
  count f ev = (if f (EPoll (wait_of ops l s * 1000)) then 1 else 0)%nat /\
  n_poll (socket s') = Datatypes.S (n_poll (socket s)).
Proof.
  intros Hrecv H1 H2 H3 H4 H5 H.
  apply main_iter_spec in H
    as (evt & evr & evp & rr & -> & Ht & Hr & Hp & Hn & _).
  split; [|exact Hn].
  assert (Hevt : count f evt = 0%nat).
  { destruct (Qltb _ _); [|subst; reflexivity].
    inversion Ht; subst; unfold count; simpl; rewrite ?H2, ?H3, ?H4; reflexivity. }
  assert (Hevr : count f evr = 0%nat).
  { destruct Hr as [-> | [_ Hr]]; [reflexivity|].
    eapply count_none; [exact Hrecv | eapply receive_trace_receiving; eauto]. }
  assert (Hevp : count f evp = 0%nat).
  { destruct Hp as [-> | [t ->]]; [reflexivity|].
    unfold count. simpl. rewrite H2, H5. reflexivity. }
  rewrite !count_app, Hevt, Hevr, Hevp. unfold count. simpl.
  rewrite H1, H2. destruct (f (EPoll _)); reflexivity.
Qed.

Lemma main_loop_counts (fuel : nat) (l : Locals) (s : S) ev s' r :
  main_loop ops env fuel l s = (ev, s', r) ->
  n_poll (socket s') = (n_poll (socket s) + count is_poll ev)%nat /\
  count is_log ev = 0%nat /\
  (r = None -> count is_poll ev = fuel) /\
  (forall e, r = Some e -> (1 <= count is_poll ev <= fuel)%nat).
Proof.
  revert l s ev s' r. induction fuel as [|fuel IH]; intros l s ev s' r H.
  - inversion H; subst. simpl. rewrite Nat.add_0_r.
    repeat split; auto; discriminate.
  - cbn [main_loop] in H.
    destruct (main_iter ops env l s) as [[ev1 s1] r1] eqn:Hit.
    assert (Hp : count is_poll ev1 = 1%nat /\
                 n_poll (socket s1) = Datatypes.S (n_poll (socket s))).
    { eapply (main_iter_counts is_poll); eauto. intros [] He; auto; destruct He. }
    assert (Hg : count is_log ev1 = 0%nat).
    { eapply (main_iter_counts is_log); eauto. intros [] He; auto; destruct He. }
    destruct Hp as [Hp Hn].
    destruct r1 as [l1|e1].
    + destruct (main_loop ops env fuel l1 s1) as [[ev2 s2] r2] eqn:Hl.
      inversion H; subst ev s' r. clear H.
      apply IH in Hl as (Hn2 & Hg2 & Hnone & Hsome).
      rewrite !count_app, Hp, Hg, Hg2, Hn2, Hn.
      split; [lia|]. split; [reflexivity|]. split.
      * intros Hr. rewrite (Hnone Hr). reflexivity.
      * intros e He. specialize (Hsome e He). lia.
    + inversion H; subst ev s' r. rewrite Hp, Hg, Hn.
      split; [lia|]. split; [reflexivity|]. split; [discriminate|].
      intros e _. lia.
Qed.

(** X2.  Every iteration of the loop of [main] polls exactly once: while
    the loop runs, the number of polls is the number of iterations; when an
    exception has ended it, at least one poll was made and at most one per
    iteration.  The loop itself logs nothing and dumps no profile. *)
Theorem main_loop_polls_once_per_iteration (fuel : nat) (l : Locals) (s : S)
    ev s' r :
  main_loop ops env fuel l s = (ev, s', r) ->
  n_poll (socket s') = (n_poll (socket s) + count is_poll ev)%nat /\
  count is_log ev = 0%nat /\
  (r = None -> count is_poll ev = fuel) /\
  (forall e, r = Some e -> (1 <= count is_poll ev <= fuel)%nat).
Proof. apply main_loop_counts. Qed.



(** The value of lines 94-97: the reading of the clock taken after
    [check_timeouts()] when a tick is due, the old [last_tick_time]
    otherwise. *)
Lemma tick_block_value (l : Locals) (delta : Q) (s : S) ev s' t :
  tick_block ops env l delta s = (ev, s', Ok t) ->
  t = (if Qltb (seconds_per_tick ops (replica s)) delta
       then clock env (n_now (socket s)) else last_tick_time l) /\
  count is_print ev = 0%nat.
Proof.
  unfold tick_block, bind at 1, read. simpl.
  destruct (Qltb (seconds_per_tick ops (replica s)) delta).
  2:{ intros H; inversion H; subst; auto. }
  unfold bind at 1, call at 1.
  destruct (tick ops (replica s)) as [r1|e]; [|discriminate].
  unfold bind at 1, call at 1. simpl.
  destruct (check_timeouts ops r1) as [r2|e]; [|discriminate].
  unfold now. simpl. intros H; inversion H; subst. auto.
Qed.

(** What the status line did, when it did not raise. *)
Lemma report_cases (l : Locals) (s : S) evp s' lt :
  report ops env l s = (evp, s', Ok lt) ->
  let t := ticks ops (replica s) in
  let j := jiffies ops (replica s) in
  (t = last_tick l /\ lt = last_tick l /\ evp = []) \/
  (t <> last_tick l /\ (j * 30 <> 0)%Z /\ (t mod (j * 30) = 0)%Z /\
   lt = t /\ evp = [ENow; EPrint t]) \/
  (t <> last_tick l /\ (j * 30 <> 0)%Z /\ (t mod (j * 30) <> 0)%Z /\
   lt = last_tick l /\ evp = []).
Proof.
  unfold report, read, bind, ret, raise, emit, now. simpl.
  destruct (ticks ops (replica s) =? last_tick l)%Z eqn:E1.
  { apply Z.eqb_eq in E1. intros H; inversion H; subst; auto. }
  apply Z.eqb_neq in E1.
  destruct (jiffies ops (replica s) * 30 =? 0)%Z eqn:E2; [discriminate|].
  apply Z.eqb_neq in E2.
  destruct (ticks ops (replica s) mod (jiffies ops (replica s) * 30) =? 0)%Z
    eqn:E3.
  - apply Z.eqb_eq in E3. intros H; inversion H; subst. right. left. auto.
  - apply Z.eqb_neq in E3. intros H; inversion H; subst. right. right. auto.
Qed.

(** A completed iteration, seen from its end: the status line is the last
    thing done, on the replica as the iteration leaves it. *)
Lemma main_iter_ok_end (l : Locals) (s : S) ev s' l' :
  main_iter ops env l s = (ev, s', Ok l') ->
  exists s3 ev0 evp,
    ev = ev0 ++ evp /\ count is_print ev0 = 0%nat /\
    report ops env l s3 = (evp, s', Ok (last_tick l')) /\
    replica s3 = replica s' /\
    poll_delta l' = elapsed env l s /\
    last_tick_time l' =
      (if Qltb (seconds_per_tick ops (replica s)) (elapsed env l s)
       then clock env (Datatypes.S (n_now (socket s)))
       else last_tick_time l).
Proof.
  unfold main_iter. intros H.
  rewrite (bind_ok _ _ _ _ _ _ (wait_block_run ops env l s)) in H.
  cbn [fst snd] in H.
  match type of H with context [bind _ _ ?x] => set (s1 := x) in * end.
  assert (Hrep1 : replica s1 = replica s) by reflexivity.
  assert (Hnow1 : n_now (socket s1) = Datatypes.S (n_now (socket s)))
    by reflexivity.
  clearbody s1.
  unfold bind at 1 in H.
  destruct (tick_block ops env l (elapsed env l s) s1) as [[evt s2] rt] eqn:Ht.
  destruct rt as [ltt|e]; [|discriminate].
  apply tick_block_value in Ht as (Hltt & Hpt). rewrite Hrep1, Hnow1 in Hltt.
  unfold bind at 1 in H.
  destruct (receive_block ops _ s2) as [[evr s3] rr] eqn:Hr.
  destruct rr as [[]|e]; [|discriminate].
  assert (Hpr : count is_print evr = 0%nat).
  { apply receive_block_spec in Hr as (_ & _ & Hr).
    destruct (match queue_after_poll env s with [] => false | _ => true end).
    - eapply count_none; [|eapply receive_trace_receiving; eauto].
      intros [] He; auto; destruct He.
    - destruct Hr as (-> & _). reflexivity. }
  unfold bind at 1 in H.
  destruct (report ops env l s3) as [[evp s4] rp] eqn:Hp.
  destruct rp as [lt|e]; [|discriminate].
  inversion H; subst ev s' l'. clear H. cbn [last_tick poll_delta last_tick_time].
  exists s3, ([EMinimumWait; EPoll (wait_of ops l s * 1000); ENow] ++ evt ++ evr),
         evp.
  split; [rewrite app_nil_r, <- !app_assoc; reflexivity|].
  split; [rewrite !count_app, Hpt, Hpr; reflexivity|].
  split; [exact Hp|].
  split; [apply report_spec in Hp as (Hrep & _); now rewrite Hrep|].
  split; [reflexivity | exact Hltt].
Qed.

(** X4.  The status line of [main] (lines 118-128) in an iteration that
    completes: it is printed, as the last thing of the iteration, exactly
    when the tick counter differs from [last_tick] and is a multiple of
    [jiffies * 30]; [last_tick] becomes the tick counter then and is kept
    otherwise.  An iteration cannot complete with the tick counter different
    from [last_tick] while [jiffies * 30] is zero: the modulo raises. *)
Theorem main_iter_status_line (l : Locals) (s : S) ev s' l' :
  main_iter ops env l s = (ev, s', Ok l') ->
  let t := ticks ops (replica s') in
  let j := jiffies ops (replica s') in
  (t = last_tick l \/ (j * 30 <> 0)%Z) /\
  (count is_print ev = 1%nat <->
     t <> last_tick l /\ (t mod (j * 30) = 0)%Z) /\
  (count is_print ev = 1%nat ->
     last ev = Some (EPrint t) /\ last_tick l' = t) /\
  (count is_print ev <> 1%nat ->
     count is_print ev = 0%nat /\ last_tick l' = last_tick l).
Proof.
  intros H t j.
  apply main_iter_ok_end in H
    as (s3 & ev0 & evp & -> & H0 & Hp & Hrep & _ & _).
  apply report_cases in Hp. rewrite Hrep in Hp. cbv zeta in Hp.
  fold t j in Hp. rewrite count_app, H0.
  destruct Hp as [(Ht & Hl & ->) | [(Ht & Hj & Hm & Hl & ->) | (Ht & Hj & Hm & Hl & ->)]];
    rewrite Hl; cbn.
  - split; [now left|]. split; [split; [discriminate | tauto]|].
    split; [discriminate | auto].
  - split; [now right|]. split; [tauto|]. split; [|intros Hc; now contradiction Hc].
    intros _. split; [|reflexivity].
    change [ENow; EPrint t] with ([ENow] ++ [EPrint t]).
    rewrite app_assoc. apply last_snoc.
  - split; [now right|]. split; [split; [discriminate | tauto]|].
    split; [discriminate | auto].
Qed.

(** X5.  The clock bookkeeping of an iteration that completes:
    [poll_delta] becomes the time between [last_tick_time] and the reading
    taken when the poll returned; [last_tick_time] moves only when the
    iteration ticks, to the reading taken after [check_timeouts()].  As
    [poll_delta] then still holds the time measured before the tick, the
    next iteration polls without waiting (given that [seconds_per_tick] has
    not changed and the timeout store reports no negative wait). *)
Theorem main_iter_clock (l : Locals) (s : S) ev s' l' :
  main_iter ops env l s = (ev, s', Ok l') ->
  let spt := seconds_per_tick ops (replica s) in
  poll_delta l' = elapsed env l s /\
  (~ (spt < elapsed env l s)%Q -> last_tick_time l' = last_tick_time l) /\
  ((spt < elapsed env l s)%Q ->
     last_tick_time l' = clock env (Datatypes.S (n_now (socket s))) /\
     (seconds_per_tick ops (replica s') = spt ->
      (forall w, check_timeouts_minimum_wait ops (replica s') = Some w ->
                 (0 <= w)%Q) ->
      wait_of ops l' s' = 0%Q)).
Proof.
  intros H spt.
  apply main_iter_ok_end in H
    as (s3 & ev0 & evp & _ & _ & _ & _ & Hpd & Hltt).
  fold spt in Hltt.
  split; [exact Hpd|]. split.
  - intros Hn. destruct (Qltb spt (elapsed env l s)) eqn:E; [|exact Hltt].
    apply Qltb_lt in E. contradiction.
  - intros Hlt. pose proof Hlt as E. apply Qltb_lt in E. rewrite E in Hltt.
    split; [exact Hltt|]. intros Hspt Hw.
    unfold wait_of, poll_wait. rewrite Hspt, Hpd.
    assert (Hi : py_max 0 (spt - elapsed env l s) = 0%Q).
    { unfold py_max. destruct (Qltb 0 (spt - elapsed env l s)) eqn:E0;
        [|reflexivity].
      apply Qltb_lt in E0. lra. }
    rewrite Hi.
    destruct (check_timeouts_minimum_wait ops (replica s')) as [w|] eqn:Ew;
      [|reflexivity].
    destruct (truthy w) eqn:Etw; [|reflexivity].
    apply truthy_nonzero in Etw. specialize (Hw w eq_refl).
    unfold py_min. destruct (Qltb 0 w) eqn:E0; [reflexivity|].
    apply Qltb_ge in E0. exfalso. apply Etw. lra.
Qed.

(** X6.  The wait handed to the poll is never more than the remaining tick
    interval [max(0, seconds_per_tick - poll_delta)], which is never
    negative; it is negative exactly when the timeout store reports a
    negative wait, which is then handed to the poll as it is. *)
Theorem poll_wait_bounds (min_wait : option Q) (spt delta : Q) :
  let interval := py_max 0 (spt - delta) in
  (0 <= interval)%Q /\
  (poll_wait min_wait spt delta <= interval)%Q /\
  ((poll_wait min_wait spt delta < 0)%Q <->
     exists w, min_wait = Some w /\ (w < 0)%Q) /\
  (forall w, min_wait = Some w -> (w < 0)%Q ->
             poll_wait min_wait spt delta = w).
Proof.
  intros interval.
  assert (Hi : (0 <= interval)%Q) by apply py_max_spec.
  assert (Hneg : forall w, (w < 0)%Q -> poll_wait (Some w) spt delta = w).
  { intros w Hw. unfold poll_wait. fold interval.
    assert (Et : truthy w = true).
    { apply truthy_nonzero. intros Hz. lra. }
    rewrite Et. unfold py_min. destruct (Qltb interval w) eqn:E; [|reflexivity].
    apply Qltb_lt in E. lra. }
  split; [exact Hi|]. split; [|split].
  - unfold poll_wait. fold interval. destruct min_wait as [w|]; [|lra].
    destruct (truthy w); [apply py_min_spec | lra].
  - split.
    + unfold poll_wait. fold interval. destruct min_wait as [w|]; [|lra].
      destruct (truthy w); [|lra].
      intros H. exists w. split; [reflexivity|].
      destruct (py_min_spec w interval) as (_ & _ & [E|E]); rewrite E in H; lra.
    + intros (w & -> & Hw). rewrite (Hneg w Hw). exact Hw.
  - intros w -> Hw. apply Hneg, Hw.
Qed.

End WithReplica.

(** *** On the small replica *)

Import Example.

Lemma connect_reaches_other_peers_witness :
  exists ev s',
    connect toy env_two stray_server = (ev, s', Raise ZMQError) /\
    ev = [EConnect "tcp://0.0.0.0:60002"; EConnect "tcp://0.0.0.0:60003";
          EConnect "nonsense"] /\
    endpoints (socket s') = ["tcp://0.0.0.0:60002"; "tcp://0.0.0.0:60003"].
Proof.
  destruct (connect toy env_two stray_server) as [[ev s'] r] eqn:H.
  destruct (connect_reaches_other_peers toy env_two stray_server ev s' r H)
    as (_ & _ & _ & Hiff & _ & Hno & _).
  assert (Hr : r <> Ok tt).
  { intros Hc. apply Hiff in Hc. vm_compute in Hc. discriminate Hc. }
  destruct (Hno Hr) as (-> & pre & a & post & Ho & Hall & Ha & -> & Hep).
  exists (List.map EConnect (pre ++ [a])), s'. split; [reflexivity|].
  rewrite Hep. vm_compute in Ho.
  destruct pre as [|a1 [|a2 [|a3 pre]]]; cbn in Ho.
  - injection Ho as <- _. vm_compute in Ha. discriminate Ha.
  - injection Ho as <- <- _. vm_compute in Ha. discriminate Ha.
  - injection Ho as <- <- <- _. split; reflexivity.
  - injection Ho as _ _ _ Ho. destruct pre; discriminate Ho.
Defined.

Lemma main_loop_polls_once_per_iteration_witness :
  exists ev s',
    main_loop toy env_two 3 start_locals toy_server = (ev, s', None) /\
    count is_poll ev = 3%nat.
Proof.
  destruct (main_loop toy env_two 3 start_locals toy_server)
    as [[ev s'] r] eqn:H.
  assert (Hr : r = None) by (vm_compute in H; congruence). subst r.
  exists ev, s'. split; [reflexivity|].
  destruct (main_loop_polls_once_per_iteration toy env_two 3 start_locals
              toy_server ev s' None H) as (_ & _ & Hn & _).
  apply Hn. reflexivity.
Defined.


Lemma main_iter_status_line_witness :
  exists ev s' l',
    main_iter toy env_two unprinted_locals toy_server = (ev, s', Ok l') /\
    count is_print ev = 1%nat /\ last_tick l' = 0%Z.
Proof.
  destruct (main_iter toy env_two unprinted_locals toy_server)
    as [[ev s'] r] eqn:H.
  assert (Hr : exists l', r = Ok l').
  { pose proof H as H'. vm_compute in H'. inversion H'. eauto. }
  destruct Hr as [l' ->]. exists ev, s', l'. split; [reflexivity|].
  destruct (main_iter_status_line toy env_two unprinted_locals toy_server
              ev s' l' H) as (_ & Hiff & Hyes & _).
  assert (Hst : ticks toy (replica s') = 0%Z).
  { pose proof H as H'. vm_compute in H'. inversion H'. reflexivity. }
  assert (Hc : count is_print ev = 1%nat).
  { apply Hiff. rewrite Hst. split; [discriminate | reflexivity]. }
  split; [exact Hc|]. destruct (Hyes Hc) as [_ Hl]. now rewrite Hl.
Defined.

Lemma main_iter_clock_witness :
  exists ev s' l',
    main_iter toy env_two late_locals toy_server = (ev, s', Ok l') /\
    last_tick_time l' = clock env_two 1 /\
    wait_of toy l' s' = 0%Q.
Proof.
  destruct (main_iter toy env_two late_locals toy_server)
    as [[ev s'] r] eqn:H.
  assert (Hr : exists l', r = Ok l').
  { pose proof H as H'. vm_compute in H'. inversion H'. eauto. }
  destruct Hr as [l' ->]. exists ev, s', l'. split; [reflexivity|].
  destruct (main_iter_clock toy env_two late_locals toy_server ev s' l' H)
    as (_ & _ & Htick).
  destruct Htick as [Hltt Hwait]; [vm_compute; reflexivity|].
  split; [exact Hltt|]. apply Hwait; [reflexivity|].
  intros w Hw. simpl in Hw.
  destruct (toy_ticks (replica s') =? 0)%Z; inversion Hw; subst.
  vm_compute. discriminate.
Defined.

End ServerMore.

(** ** ReplicaClient: connecting in all its cases, replies that are not
    the awaited one *)
Module ClientMore.
Import Zmq Client Basics ClientFacts.

Lemma key_has_address (d : Dict) (r : Z) :
  In r (keys d) -> exists a, d !! r = Some a.
Proof.
  unfold lookup, dict_lookup, dict_get, keys.
  induction d as [|[k a] d IH]; intros Hin; [destruct Hin|].
  cbn [List.find fst snd]. destruct (k =? r)%Z eqn:E; [eauto|].
  destruct Hin as [Hk | Hin]; [|auto].
  cbn in Hk. subst k. rewrite Z.eqb_refl in E. discriminate E.
Qed.

(** [connect()] goes on as [connect(id)] with an id that has an address. *)
Lemma connect_random_key (env : Env) (rnd : nat) (c : ReplicaClient)
    ev c' res :
  connect env None rnd c = (ev, c', res) ->
  (res = Raise IndexError /\ c' = c /\ ev = [] /\ peer_addr c = []) \/
  exists r a, In r (keys (peer_addr c)) /\ peer_addr c !! r = Some a /\
              connect env (Some r) rnd c = (ev, c', res).
Proof.
  intros H. apply connect_random in H as [H | (r & Hin & H)]; [now left|].
  right. destruct (key_has_address _ _ Hin) as [a Ha]. eauto.
Qed.

(** X7.  [connect()] without an id, on a client that was never connected:
    with no peer address it raises [IndexError] and changes nothing;
    otherwise the replica chosen is one of the keys, it has an address, and
    the only thing done to the socket is a [connect] to that address.  When
    zmq accepts the address the call returns and the socket has that one
    connection more; when zmq refuses it the call ends in a [ZMQError] with
    the socket as it was, but [replica_id] is the replica chosen and a
    channel is installed all the same. *)
Theorem connect_without_id (env : Env) (rnd : nat) (c : ReplicaClient)
    ev c' res :
  replica_id c = None ->
  connect env None rnd c = (ev, c', res) ->
  (peer_addr c = [] -> res = Raise IndexError /\ c' = c /\ ev = []) /\
  (peer_addr c <> [] ->
     exists r a,
       In r (keys (peer_addr c)) /\ peer_addr c !! r = Some a /\
       replica_id c' = Some r /\ channel c' = Some (next_obj c) /\
       ev = [EConnect (replica_addr a)] /\
       if accepts env (replica_addr a)
       then res = Ok tt /\
            endpoints (socket c') = endpoints (socket c) ++ [replica_addr a]
       else res = Raise ZMQError /\
            endpoints (socket c') = endpoints (socket c)).
Proof.
  intros Hid H.
  apply connect_random_key in H
    as [(-> & -> & -> & He) | (r & a & Hin & Ha & H)].
  - split; [auto | intros Hne; contradiction].
  - split; [intros He; rewrite He in Hin; destruct Hin|].
    intros _. apply connect_explicit in H. cbv zeta in H.
    rewrite Hid in H. cbn [truthy_id] in H. rewrite Ha in H.
    destruct H as ((H1 & H2 & _) & -> & H5).
    exists r, a. auto 10.
Qed.

(** The start of [request] on a client with a replica id and a channel. *)
Lemma request_begins {T : Type} (deserialize : Packet -> Res T) (env : Env)
    (fuel : nat) (command : Z) (c : ReplicaClient) r ch :
  replica_id c = Some r -> channel c = Some ch ->
  exists rest c2 res2,
    request deserialize env fuel command c =
      (EClientRequest ch (Some r) command :: ENow :: rest, c2, res2).
Proof.
  intros Hr Hch. unfold request.
  rewrite (request_start_run env command c r ch Hr Hch).
  match goal with |- context [request_loop _ _ _ _ ?st ?x] =>
    destruct (request_loop deserialize env fuel command st x) as [[ev2 c2] r2]
  end.
  eauto.
Qed.

(** X8.  [connect(r)] with an id that has no address, on a client that is
    not connected (or whose replica id is 0): the call ends in a
    [KeyError] without touching the socket, but [replica_id] is already [r]
    and a channel is installed.  A [request] made then passes its assertion
    and sends to [r].  If [r] is not 0, every later [connect] with an id
    raises [KeyError] before changing anything, as the address to
    disconnect from is looked up first. *)
Theorem connect_unknown_id (env : Env) (r : Z) (rnd : nat)
    (c : ReplicaClient) ev c' res :
  truthy_id (replica_id c) = false ->
  peer_addr c !! r = None ->
  connect env (Some r) rnd c = (ev, c', res) ->
  res = Raise KeyError /\ ev = [] /\
  endpoints (socket c') = endpoints (socket c) /\
  replica_id c' = Some r /\ channel c' = Some (next_obj c) /\
  (forall (T : Type) (deserialize : Packet -> Res T) env fuel command,
     exists rest c2 res2,
       request deserialize env fuel command c' =
         (EClientRequest (next_obj c) (Some r) command :: ENow :: rest,
          c2, res2)) /\
  (r <> 0%Z ->
   forall env2 r2 rnd2,
     connect env2 (Some r2) rnd2 c' = ([], c', Raise KeyError)).
Proof.
  intros Htr Hr H. apply connect_explicit in H. cbv zeta in H.
  rewrite Htr, Hr in H. destruct H as ((H1 & H2 & H3 & H4) & -> & -> & H5).
  split; [reflexivity|]. split; [reflexivity|]. split; [exact H5|].
  split; [exact H1|]. split; [exact H2|]. split.
  - intros T deserialize env0 fuel command.
    apply request_begins; assumption.
  - intros Hnz env2 r2 rnd2.
    destruct (connect env2 (Some r2) rnd2 c') as [[ev2 c2] res2] eqn:E.
    apply connect_explicit in E. cbv zeta in E.
    rewrite H1 in E. cbn [truthy_id] in E.
    destruct (r =? 0)%Z eqn:E0; [apply Z.eqb_eq in E0; contradiction|].
    cbn [negb] in E. destruct E as (old & Hold & _ & E).
    inversion Hold; subst old. rewrite H4, Hr in E.
    destruct E as (-> & -> & ->). reflexivity.
Qed.

Lemma connect_tidy (env : Env) (r : Z) (rnd : nat) (c : ReplicaClient)
    ev c' :
  tidy c -> r <> 0%Z ->
  connect env (Some r) rnd c = (ev, c', Ok tt) ->
  peer_addr c' = peer_addr c /\ replica_id c' = Some r /\
  exists a, peer_addr c !! r = Some a /\
            endpoints (socket c') = [replica_addr a].
Proof.
  intros Ht Hr H. apply connect_explicit in H. cbv zeta in H.
  assert (Hfin : forall pre,
            match peer_addr c !! r with
            | Some a =>
                ev = pre ++ [EConnect (replica_addr a)] /\
                if accepts env (replica_addr a)
                then Ok tt = Ok tt /\
                     endpoints (socket c') = [] ++ [replica_addr a]
                else Ok tt = Raise ZMQError /\ endpoints (socket c') = []
            | None => ev = pre /\ Ok tt = Raise KeyError /\
                      endpoints (socket c') = []
            end ->
            exists a, peer_addr c !! r = Some a /\
                      endpoints (socket c') = [replica_addr a]).
  { intros pre Hf. destruct (peer_addr c !! r) as [a|];
      [|destruct Hf as (_ & Hc & _); discriminate Hc].
    destruct Hf as (_ & Hf).
    destruct (accepts env (replica_addr a));
      [|destruct Hf as (Hc & _); discriminate Hc].
    destruct Hf as (_ & Hf). eauto. }
  destruct Ht as [(Hid & Hep) | (old & a0 & Hid & Hold & Ha0 & Hep)];
    rewrite Hid in H; cbn [truthy_id] in H.
  - destruct H as ((H1 & _ & _ & H4) & H). rewrite Hep in H.
    split; [exact H4|]. split; [exact H1|]. exact (Hfin _ H).
  - destruct (old =? 0)%Z eqn:E0; [apply Z.eqb_eq in E0; contradiction|].
    cbn [negb] in H. destruct H as (old' & Ho & _ & H).
    inversion Ho; subst old'. rewrite Ha0, Hep in H.
    cbn [existsb] in H. rewrite String.eqb_refl in H. cbn [orb] in H.
    unfold drop_endpoint in H. cbn [List.filter] in H.
    rewrite String.eqb_refl in H. cbn [negb] in H.
    destruct H as ((H1 & _ & _ & H4) & H).
    split; [exact H4|]. split; [exact H1|]. exact (Hfin _ H).
Qed.

(** X9.  A client that only ever connects to replicas of nonzero ids, and
    whose calls of [connect] all return, is connected to exactly one
    endpoint at any time: the address of the replica connected to last,
    which is the one [replica_id] names. *)
Theorem connect_each_single_endpoint (env : Env) (rs : list Z) :
  forall (c : ReplicaClient) ev c',
    tidy c -> Forall (fun r => r <> 0%Z) rs ->
    connect_each env rs c = (ev, c', Ok tt) ->
    tidy c' /\ peer_addr c' = peer_addr c /\
    forall r, last rs = Some r ->
      replica_id c' = Some r /\
      exists a, peer_addr c !! r = Some a /\
                endpoints (socket c') = [replica_addr a].
Proof.
  induction rs as [|r rs IH]; intros c ev c' Ht Hnz H.
  - inversion H; subst. split; [exact Ht|]. split; [reflexivity|]. discriminate.
  - inversion Hnz as [|? ? Hr Hrs]; subst.
    unfold connect_each in H. cbn [for_each] in H. unfold bind at 1 in H.
    destruct (connect env (Some r) 0 c) as [[ev1 c1] [[]|e]] eqn:E1;
      [|discriminate].
    fold (connect_each env rs) in H.
    destruct (connect_each env rs c1) as [[ev2 c2] r2] eqn:E2.
    inversion H; subst ev c' r2. clear H.
    apply connect_tidy in E1 as (Hpa & Hid & a & Ha & Hep); auto.
    assert (Ht1 : tidy c1).
    { right. exists r, a. rewrite Hpa. auto. }
    pose proof E2 as E2'.
    apply IH in E2 as (Ht2 & Hpa2 & Hlast); auto.
    split; [exact Ht2|]. split; [congruence|].
    intros r' Hl. destruct rs as [|r1 rs].
    + inversion E2'; subst. inversion Hl; subst. eauto.
    + rewrite <- Hpa. apply Hlast. exact Hl.
Qed.

Section WithReply.
Context {T : Type} (deserialize : Packet -> Res T) (env : Env).

(** A turn of the loop of [request] when the queue is not empty once the
    poll has returned: the head of the queue is read, whatever it is. *)
Lemma request_turn_head (command : Z) (start : Q) (c : ReplicaClient) m rest :
  inbound (socket c) ++ arrivals env (n_poll (socket c)) = m :: rest ->
  exists c',
    inbound (socket c') = rest /\
    n_poll (socket c') = Datatypes.S (n_poll (socket c)) /\
    replica_id c' = replica_id c /\ channel c' = channel c /\
    request_turn deserialize env command start c =
      match m with
      | [p] =>
          match deserialize p with
          | Ok rtn =>
              ([EPoll 1000; ERecv false (Some m); ENow], c',
               Ok (Some ((clock env (n_now (socket c)) - start)%Q, rtn)))
          | Raise e => ([EPoll 1000; ERecv false (Some m)], c', Raise e)
          end
      | _ => ([EPoll 1000; ERecv false (Some m)], c', Raise ValueError)
      end.
Proof.
  intros Hq.
  cbv [request_turn bind poll recv_multipart unpack_one lift now ret raise].
  rewrite Hq. cbn.
  destruct m as [|p [|p2 fs]]; cbn; [| destruct (deserialize p); cbn |];
    (eexists; split; [|split; [|split; [|split; [|reflexivity]]]]; reflexivity).
Qed.

(** A turn changes nothing of the client but its socket. *)
Lemma request_turn_keeps (command : Z) (start : Q) (c : ReplicaClient)
    ev c' r :
  request_turn deserialize env command start c = (ev, c', r) ->
  replica_id c' = replica_id c /\ channel c' = channel c /\
  peer_addr c' = peer_addr c /\
  (forall e, r = Raise e ->
     (e = AttributeError /\ channel c = None) \/ e = ValueError \/
     exists p, deserialize p = Raise e).
Proof.
  cbv [request_turn bind poll recv_multipart unpack_one lift now ret
       client_request get emit raise].
  destruct (inbound (socket c) ++ arrivals env (n_poll (socket c)))
    as [|m q] eqn:Eq; cbn; rewrite ?Eq.
  - destruct (channel c) eqn:Ec; intros H; inversion H; subst; cbn;
      repeat split; auto; try discriminate.
    intros e He. inversion He; subst. left. auto.
  - destruct m as [|p [|p2 fs]]; cbn.
    + intros H; inversion H; subst; cbn. repeat split; auto.
      intros e He. inversion He; subst. auto.
    + destruct (deserialize p) eqn:Ed; cbn; intros H; inversion H; subst; cbn;
        repeat split; auto; try discriminate.
      intros e' He. inversion He; subst. right. right. eauto.
    + intros H; inversion H; subst; cbn. repeat split; auto.
      intros e He. inversion He; subst. auto.
Qed.

Lemma request_loop_keeps (command : Z) (start : Q) :
  forall fuel (c : ReplicaClient) ev c' r,
    request_loop deserialize env fuel command start c = (ev, c', r) ->
    replica_id c' = replica_id c /\ channel c' = channel c /\
    peer_addr c' = peer_addr c /\
    (forall e, r = Some (Raise e) ->
       (e = AttributeError /\ channel c = None) \/ e = ValueError \/
       exists p, deserialize p = Raise e).
Proof.
  induction fuel as [|fuel IH]; intros c ev c' r H.
  - inversion H; subst. repeat split; auto. discriminate.
  - cbn [request_loop] in H.
    destruct (request_turn deserialize env command start c)
      as [[ev1 c1] r1] eqn:Ht.
    apply request_turn_keeps in Ht as (H1 & H2 & H3 & H4).
    destruct r1 as [[v|]|e1].
    + inversion H; subst. repeat split; auto. discriminate.
    + destruct (request_loop deserialize env fuel command start c1)
        as [[ev2 c2] r2] eqn:Hl.
      inversion H; subst ev c' r. clear H.
      apply IH in Hl as (H5 & H6 & H7 & H8).
      repeat split; try congruence.
      intros e He. destruct (H8 e He) as [(-> & Hc) | Hx]; [|auto].
      left. split; [reflexivity | congruence].
    + inversion H; subst. repeat split; auto.
      intros e He. inversion He; subst. apply H4. reflexivity.
Qed.

Lemma connect_keeps_linked (env2 : Env) (rid : option Z) (rnd : nat)
    (c : ReplicaClient) ev c' res :
  linked c -> connect env2 rid rnd c = (ev, c', res) ->
  linked c' /\ peer_addr c' = peer_addr c.
Proof.
  assert (Hex : forall r, linked c ->
                          connect env2 (Some r) rnd c = (ev, c', res) ->
                          linked c' /\ peer_addr c' = peer_addr c).
  { intros r Hl H. apply connect_explicit in H. cbv zeta in H.
    assert (Hinst : replica_id c' = Some r /\ channel c' = Some (next_obj c) /\
                    next_obj c' = Datatypes.S (next_obj c) /\
                    peer_addr c' = peer_addr c ->
                    linked c' /\ peer_addr c' = peer_addr c).
    { intros (H1 & H2 & _ & H4). split; [|exact H4].
      unfold linked. rewrite H1, H2. split; discriminate. }
    destruct (truthy_id (replica_id c)).
    - destruct H as (old & _ & _ & H).
      destruct (peer_addr c !! old) as [a|].
      + destruct (existsb _ _).
        * apply Hinst, H.
        * destruct H as (_ & -> & _). auto.
      + destruct H as (_ & -> & _). auto.
    - apply Hinst, H. }
  intros Hl H. destruct rid as [r|]; [eauto|].
  apply connect_random in H as [(_ & -> & _) | (r & _ & H)]; eauto.
Qed.

(** X10.  [replica_id] and [channel] are [None] together: the constructor
    makes them so, every call of [connect] keeps them so whatever its
    arguments and however it ends, and [request] does not touch them.  So
    a [request] never fails for want of a channel: on such a client it
    raises [AttributeError] only if [deserialize] does. *)
Theorem client_keeps_linked (c : ReplicaClient) :
  (forall pid addrs, linked (ReplicaClient_init pid addrs)) /\
  (linked c ->
   (forall env2 rid rnd ev c' res,
      connect env2 rid rnd c = (ev, c', res) ->
      linked c' /\ peer_addr c' = peer_addr c) /\
   (forall fuel command ev c' r,
      request deserialize env fuel command c = (ev, c', r) ->
      linked c' /\ replica_id c' = replica_id c /\
      peer_addr c' = peer_addr c /\
      (r = Some (Raise AttributeError) ->
       exists p, deserialize p = Raise AttributeError))).
Proof.
  split; [intros; unfold linked; simpl; tauto|].
  intros Hl. split; [intros; eapply connect_keeps_linked; eauto|].
  intros fuel command ev c' r H. unfold request in H.
  destruct (replica_id c) as [rid|] eqn:Hr.
  - destruct (channel c) as [ch|] eqn:Hch.
    2:{ unfold linked in Hl. rewrite Hr, Hch in Hl.
        destruct Hl as [_ Hl]. specialize (Hl eq_refl). discriminate Hl. }
    rewrite (request_start_run env command c rid ch Hr Hch) in H.
    match type of H with context [request_loop _ _ _ _ ?st ?x] =>
      destruct (request_loop deserialize env fuel command st x)
        as [[ev2 c2] r2] eqn:Hloop end.
    inversion H; subst ev c' r. clear H.
    apply request_loop_keeps in Hloop as (H1 & H2 & H3 & H4).
    cbn in H1, H2, H3, H4. rewrite Hch in H4.
    split; [unfold linked; rewrite H1, H2, Hr, Hch; split; discriminate|].
    split; [congruence|]. split; [exact H3|].
    intros He. destruct (H4 AttributeError He) as [(_ & Hc) | [Hc | Hc]];
      [discriminate | discriminate | exact Hc].
  - cbv [request_start bind get raise] in H. rewrite Hr in H.
    inversion H; subst. rewrite Hr.
    split; [exact Hl|]. split; [reflexivity|]. split; [reflexivity|].
    intros He; discriminate He.
Qed.

(** X11.  [request] returns the first message it finds on the socket,
    whatever the command it has just sent: if a message is queued, or
    arrives during the first poll window, and is a one-frame message that
    decodes, the call returns it after the one send and the one poll, and
    leaves the rest of the queue for the next call.  So a second reply to a
    request that was retransmitted is what the next [request] returns. *)
Theorem request_takes_first_message (command : Z) (c : ReplicaClient)
    r ch p rest rtn :
  replica_id c = Some r -> channel c = Some ch ->
  inbound (socket c) ++ arrivals env (n_poll (socket c)) = [p] :: rest ->
  deserialize p = Ok rtn ->
  forall fuel, exists c',
    request deserialize env (Datatypes.S fuel) command c =
      ([EClientRequest ch (Some r) command; ENow;
        EPoll 1000; ERecv false (Some [p]); ENow],
       c',
       Some (Ok ((clock env (Datatypes.S (n_now (socket c)))
                  - clock env (n_now (socket c)))%Q, rtn))) /\
    inbound (socket c') = rest /\
    n_poll (socket c') = Datatypes.S (n_poll (socket c)) /\
    replica_id c' = Some r /\ channel c' = Some ch.
Proof.
  intros Hr Hch Hq Hd fuel. unfold request.
  rewrite (request_start_run env command c r ch Hr Hch).
  match goal with |- context [request_loop _ _ _ _ _ ?x] => set (c1 := x) end.
  destruct (request_turn_head command (clock env (n_now (socket c))) c1
              [p] rest Hq) as (c' & H1 & H2 & H3 & H4 & Ht).
  rewrite Hd in Ht. cbn [request_loop]. rewrite Ht.
  exists c'. cbn in H2, H3, H4. split; [reflexivity|].
  split; [exact H1|]. split; [exact H2|]. split; congruence.
Qed.

(** X12.  A first message that is not a one-frame message that decodes
    ends [request] with an exception, [ValueError] for a message of no or
    several frames and otherwise what [deserialize] raises, after the one
    send and the one poll; the message has been taken off the queue. *)
Theorem request_drops_bad_message (command : Z) (c : ReplicaClient)
    r ch m rest e :
  replica_id c = Some r -> channel c = Some ch ->
  inbound (socket c) ++ arrivals env (n_poll (socket c)) = m :: rest ->
  (length m <> 1%nat /\ e = ValueError) \/
  (exists p, m = [p] /\ deserialize p = Raise e) ->
  forall fuel, exists c',
    request deserialize env (Datatypes.S fuel) command c =
      ([EClientRequest ch (Some r) command; ENow;
        EPoll 1000; ERecv false (Some m)],
       c', Some (Raise e)) /\
    inbound (socket c') = rest.
Proof.
  intros Hr Hch Hq Hbad fuel. unfold request.
  rewrite (request_start_run env command c r ch Hr Hch).
  match goal with |- context [request_loop _ _ _ _ _ ?x] => set (c1 := x) end.
  destruct (request_turn_head command (clock env (n_now (socket c))) c1
              m rest Hq) as (c' & H1 & _ & _ & _ & Ht).
  cbn [request_loop]. rewrite Ht. exists c'. split; [|exact H1].
  destruct Hbad as [(Hlen & ->) | (p & -> & Hd)].
  - destruct m as [|p [|p2 fs]]; try reflexivity. now contradiction Hlen.
  - rewrite Hd. reflexivity.
Qed.

End WithReply.

(** *** On the small client *)

Import Example.

Lemma connect_without_id_witness :
  exists ev c' r a,
    connect env_silent None 3 stray_client = (ev, c', Raise ZMQError) /\
    replica_id c' = Some r /\ replicas_and_stray !! r = Some a /\
    ev = [EConnect (replica_addr a)] /\
    endpoints (socket c') = [].
Proof.
  destruct (connect env_silent None 3 stray_client) as [[ev c'] res] eqn:H.
  assert (Hres : res = Raise ZMQError).
  { pose proof H as H'. vm_compute in H'. inversion H'. reflexivity. }
  subst res.
  destruct (connect_without_id env_silent 3 stray_client ev c' _ eq_refl H)
    as [_ Hne].
  destruct Hne as (r & a & _ & Ha & Hid & _ & Hev & Hif); [discriminate|].
  exists ev, c', r, a. split; [reflexivity|]. split; [exact Hid|].
  split; [exact Ha|]. split; [exact Hev|].
  destruct (accepts env_silent (replica_addr a)); destruct Hif as [Hr Hep];
    [discriminate Hr | exact Hep].
Defined.

Lemma connect_unknown_id_witness :
  exists c',
    connect env_silent (Some 9%Z) 0 toy_client = ([], c', Raise KeyError) /\
    replica_id c' = Some 9%Z /\
    connect env_silent (Some 2%Z) 0 c' = ([], c', Raise KeyError).
Proof.
  destruct (connect env_silent (Some 9%Z) 0 toy_client)
    as [[ev c'] res] eqn:H.
  destruct (connect_unknown_id env_silent 9 0 toy_client ev c' res
              eq_refl eq_refl H)
    as (-> & -> & _ & Hid & _ & _ & Hlater).
  exists c'. split; [reflexivity|]. split; [exact Hid|].
  apply Hlater. discriminate.
Defined.

Lemma connect_each_single_endpoint_witness :
  exists ev c',
    connect_each env_silent [2%Z; 3%Z; 2%Z] toy_client = (ev, c', Ok tt) /\
    replica_id c' = Some 2%Z /\
    exists a, replicas !! 2%Z = Some a /\
              endpoints (socket c') = [replica_addr a].
Proof.
  destruct (connect_each env_silent [2%Z; 3%Z; 2%Z] toy_client)
    as [[ev c'] res] eqn:H.
  assert (Hres : res = Ok tt).
  { pose proof H as H'. vm_compute in H'. inversion H'. reflexivity. }
  subst res. exists ev, c'. split; [reflexivity|].
  assert (Ht : tidy toy_client) by (left; split; reflexivity).
  assert (Hnz : Forall (fun r => r <> 0%Z) [2%Z; 3%Z; 2%Z])
    by (repeat constructor; discriminate).
  destruct (connect_each_single_endpoint env_silent [2%Z; 3%Z; 2%Z]
              toy_client ev c' Ht Hnz H) as (_ & _ & Hlast).
  apply Hlast. reflexivity.
Defined.

Lemma client_keeps_linked_witness :
  linked toy_client /\
  forall ev c' r,
    request toy_deserialize env_reply 5 7 connected_client = (ev, c', r) ->
    linked c' /\ replica_id c' = replica_id connected_client.
Proof.
  destruct (client_keeps_linked toy_deserialize env_reply connected_client)
    as [Hinit Hkeep].
  split; [apply Hinit|].
  destruct Hkeep as [_ Hreq].
  { unfold linked. vm_compute. split; intros He; discriminate He. }
  intros ev c' r H. destruct (Hreq 5%nat 7%Z ev c' r H) as (Hl & Hid & _).
  split; [exact Hl | exact Hid].
Defined.

Lemma request_takes_first_message_witness :
  exists c' lat,
    request toy_deserialize env_twice 1 7 connected_client =
      ([EClientRequest 0 (Some 2%Z) 7; ENow;
        EPoll 1000; ERecv false (Some [pkt_a]); ENow],
       c', Some (Ok (lat, pkt_a))) /\
    inbound (socket c') = [[pkt_b]].
Proof.
  destruct (request_takes_first_message toy_deserialize env_twice 7
              connected_client 2 0 pkt_a [[pkt_b]] pkt_a
              eq_refl eq_refl eq_refl eq_refl 0)
    as (c' & Hreq & Hin & _).
  exists c'. eexists. split; [exact Hreq | exact Hin].
Defined.

Lemma request_drops_bad_message_witness :
  exists c',
    request toy_deserialize env_two_frames 1 7 connected_client =
      ([EClientRequest 0 (Some 2%Z) 7; ENow;
        EPoll 1000; ERecv false (Some [pkt_a; pkt_b])],
       c', Some (Raise ValueError)) /\
    inbound (socket c') = [].
Proof.
  apply (request_drops_bad_message toy_deserialize env_two_frames 7
           connected_client 2 0 [pkt_a; pkt_b] [] ValueError
           eq_refl eq_refl eq_refl).
  left. split; [discriminate | reflexivity].
Defined.

End ClientMore.

(** ** Channel: no method is shadowed *)
Module PeerMore.
Import Peer.

Lemma declares_fresh (name : string) (ms : list method) :
  ~ In name (List.map m_name ms) -> declares name ms = false.
Proof.
  unfold declares. induction ms as [|m ms IH]; intros Hn; [reflexivity|].
  simpl in *. destruct (String.eqb (m_name m) name) eqn:E.
  - apply String.eqb_eq in E. exfalso. auto.
  - simpl. apply IH. auto.
Qed.

Lemma filter_all {A} (f : A -> bool) (l : list A) :
  (forall x, In x l -> f x = true) -> List.filter f l = l.
Proof.
  induction l as [|x l IH]; intros H; [reflexivity|].
  simpl. rewrite (H x (or_introl eq_refl)). f_equal. apply IH.
  intros y Hy. apply H. now right.
Qed.

(** When the classes of an MRO declare pairwise distinct names, none of
    them different from the names already seen, lookup along the MRO finds
    every method declared. *)
Lemma resolve_no_clash :
  forall (mro : list class) (seen : list method),
    List.NoDup (List.map m_name (seen ++ List.concat (List.map c_methods mro))) ->
    resolve mro seen = seen ++ List.concat (List.map c_methods mro).
Proof.
  induction mro as [|c rest IH]; intros seen Hnd.
  - simpl. now rewrite app_nil_r.
  - simpl in *. rewrite filter_all.
    + rewrite IH; rewrite <- app_assoc; [reflexivity | exact Hnd].
    + intros m Hm. apply negb_true_iff, declares_fresh. intros Hin.
      rewrite List.map_app in Hnd.
      destruct (proj1 (NoDup_app _ _) (proj2 (NoDup_ListNoDup _) Hnd))
        as (_ & Hdisj & _).
      apply (Hdisj (m_name m)); [now apply list_elem_of_In|].
      apply list_elem_of_In. rewrite List.map_app. apply in_or_app. left.
      now apply in_map.
Qed.

Lemma concat_methods_perm (l l' : list class) :
  l ≡ₚ l' ->
  List.concat (List.map c_methods l) ≡ₚ List.concat (List.map c_methods l').
Proof.
  induction 1 as [|c l l' _ IH|c d l|l l' l'' _ IH1 _ IH2]; simpl.
  - reflexivity.
  - now rewrite IH.
  - rewrite !app_assoc. f_equiv. apply Permutation_app_comm.
  - now rewrite IH1.
Qed.

Lemma lookup_unique (ms : list method) (m : method) :
  List.NoDup (List.map m_name ms) -> In m ms ->
  lookup_method ms (m_name m) = Some m.
Proof.
  unfold lookup_method. induction ms as [|x ms IH]; intros Hnd Hin; [easy|].
  simpl in *. apply List.NoDup_cons_iff in Hnd as [Hx Hnd].
  destruct Hin as [-> | Hin].
  - now rewrite String.eqb_refl.
  - destruct (String.eqb (m_name x) (m_name m)) eqn:E.
    + apply String.eqb_eq in E. exfalso. apply Hx. rewrite E.
      now apply in_map.
    + now apply IH.
Qed.

(** X13.  [Channel] and its three bases declare eleven methods under
    eleven names, so no declaration hides another: whichever order the
    three interfaces are listed in as bases, an instance of [Channel] has
    the same methods, every method any of the interfaces declares is the one
    its name resolves to, and each of these handlers comes from an
    interface, not from [Channel] itself. *)
Theorem Channel_shadows_nothing (bases : list class) :
  bases ≡ₚ [AcceptorInterface; ClientInterface; LeaderInterface] ->
  resolve (Channel :: bases) [] ≡ₚ Channel_methods /\
  length (resolve (Channel :: bases) []) = 11%nat /\
  (forall b m, In b bases -> In m (c_methods b) ->
     lookup_method (resolve (Channel :: bases) []) (m_name m) = Some m /\
     lookup_method Channel_methods (m_name m) = Some m /\
     lookup_method (c_methods Channel) (m_name m) = None).
Proof.
  intros Hp.
  assert (Hall : List.concat (List.map c_methods (Channel :: bases)) ≡ₚ
                 Channel_methods).
  { simpl. rewrite (concat_methods_perm _ _ Hp). reflexivity. }
  assert (Hnd0 : List.NoDup (List.map m_name Channel_methods)).
  { vm_compute. repeat constructor; simpl; intros H;
      repeat (destruct H as [H|H]; [discriminate H|]); exact H. }
  assert (Hnd : List.NoDup
                  (List.map m_name
                     (List.concat (List.map c_methods (Channel :: bases))))).
  { eapply Permutation_NoDup; [|exact Hnd0].
    apply Permutation_map. symmetry. exact Hall. }
  assert (Hres : resolve (Channel :: bases) [] =
                 List.concat (List.map c_methods (Channel :: bases))).
  { apply (resolve_no_clash (Channel :: bases) []). exact Hnd. }
  split; [rewrite Hres; exact Hall|].
  split; [rewrite Hres, Hall; reflexivity|].
  intros b m Hb Hm.
  assert (Hin : In m (List.concat (List.map c_methods (Channel :: bases)))).
  { simpl. right. apply in_concat. exists (c_methods b). split; [|exact Hm].
    now apply in_map. }
  split; [rewrite Hres; apply lookup_unique; assumption|].
  split.
  - apply lookup_unique; [exact Hnd0|].
    apply list_elem_of_In. rewrite <- Hall. now apply list_elem_of_In.
  - assert (Hb' : In b [AcceptorInterface; ClientInterface; LeaderInterface]).
    { apply list_elem_of_In. rewrite <- Hp. now apply list_elem_of_In. }
    simpl in Hb'. destruct Hb' as [<-|[<-|[<-|[]]]]; simpl in Hm;
      repeat (destruct Hm as [<-|Hm]; [reflexivity|]); destruct Hm.
Qed.

Lemma Channel_shadows_nothing_witness :
  resolve [Channel; LeaderInterface; AcceptorInterface; ClientInterface] []
    ≡ₚ Channel_methods.
Proof.
  apply (Channel_shadows_nothing
           [LeaderInterface; AcceptorInterface; ClientInterface]).
  apply (Permutation_app_comm [LeaderInterface]
           [AcceptorInterface; ClientInterface]).
Defined.

End PeerMore.

(** ** ReplicaClient: the trace of a request, and of a run of requests *)
Module ClientRun.
Import Zmq Client Basics ClientFacts ClientMore.

Lemma received_concat (a b : list Event) :
  received (a ++ b) = received a ++ received b.
Proof. unfold received. apply omap_app. Qed.

Lemma count_concat (f : Event -> bool) (a b : list Event) :
  count f (a ++ b) = (count f a + count f b)%nat.
Proof. unfold count. now rewrite List.filter_app, length_app. Qed.

Lemma retries_readers ch r command k :
  received (retries ch r command k) = [] /\
  count is_client_request (retries ch r command k) = k /\
  count is_log (retries ch r command k) = 0%nat /\
  (forall e, In e (retries ch r command k) ->
     e = EPoll 1000 \/ e = EClientRequest ch r command).
Proof.
  induction k as [|k (H1 & H2 & H3 & H4)].
  - repeat split; try reflexivity. intros e [].
  - rewrite retries_S, received_concat, !count_concat, H1, H2, H3.
    repeat split; try reflexivity.
    intros e He. apply in_app_or in He as [[<-|[<-|[]]]|He]; auto.
Qed.

Section WithReply.
Context {T : Type} (deserialize : Packet -> Res T) (env : Env).

(** The loop of [request], whatever arrives: turns that time out and
    resend, then at most one turn that reads. *)
Lemma request_loop_trace (command : Z) (start : Q) ch r :
  forall fuel (c : ReplicaClient) ev c' res,
    channel c = Some ch -> replica_id c = Some r ->
    request_loop deserialize env fuel command start c = (ev, c', res) ->
    channel c' = Some ch /\ replica_id c' = Some r /\
    exists k, (k <= fuel)%nat /\
      match res with
      | None =>
          k = fuel /\ ev = retries ch (Some r) command k /\
          n_poll (socket c') = (n_poll (socket c) + k)%nat
      | Some out =>
          (k < fuel)%nat /\
          n_poll (socket c') = Datatypes.S (n_poll (socket c) + k) /\
          exists m,
            ev = retries ch (Some r) command k
                   ++ EPoll 1000 :: ERecv false (Some m)
                        :: match out with Ok _ => [ENow] | Raise _ => [] end /\
            match out with
            | Ok (lat, rtn) =>
                lat = (clock env (n_now (socket c)) - start)%Q /\
                exists p, m = [p] /\ deserialize p = Ok rtn
            | Raise e =>
                (length m <> 1%nat /\ e = ValueError) \/
                (exists p, m = [p] /\ deserialize p = Raise e)
            end
      end.
Proof.
  induction fuel as [|fuel IH]; intros c ev c' res Hch Hr H.
  - inversion H; subst. split; [exact Hch|]. split; [exact Hr|].
    exists 0%nat. split; [lia|]. split; [reflexivity|].
    split; [reflexivity | lia].
  - cbn [request_loop] in H.
    destruct (inbound (socket c) ++ arrivals env (n_poll (socket c)))
      as [|m rest] eqn:Eq.
    + apply app_eq_nil in Eq as [Hin Harr].
      rewrite (request_turn_timeout deserialize env command start c ch
                 Hch Hin Harr) in H.
      match type of H with context [request_loop _ _ _ _ _ ?x] =>
        set (c1 := x) in * end.
      destruct (request_loop deserialize env fuel command start c1)
        as [[ev2 c2] r2] eqn:Hl.
      inversion H; subst ev c' res. clear H.
      apply IH in Hl as (H1 & H2 & k & Hk & Hres); auto.
      split; [exact H1|]. split; [exact H2|].
      exists (Datatypes.S k). split; [lia|]. rewrite Hr, retries_S.
      cbn [n_poll socket set_socket c1] in Hres.
      destruct r2 as [out|].
      * destruct Hres as (Hlt & Hn & m & Hev & Hout).
        split; [lia|]. split; [rewrite Hn; cbn; lia|].
        exists m. split; [rewrite Hev, <- app_assoc; reflexivity | exact Hout].
      * destruct Hres as (-> & -> & Hn).
        split; [reflexivity|]. split; [reflexivity|]. rewrite Hn. cbn. lia.
    + destruct (request_turn_head deserialize env command start c m rest Eq)
        as (c1 & _ & Hn & Hid & Hc & Ht).
      rewrite Ht in H. clear Ht.
      split.
      { destruct m as [|p [|p2 fs]]; [| destruct (deserialize p) |];
          inversion H; subst; congruence. }
      split.
      { destruct m as [|p [|p2 fs]]; [| destruct (deserialize p) |];
          inversion H; subst; congruence. }
      exists 0%nat. split; [lia|].
      destruct m as [|p [|p2 fs]]; [| destruct (deserialize p) as [rtn|e] eqn:Ed |];
        inversion H; subst ev c' res; clear H;
        (split; [lia|]); (split; [rewrite Hn; lia|]);
        eexists; (split; [reflexivity|]).
      * left. split; [discriminate | reflexivity].
      * split; [reflexivity|]. eauto.
      * right. eauto.
      * left. split; [discriminate | reflexivity].
Qed.

(** X14.  The whole trace of a [request] on a connected client, whatever
    arrives and whenever: the command is sent once, the clock is read, and
    then the call polls in windows of 1000 ms, resending the same command to
    the same replica after each window that ends empty.  It reads from the
    socket at most once, the first message there is, and that read ends the
    call: with the value decoded and the time between the two readings of
    the clock, or with [ValueError] if the message has not exactly one
    frame, or with what [deserialize] raises.  It never raises anything
    else, and leaves [replica_id] and [channel] as they were. *)
Theorem request_reads_once (fuel : nat) (command : Z) (c : ReplicaClient)
    r ch ev c' res :
  replica_id c = Some r -> channel c = Some ch ->
  request deserialize env fuel command c = (ev, c', res) ->
  replica_id c' = Some r /\ channel c' = Some ch /\
  exists k, (k <= fuel)%nat /\
    let sent := [EClientRequest ch (Some r) command; ENow]
                  ++ retries ch (Some r) command k in
    match res with
    | None =>
        k = fuel /\ ev = sent /\
        n_poll (socket c') = (n_poll (socket c) + k)%nat
    | Some out =>
        (k < fuel)%nat /\
        n_poll (socket c') = Datatypes.S (n_poll (socket c) + k) /\
        exists m,
          ev = sent ++ EPoll 1000 :: ERecv false (Some m)
                 :: match out with Ok _ => [ENow] | Raise _ => [] end /\
          match out with
          | Ok (lat, rtn) =>
              lat = (clock env (Datatypes.S (n_now (socket c)))
                     - clock env (n_now (socket c)))%Q /\
              exists p, m = [p] /\ deserialize p = Ok rtn
          | Raise e =>
              (length m <> 1%nat /\ e = ValueError) \/
              (exists p, m = [p] /\ deserialize p = Raise e)
          end
    end.
Proof.
  intros Hr Hch H. unfold request in H.
  rewrite (request_start_run env command c r ch Hr Hch) in H.
  match type of H with context [request_loop _ _ _ _ _ ?x] =>
    set (c1 := x) in * end.
  destruct (request_loop deserialize env fuel command
              (clock env (n_now (socket c))) c1) as [[ev2 c2] r2] eqn:Hl.
  inversion H; subst ev c' res. clear H.
  apply (request_loop_trace command _ ch r) in Hl
    as (H1 & H2 & k & Hk & Hres); auto.
  split; [exact H2|]. split; [exact H1|]. exists k. split; [exact Hk|].
  cbv zeta. cbn [n_poll n_now socket set_socket c1] in Hres.
  destruct r2 as [out|].
  - destruct Hres as (Hlt & Hn & m & Hev & Hout).
    split; [exact Hlt|]. split; [exact Hn|]. exists m.
    split; [rewrite Hev, <- app_assoc; reflexivity | exact Hout].
  - destruct Hres as (-> & -> & Hn). auto.
Qed.

(** What the readers of a trace give on that of one [request]. *)
Lemma request_summary (fuel : nat) (command : Z) (c : ReplicaClient)
    r ch ev c' res :
  replica_id c = Some r -> channel c = Some ch ->
  request deserialize env fuel command c = (ev, c', res) ->
  replica_id c' = Some r /\ channel c' = Some ch /\
  count is_log ev = 0%nat /\
  (1 <= count is_client_request ev)%nat /\
  (forall e, In e ev -> is_client_request e = true ->
     e = EClientRequest ch (Some r) command) /\
  length (received ev) = match res with Some _ => 1%nat | None => 0%nat end /\
  (forall e, res = Some (Raise e) ->
     e = ValueError \/ exists p, deserialize p = Raise e).
Proof.
  intros Hr Hch H. unfold request in H.
  rewrite (request_start_run env command c r ch Hr Hch) in H.
  match type of H with context [request_loop _ _ _ _ _ ?x] =>
    set (c1 := x) in * end.
  destruct (request_loop deserialize env fuel command
              (clock env (n_now (socket c))) c1) as [[ev2 c2] r2] eqn:Hl.
  inversion H; subst ev c' res. clear H.
  apply (request_loop_trace command _ ch r) in Hl
    as (H1 & H2 & k & Hk & Hres); auto.
  destruct (retries_readers ch (Some r) command k) as (R1 & R2 & R3 & R4).
  split; [exact H2|]. split; [exact H1|].
  assert (Hshape : exists tail,
            ev2 = retries ch (Some r) command k ++ tail /\
            count is_log tail = 0%nat /\
            count is_client_request tail = 0%nat /\
            (forall e, In e tail -> is_client_request e = false) /\
            length (received tail) =
              match r2 with Some _ => 1%nat | None => 0%nat end).
  { destruct r2 as [out|].
    - destruct Hres as (_ & _ & m & Hev & _). eexists. split; [exact Hev|].
      destruct out; repeat split; try reflexivity;
        intros e' He; simpl in He;
        repeat (destruct He as [<-|He]; [reflexivity|]); destruct He.
    - destruct Hres as (_ & Hev & _). exists []. rewrite app_nil_r.
      repeat split; auto. intros e []. }
  destruct Hshape as (tail & -> & T1 & T2 & T3 & T4).
  change (EClientRequest ch (Some r) command :: ENow
            :: retries ch (Some r) command k ++ tail)
    with ([EClientRequest ch (Some r) command; ENow]
            ++ retries ch (Some r) command k ++ tail).
  rewrite !count_concat, !received_concat, !length_app, R1, R2, R3, T1, T2, T4.
  split; [reflexivity|]. split; [cbn; lia|]. split.
  - intros e He Hq. apply in_app_or in He as [[<-|[<-|[]]]|He];
      [reflexivity | discriminate Hq |].
    apply in_app_or in He as [He|He].
    + destruct (R4 e He) as [-> | ->]; [discriminate Hq | reflexivity].
    + rewrite (T3 e He) in Hq. discriminate Hq.
  - split; [reflexivity|].
    intros e He. inversion He; subst r2.
    destruct Hres as (_ & _ & m & _ & [(_ & ->) | (p & _ & Hd)]); eauto.
Qed.

(** The same for a run of requests. *)
Lemma request_each_summary (fuel : nat) r ch :
  forall (commands : list Z) (c : ReplicaClient) ev c' res,
    replica_id c = Some r -> channel c = Some ch ->
    request_each deserialize env fuel commands c = (ev, c', res) ->
    count is_log ev = 0%nat /\
    (forall e, In e ev -> is_client_request e = true ->
       exists d, In d commands /\ e = EClientRequest ch (Some r) d) /\
    match res with
    | Some (Ok _) =>
        length (received ev) = length commands /\
        (length commands <= count is_client_request ev)%nat
    | Some (Raise e) =>
        (1 <= length (received ev) <= length commands)%nat /\
        (e = ValueError \/ exists p, deserialize p = Raise e)
    | None => (length (received ev) < length commands)%nat
    end.
Proof.
  induction commands as [|d ds IH]; intros c ev c' res Hr Hch H.
  - inversion H; subst. repeat split; auto. intros e [].
  - cbn [request_each] in H.
    destruct (request deserialize env fuel d c) as [[ev1 c1] r1] eqn:E1.
    apply (request_summary fuel d c r ch) in E1
      as (H1 & H2 & H3 & H4 & H5 & H6 & H7); auto.
    destruct r1 as [[v|e]|].
    + destruct (request_each deserialize env fuel ds c1)
        as [[ev2 c2] r2] eqn:E2.
      inversion H; subst ev c' res. clear H.
      apply IH in E2 as (G1 & G2 & G3); auto.
      rewrite !count_concat, received_concat, length_app, H3, G1, H6.
      split; [reflexivity|]. split.
      * intros e He Hq. apply in_app_or in He as [He|He].
        -- exists d. split; [now left | auto].
        -- destruct (G2 e He Hq) as (d' & Hd' & ->). exists d'.
           split; [now right | reflexivity].
      * destruct r2 as [[u|e]|]; cbn [length]; [|destruct G3 as [G3 G4]|];
          repeat split; auto; lia.
    + inversion H; subst ev c' res. clear H. rewrite H3, H6.
      split; [reflexivity|]. split.
      * intros e' He Hq. exists d. split; [now left | auto].
      * split; [cbn [length]; lia | auto].
    + inversion H; subst ev c' res. clear H. rewrite H3, H6.
      split; [reflexivity|]. split.
      * intros e' He Hq. exists d. split; [now left | auto].
      * cbn [length]. lia.
Qed.

(** X15.  A run of [replica_client].  With no replica to choose from it
    logs an [IndexError] and does nothing else.  Otherwise it tries to
    connect to one of the replicas; when zmq refuses the address it logs the
    [ZMQError] and sends nothing.  When the connection is made, everything
    it sends afterwards is one of the 20000 commands, to that replica.  It
    never stops on the assertion of [request] or on a missing address: what
    is logged then, if anything, is the last event, and is a [ValueError]
    for a reply that has not exactly one frame or what [deserialize]
    raised, after at least one and at most 20000 messages read.  If it
    returns without logging, it has read exactly 20000 messages and sent at
    least as many requests; as long as it runs it has read fewer. *)
Theorem replica_client_run (fuel : nat) (pid : Z)
    (replicas : Dict) (rnd : nat) (draw : nat -> Z) ev b :
  replica_client deserialize env fuel pid replicas rnd draw = (ev, b) ->
  (replicas = [] -> ev = [ELogException IndexError] /\ b = true) /\
  (replicas <> [] ->
   exists r a rest,
     In r (keys replicas) /\ replicas !! r = Some a /\
     ev = EConnect (replica_addr a) :: rest /\
     (accepts env (replica_addr a) = false ->
        rest = [ELogException ZMQError] /\ b = true) /\
     (accepts env (replica_addr a) = true ->
        (forall e, In e rest -> is_client_request e = true ->
           exists i, (i < rounds)%nat /\
                     e = EClientRequest 0 (Some r) (draw i)) /\
        (b = false ->
           count is_log rest = 0%nat /\
           (length (received rest) < rounds)%nat) /\
        (b = true ->
           (count is_log rest = 0%nat /\ length (received rest) = rounds /\
            (rounds <= count is_client_request rest)%nat) \/
           (exists e pre,
              rest = pre ++ [ELogException e] /\ count is_log pre = 0%nat /\
              (1 <= length (received pre) <= rounds)%nat /\
              (e = ValueError \/ exists p, deserialize p = Raise e))))).
Proof.
  unfold replica_client.
  set (commands := List.map draw (List.seq 0 rounds)).
  assert (Hlen : length commands = rounds).
  { unfold commands. now rewrite length_map, length_seq. }
  assert (Hdraw : forall d, In d commands ->
                    exists i, (i < rounds)%nat /\ d = draw i).
  { intros d Hd. apply in_map_iff in Hd as (i & <- & Hi).
    apply in_seq in Hi. exists i. split; [lia | reflexivity]. }
  clearbody commands.
  set (c0 := ReplicaClient_init pid replicas).
  destruct (connect env None rnd c0) as [[ev1 rc] res1] eqn:Ec.
  apply connect_random_key in Ec
    as [(-> & -> & -> & He) | (r & a & Hin & Ha & Ec)].
  - intros H. inversion H; subst ev b. cbn in He.
    split; [auto | intros Hne; contradiction].
  - apply connect_explicit in Ec. cbv zeta in Ec.
    cbn [replica_id c0 ReplicaClient_init truthy_id peer_addr next_obj
         endpoints socket] in Ec, Ha, Hin.
    rewrite Ha in Ec. destruct Ec as ((H1 & H2 & _) & -> & Ec).
    intros H. split.
    { intros He. rewrite He in Hin. destruct Hin. }
    intros _. exists r, a.
    destruct (accepts env (replica_addr a)) eqn:Eacc.
    2:{ destruct Ec as (-> & _). inversion H; subst ev b.
        exists [ELogException ZMQError]. split; [exact Hin|].
        split; [exact Ha|]. split; [reflexivity|].
        split; [auto | intros Hc; discriminate Hc]. }
    destruct Ec as (-> & _).
    destruct (request_each deserialize env fuel commands rc)
      as [[ev2 c2] r2] eqn:E2.
    apply (request_each_summary fuel r 0%nat) in E2 as (G1 & G2 & G3); auto.
    assert (Hsent : forall e, In e ev2 -> is_client_request e = true ->
                      exists i, (i < rounds)%nat /\
                                e = EClientRequest 0 (Some r) (draw i)).
    { intros e He Hq. destruct (G2 e He Hq) as (d & Hd & ->).
      destruct (Hdraw d Hd) as (i & Hi & ->). eauto. }
    rewrite Hlen in G3.
    destruct r2 as [[u|e]|]; inversion H; subst ev b; clear H.
    + exists ev2. split; [exact Hin|]. split; [exact Ha|].
      split; [reflexivity|]. split; [intros Hc; discriminate Hc|].
      intros _. split; [exact Hsent|].
      split; [intros Hb; discriminate Hb|].
      intros _. left. tauto.
    + exists (ev2 ++ [ELogException e]). split; [exact Hin|].
      split; [exact Ha|]. split; [reflexivity|].
      split; [intros Hc; discriminate Hc|]. intros _. split.
      * intros e' He Hq. apply in_app_or in He as [He|[<-|[]]];
          [auto | discriminate Hq].
      * split; [intros Hb; discriminate Hb|].
        intros _. right. exists e, ev2. tauto.
    + exists ev2. split; [exact Hin|]. split; [exact Ha|].
      split; [reflexivity|]. split; [intros Hc; discriminate Hc|].
      intros _. split; [exact Hsent|]. split; [intros _; tauto|].
      intros Hb; discriminate Hb.
Qed.

End WithReply.

(** *** On the small client *)

Import Example.

Lemma request_reads_once_witness :
  exists ev c' res k,
    request toy_deserialize env_reply 5 7 connected_client = (ev, c', res) /\
    (k <= 5)%nat /\
    n_poll (socket c') = (n_poll (socket connected_client) + k
                          + match res with Some _ => 1 | None => 0 end)%nat.
Proof.
  destruct (request toy_deserialize env_reply 5 7 connected_client)
    as [[ev c'] res] eqn:H.
  destruct (request_reads_once toy_deserialize env_reply 5 7 connected_client
              2 0 ev c' res eq_refl eq_refl H) as (_ & _ & k & Hk & Hres).
  exists ev, c', res, k. split; [reflexivity|]. split; [exact Hk|].
  destruct res as [out|].
  - destruct Hres as (_ & Hn & _). rewrite Hn. lia.
  - destruct Hres as (_ & _ & Hn). rewrite Hn. lia.
Defined.

Lemma replica_client_run_witness :
  exists ev b r a rest,
    replica_client toy_deserialize env_reply 3 103 replicas 0 (fun i => 7%Z)
      = (ev, b) /\
    replicas !! r = Some a /\ ev = EConnect (replica_addr a) :: rest.
Proof.
  destruct (replica_client toy_deserialize env_reply 3 103 replicas 0
              (fun i => 7%Z)) as [ev b] eqn:H.
  destruct (replica_client_run toy_deserialize env_reply 3 103 replicas 0
              (fun i => 7%Z) ev b H) as [_ Hne].
  destruct Hne as (r & a & rest & _ & Ha & Hev & _); [discriminate|].
  exists ev, b, r, a, rest. auto.
Defined.

End ClientRun.
